(** * velox/type/Filter.cpp: scalar column filters and their intersection algebra

    A shallow embedding of the integer filters of [Filter.cpp]
    ([BigintRange], [BigintValuesUsingBitmask], [BigintValuesUsingHashTable],
    [BigintMultiRange]), of the value-set factory [createBigintValues], of the
    [mergeWith] algebra over them, of [BytesRange] and of the NaN handling of
    [MultiRange]; further of [Filter::toString], of the range test of
    [BytesValues] and of the tests of [MultiRange] on byte strings.

    Conventions.
    - [int64_t], [uint64_t], [uint32_t] and [size_t] values are elements of
      [Z]; every C++ operation that can leave the range of its type is written
      with its wrap-around ([toInt64], [toUint64], [toUint32]).
    - A call that the C++ code ends through [VELOX_CHECK] or
      [VELOX_UNREACHABLE], or that leaves defined behaviour (an access outside
      a vector, a shift by the width of the type), yields [Fail]; a call that
      returns yields [Ok].
    - [std::vector] is a list; [v[i]] is stdpp's lookup and [v[i] = x] is
      stdpp's insert, guarded where the index may leave the vector.
    - The header [Filter.h] is not among the sources.  The two constants of
      [BigintValuesUsingHashTable] it declares, [kEmptyMarker] and [M], are
      parameters of the development; the few members it defines inline are
      modelled from the specification and marked as such.
    - [MultiRange::mergeWith] (lines 475-527) merges the children of two
      multi-ranges through their own [mergeWith], which Filter.h defines for
      the floating-point and byte filters that a [MultiRange] holds; it is
      outside the embedded family: the type [Filter] below holds the constant
      filters, [BoolValue] and the integer filters. *)

From Stdlib Require Import ZArith Lia Bool String SpecFloat.
From stdpp Require Import base list.
From Equations Require Import Equations.

Local Open Scope Z_scope.

(** ** Machine integers *)

Definition kInt64Min : Z := - 2 ^ 63.
Definition kInt64Max : Z := 2 ^ 63 - 1.

Definition isInt64 (z : Z) : bool := (kInt64Min <=? z) && (z <=? kInt64Max).

Definition int64 (z : Z) : Prop := kInt64Min <= z <= kInt64Max.

(** Two's complement wrap-around to 64 signed bits. *)
Definition toInt64 (z : Z) : Z := (z + 2 ^ 63) mod 2 ^ 64 - 2 ^ 63.

(** Conversion to [uint64_t] / [size_t], and to [uint32_t]. *)
Definition toUint64 (z : Z) : Z := z mod 2 ^ 64.
Definition toUint32 (z : Z) : Z := z mod 2 ^ 32.

(** [__builtin_sub_overflow(a, b, &r)]: the flag and the wrapped difference. *)
Definition sub_overflow (a b : Z) : bool * Z :=
  (negb (isInt64 (a - b)), toInt64 (a - b)).

(** [std::max(a, b)] is [(a < b) ? b : a]; [std::min(a, b)] is
    [(b < a) ? b : a]. *)
Definition std_max (a b : Z) : Z := if a <? b then b else a.
Definition std_min (a b : Z) : Z := if b <? a then b else a.

(** ** Outcome of a call *)

Inductive Error : Type :=
| CheckFailed (message : string)   (* VELOX_CHECK(cond, message) failed *)
| Unreachable                       (* VELOX_UNREACHABLE() *)
| Undefined.                        (* the call left defined behaviour *)

Inductive Result (A : Type) : Type :=
| Ok (a : A)
| Fail (e : Error).
Arguments Ok {A} a.
Arguments Fail {A} e.

#[global] Instance Result_ret : MRet Result := fun A a => Ok a.

#[global] Instance Result_bind : MBind Result := fun A B k r =>
  match r with
  | Ok a => k a
  | Fail e => Fail e
  end.

#[global] Instance Result_fmap : FMap Result := fun A B f r =>
  match r with
  | Ok a => Ok (f a)
  | Fail e => Fail e
  end.

Definition returns {A : Type} (r : Result A) : Prop := exists a, r = Ok a.

Inductive FilterKind : Type :=
| kAlwaysFalse | kAlwaysTrue | kIsNull | kIsNotNull | kBoolValue
| kBigintRange | kBigintValuesUsingHashTable | kBigintValuesUsingBitmask
| kDoubleRange | kFloatRange | kBytesRange | kBytesValues
| kBigintMultiRange | kMultiRange.

(** ** BoolValue *)

Module BoolValue.
Record t : Type := mk { value_ : bool; nullAllowed_ : bool }.

(** Modelled from the spec: [BoolValue::testBool] is defined in Filter.h,
    which is not among the sources; "BoolValue(v, nullAllowed) accepts only
    bool value v". *)
Definition testBool (f : t) (value : bool) : bool := Bool.eqb (value_ f) value.
End BoolValue.

(** ** BigintRange *)

Module BigintRange.
Record t : Type := mk { lower_ : Z; upper_ : Z; nullAllowed_ : bool }.

(** Modelled from the spec: [BigintRange::testInt64] is defined in
    Filter.h, which is not among the sources; "BigintRange.testInt64(v) is
    lo <= v <= hi". *)
Definition testInt64 (f : t) (value : Z) : bool :=
  (lower_ f <=? value) && (value <=? upper_ f).

(** Modelled from the spec: [BigintRange::testInt64Range] is defined in
    Filter.h; "if hasNull and nullAllowed, return true; otherwise the filter
    checks whether [min, max] intersects its acceptance region". *)
Definition testInt64Range (f : t) (min max : Z) (hasNull : bool) : bool :=
  if hasNull && nullAllowed_ f then true
  else negb ((min >? upper_ f) || (max <? lower_ f)).

(** The constructor's precondition named by the specification
    ("closed interval [lo, hi], lo <= hi"). *)
Definition wf (f : t) : Prop := lower_ f <= upper_ f.
End BigintRange.

(** ** BigintValuesUsingBitmask *)

Module BigintValuesUsingBitmask.
Record t : Type :=
  mk { bitmask_ : list bool; min_ : Z; max_ : Z; nullAllowed_ : bool }.

(** [for (int64_t value : values) bitmask_[value - min] = true;] *)
Fixpoint setBits (min : Z) (values : list Z) (bitmask : list bool)
  : Result (list bool) :=
  match values with
  | [] => Ok bitmask
  | value :: rest =>
      let index := value - min in
      if (0 <=? index) && (index <? Z.of_nat (length bitmask))
      then setBits min rest (<[Z.to_nat index := true]> bitmask)
      else Fail Undefined
  end.

(** The constructor, Filter.cpp lines 74-90.  [resize(max - min + 1)] is
    computed in [int64_t]; where the sum leaves the type, and where a value
    lies outside [min, max] so that its bit is outside the vector, the call
    is [Undefined]. *)
Definition ctor (min max : Z) (values : list Z) (nullAllowed : bool)
  : Result t :=
  if negb (min <? max) then Fail (CheckFailed "min must be less than max")
  else if negb (1 <? Z.of_nat (length values))
  then Fail (CheckFailed "values must contain at least 2 entries")
  else if negb (isInt64 (max - min + 1)) then Fail Undefined
  else
    bitmask ← setBits min values
                (replicate (Z.to_nat (max - min + 1)) false);
    Ok (mk bitmask min max nullAllowed).

(** Filter.cpp lines 92-97. *)
Definition testInt64 (f : t) (value : Z) : bool :=
  if (value <? min_ f) || (value >? max_ f) then false
  else bitmask_ f !!! Z.to_nat (value - min_ f).

(** Filter.cpp lines 99-112. *)
Definition testInt64Range (f : t) (min max : Z) (hasNull : bool) : bool :=
  if hasNull && nullAllowed_ f then true
  else if min =? max then testInt64 f min
  else negb ((min >? max_ f) || (max <? min_ f)).
End BigintValuesUsingBitmask.

(** ** BigintValuesUsingHashTable *)

Module BigintValuesUsingHashTable.
Record t : Type :=
  mk { min_ : Z; max_ : Z; hashTable_ : list Z;
       containsEmptyMarker_ : bool; nullAllowed_ : bool }.

(** [1u << (uint32_t)std::log2(values.size() * 3)]: the conversion to
    [uint32_t] truncates the logarithm, so the exponent is the integer
    base-2 logarithm of three times the number of values. *)
Definition tableExponent (n : Z) : Z := Z.log2 (toUint64 (n * 3)).
Definition tableSize (n : Z) : Z := Z.shiftl 1 (tableExponent n).

(** How a lookup loop ended. *)
Inductive ProbeOutcome : Type := Hit | EmptySlot | Exhausted.

Section Constants.
(** Declared in Filter.h. *)
Variable kEmptyMarker : Z.
Variable M : Z.

(** [(value * M) & (size - 1)], the product taken in 64 bits. *)
Definition hashPosition (size value : Z) : Z :=
  Z.land (toUint64 (value * M)) (size - 1).

(** The insertion loop, lines 135-141: [iterations] counts the
    remaining rounds of [for (i = position; i < position + size; i++)];
    when the rounds are used up the value is not stored. *)
Fixpoint insertProbe (size value : Z) (hashTable : list Z) (i : Z)
                     (iterations : nat) : list Z :=
  match iterations with
  | O => hashTable
  | S iterations' =>
      let index := toUint32 (Z.land i (size - 1)) in
      if hashTable !!! Z.to_nat index =? kEmptyMarker
      then <[Z.to_nat index := value]> hashTable
      else insertProbe size value hashTable (i + 1) iterations'
  end.

(** One round of [for (auto value : values)], lines 130-143; the state
    is the table and [containsEmptyMarker_]. *)
Definition insertValue (size : Z) (state : list Z * bool) (value : Z)
  : list Z * bool :=
  if value =? kEmptyMarker then (state.1, true)
  else
    let position := hashPosition size value in
    (insertProbe size value state.1 position (Z.to_nat size), state.2).

(** The constructor, lines 114-144.  The size is an [unsigned int]: a shift
    by 32 or more is [Undefined].  The table is filled with the marker
    before the values are stored. *)
Definition ctor (min max : Z) (values : list Z) (nullAllowed : bool)
  : Result t :=
  if negb (min <? max) then Fail (CheckFailed "min must be less than max")
  else if negb (1 <? Z.of_nat (length values))
  then Fail (CheckFailed "values must contain at least 2 entries")
  else
    let n := Z.of_nat (length values) in
    if 32 <=? tableExponent n then Fail Undefined
    else
      let size := tableSize n in
      let state :=
        foldl (insertValue size)
              (replicate (Z.to_nat size) kEmptyMarker, false) values in
      Ok (mk min max state.1 state.2 nullAllowed).

(** The lookup loop, lines 155-164; [idx] is an [int32_t], which holds
    every index of a table of at most [2^31] slots. *)
Fixpoint probe (hashTable : list Z) (size value i : Z) (iterations : nat)
  : ProbeOutcome :=
  match iterations with
  | O => Exhausted
  | S iterations' =>
      let idx := Z.land i (size - 1) in
      let l := hashTable !!! Z.to_nat idx in
      if l =? kEmptyMarker then EmptySlot
      else if l =? value then Hit
      else probe hashTable size value (i + 1) iterations'
  end.

(** Lines 153-155: [size] and [pos] are [uint32_t], and the loop runs
    while [i < pos + size] in that type. *)
Definition lookup (f : t) (value : Z) : ProbeOutcome :=
  let size := toUint32 (Z.of_nat (length (hashTable_ f))) in
  let pos := toUint32 (Z.land (toUint64 (value * M)) (size - 1)) in
  probe (hashTable_ f) size value pos
        (Z.to_nat (toUint32 (pos + size) - pos)).

(** Filter.cpp lines 146-166. *)
Definition testInt64 (f : t) (value : Z) : bool :=
  if containsEmptyMarker_ f && (value =? kEmptyMarker) then true
  else if (value <? min_ f) || (value >? max_ f) then false
  else
    match lookup f value with
    | Hit => true
    | EmptySlot | Exhausted => false
    end.

(** Filter.cpp lines 168-181. *)
Definition testInt64Range (f : t) (min max : Z) (hasNull : bool) : bool :=
  if hasNull && nullAllowed_ f then true
  else if min =? max then testInt64 f min
  else negb ((min >? max_ f) || (max <? min_ f)).
End Constants.
End BigintValuesUsingHashTable.

(** ** BigintMultiRange *)

(** [std::lower_bound(values.begin(), values.end(), value)] as the bisection
    loop of the standard library: the window is [first, first + len), and the
    result is the distance of the returned iterator from [values.begin()]. *)
Equations? lower_bound_loop (values : list Z) (value : Z) (first len : nat)
  : nat by wf len lt :=
  lower_bound_loop values value first 0%nat := first;
  lower_bound_loop values value first (S len') with
      (values !!! (first + S len' / 2)%nat <? value) => {
    | true :=
        lower_bound_loop values value (first + S len' / 2 + 1)%nat
                         (S len' - S len' / 2 - 1)%nat;
    | false := lower_bound_loop values value first (S len' / 2)%nat }.
Proof.
  all: change ((Nat.divmod len' 1 0 0).1) with (S len' / 2)%nat;
    pose proof (Nat.div_lt (S len') 2 ltac:(lia) ltac:(lia)); lia.
Qed.

Definition lower_bound (values : list Z) (value : Z) : nat :=
  lower_bound_loop values value 0%nat (length values).

(** Filter.cpp lines 345-352; the result is an [int32_t]. *)
Definition binarySearch (values : list Z) (value : Z) : Z :=
  let it := lower_bound values value in
  if bool_decide (it = length values) || negb (values !!! it =? value)
  then - Z.of_nat it - 1
  else Z.of_nat it.

Module BigintMultiRange.
Record t : Type :=
  mk { ranges_ : list BigintRange.t; lowerBounds_ : list Z;
       nullAllowed_ : bool }.

(** The loop of lines 241-245:
    [lowerBounds_[i] >= ranges_[i - 1]->upper()] for every [i >= 1]. *)
Fixpoint checkNoOverlap (ranges : list BigintRange.t) : bool :=
  match ranges with
  | prev :: (next :: _) as rest =>
      (BigintRange.lower_ next >=? BigintRange.upper_ prev)
      && checkNoOverlap rest
  | _ => true
  end.

(** The constructor, lines 231-246. *)
Definition ctor (ranges : list BigintRange.t) (nullAllowed : bool)
  : Result t :=
  if bool_decide (ranges = []) then Fail (CheckFailed "ranges is empty")
  else if negb (1 <? Z.of_nat (length ranges))
  then Fail (CheckFailed "should contain at least 2 ranges")
  else
    let lowerBounds := BigintRange.lower_ <$> ranges in
    if checkNoOverlap ranges then Ok (mk ranges lowerBounds nullAllowed)
    else Fail (CheckFailed "bigint ranges must not overlap").

(** Filter.cpp lines 370-383. *)
Definition testInt64 (f : t) (value : Z) : bool :=
  let i := binarySearch (lowerBounds_ f) value in
  if 0 <=? i then true
  else
    let place := (- i) - 1 in
    if place =? 0 then false
    else
      match ranges_ f !! Z.to_nat (place - 1) with
      | Some range => BigintRange.testInt64 range value
      | None => false
      end.

(** Filter.cpp lines 385-398. *)
Definition testInt64Range (f : t) (min max : Z) (hasNull : bool) : bool :=
  if hasNull && nullAllowed_ f then true
  else
    existsb (fun range => BigintRange.testInt64Range range min max hasNull)
            (ranges_ f).
End BigintMultiRange.

(** ** BytesRange *)

(** [memcmp(lhs, rhs, size)] on the first [size] bytes, compared as
    [unsigned char].  The C library fixes only the sign of the result; here
    it is the difference of the first pair of bytes that differ. *)
Fixpoint memcmp (lhs rhs : string) (size : nat) : Z :=
  match size, lhs, rhs with
  | S size', String a lhs', String b rhs' =>
      if Ascii.eqb a b then memcmp lhs' rhs' size'
      else Z.of_N (Ascii.N_of_ascii a) - Z.of_N (Ascii.N_of_ascii b)
  | _, _, _ => 0
  end.

(** Conversion to [int]. *)
Definition toInt32 (z : Z) : Z := (z + 2 ^ 31) mod 2 ^ 32 - 2 ^ 31.

(** [compareRanges(lhs, length, rhs)], lines 249-256; [lhs] is the string of
    the [length] bytes at the pointer. *)
Definition compareRanges (lhs : string) (rhs : string) : Z :=
  let length := Z.of_nat (String.length lhs) in
  let size := toInt32 (Z.min length (Z.of_nat (String.length rhs))) in
  let compare := memcmp lhs rhs (Z.to_nat size) in
  if negb (compare =? 0) then compare
  else toInt32 (toUint64 (length - Z.of_nat (String.length rhs))).

Module BytesRange.
Record t : Type :=
  mk { lower_ : string; upper_ : string;
       lowerUnbounded_ : bool; lowerExclusive_ : bool;
       upperUnbounded_ : bool; upperExclusive_ : bool;
       singleValue_ : bool; nullAllowed_ : bool }.

(** [BytesRange::testBytes], lines 259-277. *)
Definition testBytes (f : t) (value : string) : bool :=
  let length := Z.of_nat (String.length value) in
  if singleValue_ f then
    if negb (length =? Z.of_nat (String.length (lower_ f))) then false
    else memcmp value (lower_ f) (Z.to_nat length) =? 0
  else
    let belowLower :=
      if negb (lowerUnbounded_ f) then
        let compare := compareRanges value (lower_ f) in
        (compare <? 0) || (lowerExclusive_ f && (compare =? 0))
      else false in
    if belowLower then false
    else if negb (upperUnbounded_ f) then
      let compare := compareRanges value (upper_ f) in
      (compare <? 0) || (negb (upperExclusive_ f) && (compare =? 0))
    else true.

(** [o.has_value() && p(o.value())] on a [std::optional]. *)
Definition hasValueAnd (o : option string) (p : string -> bool) : bool :=
  match o with
  | Some s => p s
  | None => false
  end.

(** [BytesRange::testBytesRange], lines 279-315; an absent bound of the
    summary is [None]. *)
Definition testBytesRange (f : t) (min max : option string) (hasNull : bool)
  : bool :=
  if hasNull && nullAllowed_ f then true
  else if hasValueAnd min (fun lo => hasValueAnd max (String.eqb lo))
  then hasValueAnd min (testBytes f)
  else if lowerUnbounded_ f
  then hasValueAnd min (fun lo => compareRanges lo (upper_ f) <? 0)
  else if upperUnbounded_ f
  then hasValueAnd max (fun hi => compareRanges hi (lower_ f) >? 0)
  else if hasValueAnd min (fun lo => compareRanges lo (upper_ f) >? 0)
  then false
  else if hasValueAnd max (fun hi => compareRanges hi (lower_ f) <? 0)
  then false
  else true.
End BytesRange.

(** ** MultiRange: the tests on floating-point values *)

Module MultiRange.
(** A child of a [MultiRange] as [testDouble] and [testFloat] see it: the
    two virtual methods they call.  The classes of the children define
    them in Filter.h; a call returns a [bool] or ends in an exception.  A
    [double] or [float] argument is an IEEE 754 value, of which only the
    NaN class matters here. *)
Module Child.
Record t : Type :=
  mk { testDouble : spec_float -> Result bool;
       testFloat : spec_float -> Result bool }.
End Child.

Record t : Type :=
  mk { filters_ : list Child.t; nullAllowed_ : bool; nanAllowed_ : bool }.

(** [std::isnan(value)]. *)
Definition isnan (value : spec_float) : bool :=
  match value with
  | S754_nan => true
  | _ => false
  end.

(** [for (const auto& filter : filters_) if (test(filter)) return true;
     return false;] *)
Fixpoint anyOf (test : Child.t -> Result bool) (filters : list Child.t)
  : Result bool :=
  match filters with
  | [] => Ok false
  | filter :: rest =>
      accepted ← test filter;
      if accepted : bool then Ok true else anyOf test rest
  end.

(** [MultiRange::testDouble], lines 416-426. *)
Definition testDouble (f : t) (value : spec_float) : Result bool :=
  if isnan value then Ok (nanAllowed_ f)
  else anyOf (fun filter => Child.testDouble filter value) (filters_ f).

(** [MultiRange::testFloat], lines 428-438. *)
Definition testFloat (f : t) (value : spec_float) : Result bool :=
  if isnan value then Ok (nanAllowed_ f)
  else anyOf (fun filter => Child.testFloat filter value) (filters_ f).
End MultiRange.

(** ** The filters of the integer family *)

(** The classes derived from [Filter] whose [mergeWith] is defined in
    Filter.cpp or reached from it on integer columns.  The base-class member
    [nullAllowed_] is kept in each variant's record; the four constant
    filters carry no data ([AlwaysTrue] and [IsNull] accept null,
    [AlwaysFalse] and [IsNotNull] reject it). *)
Inductive Filter : Type :=
| AlwaysFalse
| AlwaysTrue
| IsNull
| IsNotNull
| OfBoolValue (f : BoolValue.t)
| OfBigintRange (f : BigintRange.t)
| OfBigintValuesUsingHashTable (f : BigintValuesUsingHashTable.t)
| OfBigintValuesUsingBitmask (f : BigintValuesUsingBitmask.t)
| OfBigintMultiRange (f : BigintMultiRange.t).

Definition kind (f : Filter) : FilterKind :=
  match f with
  | AlwaysFalse => kAlwaysFalse
  | AlwaysTrue => kAlwaysTrue
  | IsNull => kIsNull
  | IsNotNull => kIsNotNull
  | OfBoolValue _ => kBoolValue
  | OfBigintRange _ => kBigintRange
  | OfBigintValuesUsingHashTable _ => kBigintValuesUsingHashTable
  | OfBigintValuesUsingBitmask _ => kBigintValuesUsingBitmask
  | OfBigintMultiRange _ => kBigintMultiRange
  end.

(** Modelled from the spec: [Filter::testNull] is defined in Filter.h, which
    is not among the sources; "testNull() returns nullAllowed", "nullAllowed
    is true for AlwaysTrue, false for AlwaysFalse", "IsNotNull counts as
    nullAllowed=false, IsNull accepts only nulls". *)
Definition testNull (f : Filter) : bool :=
  match f with
  | AlwaysFalse => false
  | AlwaysTrue => true
  | IsNull => true
  | IsNotNull => false
  | OfBoolValue b => BoolValue.nullAllowed_ b
  | OfBigintRange r => BigintRange.nullAllowed_ r
  | OfBigintValuesUsingHashTable h => BigintValuesUsingHashTable.nullAllowed_ h
  | OfBigintValuesUsingBitmask b => BigintValuesUsingBitmask.nullAllowed_ b
  | OfBigintMultiRange m => BigintMultiRange.nullAllowed_ m
  end.

(** Modelled from the spec: [testBool] of the classes other than [BoolValue]
    is defined in Filter.h; the constants answer by their name and "variants
    that do not apply to a type return false". *)
Definition testBool (f : Filter) (value : bool) : bool :=
  match f with
  | AlwaysTrue | IsNotNull => true
  | OfBoolValue b => BoolValue.testBool b value
  | _ => false
  end.

(** [std::unique_ptr<Filter> nullOrFalse(bool nullAllowed)], lines 184-190. *)
Definition nullOrFalse (nullAllowed : bool) : Filter :=
  if nullAllowed then IsNull else AlwaysFalse.

(** Modelled from the spec: [clone] of every class but [BigintMultiRange] is
    defined in Filter.h; "cloning is explicit and deep",
    "clone(nullAllowedOverride?) is a deep copy, optionally replacing the null
    bit".  [BigintMultiRange::clone] is lines 355-368 and goes through the
    constructor. *)
Definition clone (f : Filter) (nullAllowed : option bool) : Result Filter :=
  match f with
  | AlwaysFalse => Ok AlwaysFalse
  | AlwaysTrue => Ok AlwaysTrue
  | IsNull => Ok IsNull
  | IsNotNull => Ok IsNotNull
  | OfBoolValue b =>
      Ok (OfBoolValue
            (BoolValue.mk (BoolValue.value_ b)
               (default (BoolValue.nullAllowed_ b) nullAllowed)))
  | OfBigintRange r =>
      Ok (OfBigintRange
            (BigintRange.mk (BigintRange.lower_ r) (BigintRange.upper_ r)
               (default (BigintRange.nullAllowed_ r) nullAllowed)))
  | OfBigintValuesUsingHashTable h =>
      Ok (OfBigintValuesUsingHashTable
            (BigintValuesUsingHashTable.mk
               (BigintValuesUsingHashTable.min_ h)
               (BigintValuesUsingHashTable.max_ h)
               (BigintValuesUsingHashTable.hashTable_ h)
               (BigintValuesUsingHashTable.containsEmptyMarker_ h)
               (default (BigintValuesUsingHashTable.nullAllowed_ h) nullAllowed)))
  | OfBigintValuesUsingBitmask b =>
      Ok (OfBigintValuesUsingBitmask
            (BigintValuesUsingBitmask.mk
               (BigintValuesUsingBitmask.bitmask_ b)
               (BigintValuesUsingBitmask.min_ b)
               (BigintValuesUsingBitmask.max_ b)
               (default (BigintValuesUsingBitmask.nullAllowed_ b) nullAllowed)))
  | OfBigintMultiRange m =>
      OfBigintMultiRange <$>
        BigintMultiRange.ctor (BigintMultiRange.ranges_ m)
          (default (BigintMultiRange.nullAllowed_ m) nullAllowed)
  end.

(** The loop [for (auto i = min; i <= max; ++i)] over [int64_t]: the values
    of [i] on which the body runs.  With [max] the largest [int64_t] the
    increment leaves the type and the condition never fails. *)
Definition int64Loop (min max : Z) : Result (list Z) :=
  if max <? min then Ok []
  else if max =? kInt64Max then Fail Undefined
  else Ok (seqZ min (max - min + 1)).

(** The loop of lines 204-212 of [createBigintValues], started at
    [min = max = values[0]] and run over [values[1..]]. *)
Fixpoint minMaxLoop (values : list Z) (min max : Z) : Z * Z :=
  match values with
  | [] => (min, max)
  | value :: rest =>
      if value >? max then minMaxLoop rest min value
      else if value <? min then minMaxLoop rest value max
      else minMaxLoop rest min max
  end.

(** [combineBigintRanges] takes the ranges that survived a merge; lines
    574-587. *)
Definition combineBigintRanges (ranges : list BigintRange.t)
                               (nullAllowed : bool) : Result Filter :=
  match ranges with
  | [] => Ok (nullOrFalse nullAllowed)
  | [front] =>
      Ok (OfBigintRange
            (BigintRange.mk (BigintRange.lower_ front)
               (BigintRange.upper_ front) nullAllowed))
  | _ => OfBigintMultiRange <$> BigintMultiRange.ctor ranges nullAllowed
  end.

(** [BigintRange::mergeWith], case [kBigintRange], lines 603-616. *)
Definition BigintRange_mergeWith_BigintRange (this other : BigintRange.t)
  : Filter :=
  let bothNullAllowed :=
    BigintRange.nullAllowed_ this && BigintRange.nullAllowed_ other in
  let lower := std_max (BigintRange.lower_ this) (BigintRange.lower_ other) in
  let upper := std_min (BigintRange.upper_ this) (BigintRange.upper_ other) in
  if lower <=? upper
  then OfBigintRange (BigintRange.mk lower upper bothNullAllowed)
  else nullOrFalse bothNullAllowed.

(** The loop of lines 623-630: [this->mergeWith(range.get())] for every
    child of the other multi-range. *)
Fixpoint BigintRange_mergeRanges (this : BigintRange.t)
    (ranges : list BigintRange.t) : Result (list BigintRange.t) :=
  match ranges with
  | [] => Ok []
  | range :: rest =>
      match BigintRange_mergeWith_BigintRange this range with
      | OfBigintRange merged =>
          newRanges ← BigintRange_mergeRanges this rest;
          Ok (merged :: newRanges)
      | AlwaysFalse => BigintRange_mergeRanges this rest
      | _ => Fail (CheckFailed "")
      end
  end.

Section Algebra.
(** [BigintValuesUsingHashTable::kEmptyMarker] and
    [BigintValuesUsingHashTable::M], declared in Filter.h. *)
Variable kEmptyMarker : Z.
Variable M : Z.

(** The virtual call [filter->testInt64(value)].

    Modelled from the spec: [testInt64] of the constant filters and of
    [BoolValue] is defined in Filter.h, which is not among the sources; the
    constants answer by their name ([IsNull] accepts only nulls,
    [IsNotNull] every value) and "variants that do not apply to a type
    return false". *)
Definition testInt64 (f : Filter) (value : Z) : bool :=
  match f with
  | AlwaysFalse => false
  | AlwaysTrue => true
  | IsNull => false
  | IsNotNull => true
  | OfBoolValue _ => false
  | OfBigintRange r => BigintRange.testInt64 r value
  | OfBigintValuesUsingHashTable h =>
      BigintValuesUsingHashTable.testInt64 kEmptyMarker M h value
  | OfBigintValuesUsingBitmask b => BigintValuesUsingBitmask.testInt64 b value
  | OfBigintMultiRange m => BigintMultiRange.testInt64 m value
  end.

(** [createBigintValues], lines 192-229.  [values.size()] is a [size_t],
    so the two comparisons of [range] with it are unsigned. *)
Definition createBigintValues (values : list Z) (nullAllowed : bool)
  : Result Filter :=
  match values with
  | [] => Ok (nullOrFalse nullAllowed)
  | [front] => Ok (OfBigintRange (BigintRange.mk front front nullAllowed))
  | front :: rest =>
      let size := Z.of_nat (length values) in
      let '(min, max) := minMaxLoop rest front front in
      let '(overflow, range) := sub_overflow max min in
      if negb overflow && (toUint64 (toInt64 (range + 1)) =? size)
      then Ok (OfBigintRange (BigintRange.mk min max nullAllowed))
      else if negb overflow
              && ((range <? 32 * 64)
                  || (toUint64 range <? toUint64 (size * 4 * 64)))
      then OfBigintValuesUsingBitmask <$>
             BigintValuesUsingBitmask.ctor min max values nullAllowed
      else OfBigintValuesUsingHashTable <$>
             BigintValuesUsingHashTable.ctor kEmptyMarker M
               min max values nullAllowed
  end.

(** *** mergeWith of the constant filters *)

(** Modelled from the spec: [AlwaysFalse::mergeWith] is defined in
    Filter.h; "AlwaysFalse and x is AlwaysFalse". *)
Definition AlwaysFalse_mergeWith (other : Filter) : Result Filter :=
  Ok AlwaysFalse.

(** Modelled from the spec: [AlwaysTrue::mergeWith] is defined in
    Filter.h; "AlwaysTrue and x is x (with null intersected)". *)
Definition AlwaysTrue_mergeWith (other : Filter) : Result Filter :=
  clone other None.

(** [IsNull::mergeWith], lines 529-537 (every filter here is
    deterministic). *)
Definition IsNull_mergeWith (other : Filter) : Result Filter :=
  if testNull other then clone IsNull None else Ok AlwaysFalse.

(** [BoolValue::mergeWith], lines 552-571. *)
Definition BoolValue_mergeWith (this : BoolValue.t) (other : Filter)
  : Result Filter :=
  match other with
  | AlwaysTrue => AlwaysTrue_mergeWith (OfBoolValue this)
  | AlwaysFalse => AlwaysFalse_mergeWith (OfBoolValue this)
  | IsNull => IsNull_mergeWith (OfBoolValue this)
  | IsNotNull => Ok (OfBoolValue (BoolValue.mk (BoolValue.value_ this) false))
  | OfBoolValue _ =>
      let bothNullAllowed := BoolValue.nullAllowed_ this && testNull other in
      if testBool other (BoolValue.value_ this)
      then Ok (OfBoolValue
                 (BoolValue.mk (BoolValue.value_ this) bothNullAllowed))
      else Ok (nullOrFalse bothNullAllowed)
  | _ => Fail Unreachable
  end.

(** *** mergeWith of BigintValuesUsingBitmask *)

(** The loop body of lines 766-770 and 788-792: the values [i] of the
    loop with [bitmask_[i - min_] && other->testInt64(i)]. *)
Definition BigintValuesUsingBitmask_keep
    (this : BigintValuesUsingBitmask.t) (test : Z -> bool)
    (min max : Z) : Result (list Z) :=
  indices ← int64Loop min max;
  Ok (List.filter
        (fun i =>
           (BigintValuesUsingBitmask.bitmask_ this
              !!! Z.to_nat (i - BigintValuesUsingBitmask.min_ this))
           && test i)
        indices).

(** [BigintValuesUsingBitmask::mergeWith(min, max, other)],
    lines 781-794. *)
Definition BigintValuesUsingBitmask_mergeWith_range
    (this : BigintValuesUsingBitmask.t) (min max : Z) (other : Filter)
  : Result Filter :=
  let bothNullAllowed :=
    BigintValuesUsingBitmask.nullAllowed_ this && testNull other in
  valuesToKeep ←
    BigintValuesUsingBitmask_keep this (testInt64 other) min max;
  createBigintValues valuesToKeep bothNullAllowed.

(** The loop of lines 763-771 over the children of a multi-range. *)
Fixpoint BigintValuesUsingBitmask_keepRanges
    (this : BigintValuesUsingBitmask.t) (ranges : list BigintRange.t)
  : Result (list Z) :=
  match ranges with
  | [] => Ok []
  | range :: rest =>
      let min := std_max (BigintValuesUsingBitmask.min_ this)
                         (BigintRange.lower_ range) in
      let max := std_min (BigintValuesUsingBitmask.max_ this)
                         (BigintRange.upper_ range) in
      kept ← BigintValuesUsingBitmask_keep this
               (BigintRange.testInt64 range) min max;
      keptRest ← BigintValuesUsingBitmask_keepRanges this rest;
      Ok (kept ++ keptRest)
  end.

(** [BigintValuesUsingBitmask::mergeWith(other)], lines 726-779. *)
Definition BigintValuesUsingBitmask_mergeWith
    (this : BigintValuesUsingBitmask.t) (other : Filter) : Result Filter :=
  let min_ := BigintValuesUsingBitmask.min_ this in
  let max_ := BigintValuesUsingBitmask.max_ this in
  match other with
  | AlwaysTrue => AlwaysTrue_mergeWith (OfBigintValuesUsingBitmask this)
  | AlwaysFalse => AlwaysFalse_mergeWith (OfBigintValuesUsingBitmask this)
  | IsNull => IsNull_mergeWith (OfBigintValuesUsingBitmask this)
  | IsNotNull =>
      Ok (OfBigintValuesUsingBitmask
            (BigintValuesUsingBitmask.mk
               (BigintValuesUsingBitmask.bitmask_ this) min_ max_ false))
  | OfBigintRange otherRange =>
      let min := std_max min_ (BigintRange.lower_ otherRange) in
      let max := std_min max_ (BigintRange.upper_ otherRange) in
      BigintValuesUsingBitmask_mergeWith_range this min max other
  | OfBigintValuesUsingHashTable otherValues =>
      let min := std_max min_ (BigintValuesUsingHashTable.min_ otherValues) in
      let max := std_min max_ (BigintValuesUsingHashTable.max_ otherValues) in
      BigintValuesUsingBitmask_mergeWith_range this min max other
  | OfBigintValuesUsingBitmask otherValues =>
      let min := std_max min_ (BigintValuesUsingBitmask.min_ otherValues) in
      let max := std_min max_ (BigintValuesUsingBitmask.max_ otherValues) in
      BigintValuesUsingBitmask_mergeWith_range this min max other
  | OfBigintMultiRange otherMultiRange =>
      valuesToKeep ←
        BigintValuesUsingBitmask_keepRanges this
          (BigintMultiRange.ranges_ otherMultiRange);
      let bothNullAllowed :=
        BigintValuesUsingBitmask.nullAllowed_ this && testNull other in
      createBigintValues valuesToKeep bothNullAllowed
  | OfBoolValue _ => Fail Unreachable
  end.

(** *** mergeWith of BigintValuesUsingHashTable *)

(** [for (int64_t v : hashTable_) if (v != kEmptyMarker && test(v))
      valuesToKeep.emplace_back(v);] *)
Definition BigintValuesUsingHashTable_keep
    (this : BigintValuesUsingHashTable.t) (test : Z -> bool) : list Z :=
  List.filter (fun v => negb (v =? kEmptyMarker) && test v)
              (BigintValuesUsingHashTable.hashTable_ this).

(** [if (containsEmptyMarker_ && other->testInt64(kEmptyMarker))
      valuesToKeep.emplace_back(kEmptyMarker);] *)
Definition BigintValuesUsingHashTable_keepMarker
    (this : BigintValuesUsingHashTable.t) (other : Filter) : list Z :=
  if BigintValuesUsingHashTable.containsEmptyMarker_ this
     && testInt64 other kEmptyMarker
  then [kEmptyMarker] else [].

(** [BigintValuesUsingHashTable::mergeWith(min, max, other)],
    lines 693-724.  [reserve(max - min + 1)] sets the capacity of the vector
    and is taken to succeed; the call throws where the span exceeds the
    largest size of a vector. *)
Definition BigintValuesUsingHashTable_mergeWith_range
    (this : BigintValuesUsingHashTable.t) (min max : Z) (other : Filter)
  : Result Filter :=
  let bothNullAllowed :=
    BigintValuesUsingHashTable.nullAllowed_ this && testNull other in
  if max <? min then Ok (nullOrFalse bothNullAllowed)
  else if max =? min then
    if BigintValuesUsingHashTable.testInt64 kEmptyMarker M this min
       && testInt64 other min
    then Ok (OfBigintRange (BigintRange.mk min min bothNullAllowed))
    else Ok (nullOrFalse bothNullAllowed)
  else
    let valuesToKeep :=
      BigintValuesUsingHashTable_keepMarker this other
      ++ BigintValuesUsingHashTable_keep this (testInt64 other) in
    createBigintValues valuesToKeep bothNullAllowed.

(** The loop of lines 672-683 over the children of a multi-range. *)
Fixpoint BigintValuesUsingHashTable_keepRanges
    (this : BigintValuesUsingHashTable.t) (ranges : list BigintRange.t)
  : list Z :=
  match ranges with
  | [] => []
  | range :: rest =>
      let min := std_max (BigintValuesUsingHashTable.min_ this)
                         (BigintRange.lower_ range) in
      let max := std_min (BigintValuesUsingHashTable.max_ this)
                         (BigintRange.upper_ range) in
      (if min <=? max
       then BigintValuesUsingHashTable_keep this
              (BigintRange.testInt64 range)
       else [])
      ++ BigintValuesUsingHashTable_keepRanges this rest
  end.

(** [BigintValuesUsingHashTable::mergeWith(other)], lines 640-691. *)
Definition BigintValuesUsingHashTable_mergeWith
    (this : BigintValuesUsingHashTable.t) (other : Filter) : Result Filter :=
  let min_ := BigintValuesUsingHashTable.min_ this in
  let max_ := BigintValuesUsingHashTable.max_ this in
  match other with
  | AlwaysTrue => AlwaysTrue_mergeWith (OfBigintValuesUsingHashTable this)
  | AlwaysFalse => AlwaysFalse_mergeWith (OfBigintValuesUsingHashTable this)
  | IsNull => IsNull_mergeWith (OfBigintValuesUsingHashTable this)
  | IsNotNull =>
      Ok (OfBigintValuesUsingHashTable
            (BigintValuesUsingHashTable.mk min_ max_
               (BigintValuesUsingHashTable.hashTable_ this)
               (BigintValuesUsingHashTable.containsEmptyMarker_ this)
               false))
  | OfBigintRange otherRange =>
      let min := std_max min_ (BigintRange.lower_ otherRange) in
      let max := std_min max_ (BigintRange.upper_ otherRange) in
      BigintValuesUsingHashTable_mergeWith_range this min max other
  | OfBigintValuesUsingHashTable otherValues =>
      let min := std_max min_ (BigintValuesUsingHashTable.min_ otherValues) in
      let max := std_min max_ (BigintValuesUsingHashTable.max_ otherValues) in
      BigintValuesUsingHashTable_mergeWith_range this min max other
  | OfBigintValuesUsingBitmask otherValues =>
      BigintValuesUsingBitmask_mergeWith otherValues
        (OfBigintValuesUsingHashTable this)
  | OfBigintMultiRange otherMultiRange =>
      let valuesToKeep :=
        BigintValuesUsingHashTable_keepMarker this other
        ++ BigintValuesUsingHashTable_keepRanges this
             (BigintMultiRange.ranges_ otherMultiRange) in
      let bothNullAllowed :=
        BigintValuesUsingHashTable.nullAllowed_ this && testNull other in
      createBigintValues valuesToKeep bothNullAllowed
  | OfBoolValue _ => Fail Unreachable
  end.

(** *** mergeWith of BigintRange *)

(** [BigintRange::mergeWith], lines 595-638. *)
Definition BigintRange_mergeWith (this : BigintRange.t) (other : Filter)
  : Result Filter :=
  match other with
  | AlwaysTrue => AlwaysTrue_mergeWith (OfBigintRange this)
  | AlwaysFalse => AlwaysFalse_mergeWith (OfBigintRange this)
  | IsNull => IsNull_mergeWith (OfBigintRange this)
  | IsNotNull =>
      Ok (OfBigintRange
            (BigintRange.mk (BigintRange.lower_ this)
               (BigintRange.upper_ this) false))
  | OfBigintRange otherRange =>
      Ok (BigintRange_mergeWith_BigintRange this otherRange)
  | OfBigintValuesUsingBitmask otherValues =>
      BigintValuesUsingBitmask_mergeWith otherValues (OfBigintRange this)
  | OfBigintValuesUsingHashTable otherValues =>
      BigintValuesUsingHashTable_mergeWith otherValues (OfBigintRange this)
  | OfBigintMultiRange otherMultiRange =>
      newRanges ←
        BigintRange_mergeRanges this
          (BigintMultiRange.ranges_ otherMultiRange);
      let bothNullAllowed :=
        BigintRange.nullAllowed_ this && testNull other in
      combineBigintRanges newRanges bothNullAllowed
  | OfBoolValue _ => Fail Unreachable
  end.

(** *** mergeWith of BigintMultiRange *)

(** The loop of lines 817-829: [range->mergeWith(other)] for every child
    of this multi-range. *)
Fixpoint BigintMultiRange_mergeRanges (ranges : list BigintRange.t)
    (other : Filter) : Result (list BigintRange.t) :=
  match ranges with
  | [] => Ok []
  | range :: rest =>
      merged ← BigintRange_mergeWith range other;
      pushed ←
        match merged with
        | OfBigintRange r => Ok [r]
        | OfBigintMultiRange mergedMultiRange =>
            Ok (BigintMultiRange.ranges_ mergedMultiRange)
        | AlwaysFalse => Ok []
        | _ => Fail (CheckFailed "")
        end;
      newRanges ← BigintMultiRange_mergeRanges rest other;
      Ok (pushed ++ newRanges)
  end.

(** [BigintMultiRange::mergeWith], lines 796-849. *)
Definition BigintMultiRange_mergeWith (this : BigintMultiRange.t)
    (other : Filter) : Result Filter :=
  match other with
  | AlwaysTrue => AlwaysTrue_mergeWith (OfBigintMultiRange this)
  | AlwaysFalse => AlwaysFalse_mergeWith (OfBigintMultiRange this)
  | IsNull => IsNull_mergeWith (OfBigintMultiRange this)
  | IsNotNull =>
      OfBigintMultiRange <$>
        BigintMultiRange.ctor (BigintMultiRange.ranges_ this) false
  | OfBigintRange otherRange =>
      BigintRange_mergeWith otherRange (OfBigintMultiRange this)
  | OfBigintValuesUsingBitmask otherValues =>
      BigintValuesUsingBitmask_mergeWith otherValues
        (OfBigintMultiRange this)
  | OfBigintValuesUsingHashTable otherValues =>
      BigintValuesUsingHashTable_mergeWith otherValues
        (OfBigintMultiRange this)
  | OfBigintMultiRange _ =>
      newRanges ←
        BigintMultiRange_mergeRanges (BigintMultiRange.ranges_ this) other;
      let bothNullAllowed :=
        BigintMultiRange.nullAllowed_ this && testNull other in
      match newRanges with
      | [] => Ok (nullOrFalse bothNullAllowed)
      | [front] =>
          Ok (OfBigintRange
                (BigintRange.mk (BigintRange.lower_ front)
                   (BigintRange.upper_ front) bothNullAllowed))
      | _ =>
          OfBigintMultiRange <$>
            BigintMultiRange.ctor newRanges bothNullAllowed
      end
  | OfBoolValue _ => Fail Unreachable
  end.

(** *** mergeWith of IsNotNull, and the virtual call *)

(** [IsNotNull::mergeWith], lines 539-550; the default case is
    [other->mergeWith(this)]. *)
Definition IsNotNull_mergeWith (other : Filter) : Result Filter :=
  match other with
  | AlwaysTrue | IsNotNull => clone IsNotNull None
  | AlwaysFalse | IsNull => Ok AlwaysFalse
  | OfBoolValue b => BoolValue_mergeWith b IsNotNull
  | OfBigintRange r => BigintRange_mergeWith r IsNotNull
  | OfBigintValuesUsingHashTable h =>
      BigintValuesUsingHashTable_mergeWith h IsNotNull
  | OfBigintValuesUsingBitmask b =>
      BigintValuesUsingBitmask_mergeWith b IsNotNull
  | OfBigintMultiRange m => BigintMultiRange_mergeWith m IsNotNull
  end.

(** [a->mergeWith(b)], dispatched on the class of [a]. *)
Definition mergeWith (a b : Filter) : Result Filter :=
  match a with
  | AlwaysFalse => AlwaysFalse_mergeWith b
  | AlwaysTrue => AlwaysTrue_mergeWith b
  | IsNull => IsNull_mergeWith b
  | IsNotNull => IsNotNull_mergeWith b
  | OfBoolValue this => BoolValue_mergeWith this b
  | OfBigintRange this => BigintRange_mergeWith this b
  | OfBigintValuesUsingHashTable this =>
      BigintValuesUsingHashTable_mergeWith this b
  | OfBigintValuesUsingBitmask this =>
      BigintValuesUsingBitmask_mergeWith this b
  | OfBigintMultiRange this => BigintMultiRange_mergeWith this b
  end.
End Algebra.

(** ** Predicates of the statements *)

(** A vector sorted in non-decreasing order, as [std::lower_bound]
    requires. *)
Definition sortedZ (values : list Z) : Prop :=
  forall (i j : nat) (x y : Z),
    (i <= j)%nat -> values !! i = Some x -> values !! j = Some y -> x <= y.

(** The result of [BigintMultiRange::testInt64] read off the insertion
    position [insert] of [v] among the lower bounds. *)
Definition searchOutcome (ranges : list BigintRange.t) (insert : nat) (v : Z)
  : bool :=
  if bool_decide (BigintRange.lower_ <$> ranges !! insert = Some v) then true
  else
    match insert with
    | O => false
    | S before =>
        match ranges !! before with
        | Some child => BigintRange.testInt64 child v
        | None => false
        end
    end.

(** The extremes of the non-empty vector [front :: rest]. *)
Definition vectorMin (front : Z) (rest : list Z) : Z := foldl Z.min front rest.
Definition vectorMax (front : Z) (rest : list Z) : Z := foldl Z.max front rest.

(** The representation that steps 3 to 6 of the factory choose for a vector
    of [n] values with extremes [min] and [max], in the words of the
    specification: [range = max - min] overflows when it is not an
    [int64_t]; a contiguous vector becomes a range; a dense one a bitmask;
    any other a hash table. *)
Inductive Representation : Type :=
| ChooseBigintRange
| ChooseBitmask
| ChooseHashTable.

Definition chooseRepresentation (min max n : Z) : Representation :=
  let range := max - min in
  let overflow := negb (isInt64 range) in
  if negb overflow && (range + 1 =? n) then ChooseBigintRange
  else if negb overflow && ((range <? 32 * 64) || (range <? n * 4 * 64))
  then ChooseBitmask
  else ChooseHashTable.

(** The accepted set of a test on integers is a contiguous range. *)
Definition contiguous (test : Z -> bool) : Prop :=
  exists lo hi : Z, forall v : Z, test v = true <-> lo <= v <= hi.

(** The values a hash-table filter stores in its table. *)
Definition storedValues (kEmptyMarker : Z) (h : BigintValuesUsingHashTable.t)
  : list Z :=
  List.filter (fun v => negb (v =? kEmptyMarker))
              (BigintValuesUsingHashTable.hashTable_ h).

(** Children in increasing order that do not touch: each ends before every
    later one starts. *)
Definition disjointRanges (ranges : list BigintRange.t) : Prop :=
  forall (i j : nat) (ri rj : BigintRange.t),
    (i < j)%nat -> ranges !! i = Some ri -> ranges !! j = Some rj ->
    BigintRange.upper_ ri < BigintRange.lower_ rj.

(** The simplest representative: no multi-range of a single child, no
    bitmask over a contiguous set. *)
Definition normalised (f : Filter) : Prop :=
  match f with
  | OfBigintMultiRange m => length (BigintMultiRange.ranges_ m) <> 1%nat
  | OfBigintValuesUsingBitmask b =>
      ~ contiguous (BigintValuesUsingBitmask.testInt64 b)
  | _ => True
  end.

(** An operand of [mergeWith] that is itself normalised, stores each value
    of a hash table once and keeps the children of a multi-range apart. *)
Definition normalisedOperand (kEmptyMarker : Z) (f : Filter) : Prop :=
  normalised f
  /\ match f with
     | OfBigintValuesUsingHashTable h => NoDup (storedValues kEmptyMarker h)
     | OfBigintMultiRange m => disjointRanges (BigintMultiRange.ranges_ m)
     | _ => True
     end.

(** [std::vector<int64_t>::max_size()] on a 64-bit target: no vector of
    [int64_t] holds more elements. *)
Definition kMaxVectorSize : Z := 2 ^ 60 - 1.

(** The slot that the index [i & (size - 1)] names in a table of [size]
    slots, [size] a power of two. *)
Definition slotOf (size i : Z) : nat := Z.to_nat (i mod size).

(** The number of slots of a hash table that hold the empty marker. *)
Definition numEmpty (kEmptyMarker : Z) (hashTable : list Z) : nat :=
  length (filter (fun l => l = kEmptyMarker) hashTable).

(** [x] is stored on its probe path: some slot at distance [j] from the
    hash position of [x] holds [x], and no slot before it on the path is
    empty. *)
Definition onProbePath (kEmptyMarker M size : Z) (hashTable : list Z) (x : Z)
  : Prop :=
  exists j : Z,
    0 <= j < size
    /\ hashTable
         !!! slotOf size (BigintValuesUsingHashTable.hashPosition M size x + j)
       = x
    /\ forall j' : Z,
         0 <= j' < j ->
         hashTable
           !!! slotOf size
                 (BigintValuesUsingHashTable.hashPosition M size x + j')
         <> kEmptyMarker.

(** The invariant of the insertion loop of the hash-table constructor:
    [inserted] lists the values stored so far. *)
Definition tableInv (kEmptyMarker M size : Z) (hashTable inserted : list Z)
  : Prop :=
  length hashTable = Z.to_nat size
  /\ (forall x, x ∈ inserted -> x <> kEmptyMarker)
  /\ (forall x, x ∈ inserted -> onProbePath kEmptyMarker M size hashTable x)
  /\ (forall x, x ∈ hashTable -> x <> kEmptyMarker -> x ∈ inserted)
  /\ (numEmpty kEmptyMarker hashTable + length inserted = Z.to_nat size)%nat.

(** Some child of a list of ranges accepts [x]. *)
Definition inRanges (ranges : list BigintRange.t) (x : Z) : Prop :=
  exists c, c ∈ ranges /\ BigintRange.testInt64 c x = true.

(** A hash-table filter as its constructor leaves it: a table of [2^e]
    slots, [e < 32], that satisfies the invariant for values between [min_]
    and [max_], each stored once; the marker, when it is a value, lies
    between [min_] and [max_] as well. *)
Definition wfHashTable (kEmptyMarker M : Z) (h : BigintValuesUsingHashTable.t)
  : Prop :=
  (exists (e : Z) (inserted : list Z),
     0 <= e < 32
     /\ tableInv kEmptyMarker M (2 ^ e)
          (BigintValuesUsingHashTable.hashTable_ h) inserted
     /\ forall x, x ∈ inserted ->
                  BigintValuesUsingHashTable.min_ h <= x
                  <= BigintValuesUsingHashTable.max_ h)
  /\ (BigintValuesUsingHashTable.containsEmptyMarker_ h = true ->
      BigintValuesUsingHashTable.min_ h <= kEmptyMarker
      <= BigintValuesUsingHashTable.max_ h)
  /\ NoDup (storedValues kEmptyMarker h).

(** An operand of [mergeWith] as the constructors and the factory leave it,
    with the children of a multi-range apart from each other. *)
Definition wfOperand (kEmptyMarker M : Z) (f : Filter) : Prop :=
  match f with
  | OfBigintValuesUsingBitmask b =>
      BigintValuesUsingBitmask.max_ b - BigintValuesUsingBitmask.min_ b
      < kMaxVectorSize
  | OfBigintValuesUsingHashTable h => wfHashTable kEmptyMarker M h
  | OfBigintMultiRange m =>
      BigintMultiRange.lowerBounds_ m
      = BigintRange.lower_ <$> BigintMultiRange.ranges_ m
      /\ BigintMultiRange.checkNoOverlap (BigintMultiRange.ranges_ m) = true
      /\ Forall BigintRange.wf (BigintMultiRange.ranges_ m)
      /\ disjointRanges (BigintMultiRange.ranges_ m)
  | _ => True
  end.

(** [r] accepts the integers that both [a] and [b] accept. *)
Definition conjunctionOf (kEmptyMarker M : Z) (r a b : Filter) : Prop :=
  forall x : Z,
    testInt64 kEmptyMarker M r x
    = testInt64 kEmptyMarker M a x && testInt64 kEmptyMarker M b x.

(** ** Sample data *)

(** An instance of the two constants of Filter.h, used where the model is
    evaluated on concrete filters.  The theorems hold for every value of
    them. *)
Definition sampleEmptyMarker : Z := -2401053089476968723.
Definition sampleM : Z := 14313749767032793493.

(** The bitmask filter over the values 1, 4, 5 and 7. *)
Definition sampleBitmask : BigintValuesUsingBitmask.t :=
  BigintValuesUsingBitmask.mk
    [true; false; false; true; true; false; true] 1 7 false.

(** The multi-range of the two touching ranges [4, 5] and [5, 7]. *)
Definition sampleTouchingRanges : BigintMultiRange.t :=
  BigintMultiRange.mk
    [BigintRange.mk 4 5 false; BigintRange.mk 5 7 false] [4; 5] false.

(** The bitmask filter over the contiguous values 1, 2 and 3. *)
Definition sampleContiguousBitmask : BigintValuesUsingBitmask.t :=
  BigintValuesUsingBitmask.mk [true; true; true] 1 3 true.

(** The byte range "at most m": no lower bound, inclusive upper bound. *)
Definition sampleAtMostM : BytesRange.t :=
  BytesRange.mk "" "m" true false false false false false.

(** A child of a [MultiRange] whose tests end in an exception, and one that
    accepts the zeros only. *)
Definition sampleThrowingChild : MultiRange.Child.t :=
  MultiRange.Child.mk (fun _ => Fail Unreachable) (fun _ => Fail Unreachable).

Definition isZero (value : spec_float) : Result bool :=
  Ok match value with
     | S754_zero _ => true
     | _ => false
     end.

Definition sampleZeroChild : MultiRange.Child.t :=
  MultiRange.Child.mk isZero isZero.

(** A sparse vector, for which the factory chooses a hash table. *)
Definition sampleSparseValues : list Z := [0; 1000000; 2000000].

(** ** Byte strings: the predicates of the statements *)

(** A byte string whose length fits [int], as [compareRanges] takes it. *)
Definition shortBytes (s : string) : Prop :=
  Z.of_nat (String.length s) < 2 ^ 31.

(** [a] is not after [b] in the order of byte strings: byte by byte as
    unsigned values, a proper prefix first. *)
Definition bytesLe (a b : string) : Prop := String.compare a b <> Gt.

(** The summary [(min, max)] of a page covers [value]; an absent bound is
    no bound. *)
Definition summaryCovers (min max : option string) (value : string) : Prop :=
  from_option (fun lo => bytesLe lo value) True min
  /\ from_option (fun hi => bytesLe value hi) True max.

(** [value] lies within the bounds of a [BytesRange], each bound absent,
    inclusive or exclusive. *)
Definition BytesRange_inBounds (f : BytesRange.t) (value : string) : bool :=
  (BytesRange.lowerUnbounded_ f
   || match String.compare value (BytesRange.lower_ f) with
      | Gt => true
      | Eq => negb (BytesRange.lowerExclusive_ f)
      | Lt => false
      end)
  && (BytesRange.upperUnbounded_ f
      || match String.compare value (BytesRange.upper_ f) with
         | Lt => true
         | Eq => negb (BytesRange.upperExclusive_ f)
         | Gt => false
         end).

(** ** Ranges in order *)

(** The children of [ranges] in order, each ending at least [gap] before
    every later one starts: with [gap = 0] what the constructor of
    [BigintMultiRange] checks on ranges [lo <= hi], with [gap = 1] ranges
    that do not touch. *)
Definition rangesApart (gap : Z) (ranges : list BigintRange.t) : Prop :=
  forall (i j : nat) (ri rj : BigintRange.t),
    (i < j)%nat -> ranges !! i = Some ri -> ranges !! j = Some rj ->
    BigintRange.upper_ ri + gap <= BigintRange.lower_ rj.

(** The range [inner] lies within [outer]. *)
Definition withinRange (outer inner : BigintRange.t) : Prop :=
  BigintRange.lower_ outer <= BigintRange.lower_ inner
  /\ BigintRange.upper_ inner <= BigintRange.upper_ outer.

(** The ranges [a] and [b] share an integer. *)
Definition rangesMeet (a b : BigintRange.t) : Prop :=
  Z.max (BigintRange.lower_ a) (BigintRange.lower_ b)
  <= Z.min (BigintRange.upper_ a) (BigintRange.upper_ b).

(** ** Merged value sets *)

(** The values a merge keeps lie between bounds that are close, or are few:
    either way the factory can only choose a bitmask of moderate size. *)
Definition keptBounded (values : list Z) : Prop :=
  (exists lo hi : Z,
     hi - lo < kMaxVectorSize /\ forall x, x ∈ values -> lo <= x <= hi)
  \/ Z.of_nat (length values) <= 2 ^ 31 + 1.

(** ** Filter::toString *)

(** [Filter::toString], lines 20-72: the name of the kind and the two flags
    of the base class, put together by [fmt::format]. *)
Definition toString (kind_ : FilterKind) (deterministic_ nullAllowed_ : bool)
  : string :=
  let strKind :=
    match kind_ with
    | kAlwaysFalse => "AlwaysFalse"
    | kAlwaysTrue => "AlwaysTrue"
    | kIsNull => "IsNull"
    | kIsNotNull => "IsNotNull"
    | kBoolValue => "BoolValue"
    | kBigintRange => "BigintRange"
    | kBigintValuesUsingHashTable => "BigintValuesUsingHashTable"
    | kBigintValuesUsingBitmask => "BigintValuesUsingBitmask"
    | kDoubleRange => "DoubleRange"
    | kFloatRange => "FloatRange"
    | kBytesRange => "BytesRange"
    | kBytesValues => "BytesValues"
    | kBigintMultiRange => "BigintMultiRange"
    | kMultiRange => "MultiRange"
    end%string in
  ("Filter(" ++ strKind ++ ", "
   ++ (if deterministic_ then "deterministic" else "nondeterministic")
   ++ ", "
   ++ (if nullAllowed_ then "null allowed" else "null not allowed")
   ++ ")")%string.

(** ** BytesValues *)

Module BytesValues.
(** The set of byte strings with its cached bounds [lower_] and [upper_],
    which the constructor of Filter.h computes. *)
Record t : Type :=
  mk { values_ : list string; lower_ : string; upper_ : string;
       nullAllowed_ : bool }.

(** Modelled from the spec: [BytesValues::testBytes] is defined in
    Filter.h, which is not among the sources; "explicit set of byte
    strings". *)
Definition testBytes (f : t) (value : string) : bool :=
  existsb (String.eqb value) (values_ f).

(** [BytesValues::testBytesRange], lines 317-343. *)
Definition testBytesRange (f : t) (min max : option string) (hasNull : bool)
  : bool :=
  if hasNull && nullAllowed_ f then true
  else if BytesRange.hasValueAnd min
            (fun lo => BytesRange.hasValueAnd max (String.eqb lo))
  then BytesRange.hasValueAnd min (testBytes f)
  else if BytesRange.hasValueAnd min
            (fun lo => compareRanges lo (upper_ f) >? 0)
  then false
  else if BytesRange.hasValueAnd max
            (fun hi => compareRanges hi (lower_ f) <? 0)
  then false
  else true.

(** Every value lies between the cached bounds, as the specification says
    of them ("lower/upper equal to the min and max of its value set"). *)
Definition boundsCover (f : t) : Prop :=
  forall value, value ∈ values_ f ->
                bytesLe (lower_ f) value /\ bytesLe value (upper_ f).
End BytesValues.

(** ** MultiRange: the tests on byte strings *)

Module MultiRangeOnBytes.
(** A child of a [MultiRange] as [testBytes], [testLength] and
    [testBytesRange] see it: the three virtual methods they call, which the
    classes of the children define in Filter.h; a call returns a [bool] or
    ends in an exception. *)
Module Child.
Record t : Type :=
  mk { testBytes : string -> Result bool;
       testLength : Z -> Result bool;
       testBytesRange :
         option string -> option string -> bool -> Result bool }.
End Child.

Record t : Type := mk { filters_ : list Child.t; nullAllowed_ : bool }.

(** [for (const auto& filter : filters_) if (test(filter)) return true;
     return false;] *)
Fixpoint anyOf (test : Child.t -> Result bool) (filters : list Child.t)
  : Result bool :=
  match filters with
  | [] => Ok false
  | filter :: rest =>
      accepted ← test filter;
      if accepted : bool then Ok true else anyOf test rest
  end.

(** [MultiRange::testBytes], lines 440-447. *)
Definition testBytes (f : t) (value : string) : Result bool :=
  anyOf (fun filter => Child.testBytes filter value) (filters_ f).

(** [MultiRange::testLength], lines 449-456. *)
Definition testLength (f : t) (length : Z) : Result bool :=
  anyOf (fun filter => Child.testLength filter length) (filters_ f).

(** [MultiRange::testBytesRange], lines 458-473. *)
Definition testBytesRange (f : t) (min max : option string) (hasNull : bool)
  : Result bool :=
  if hasNull && nullAllowed_ f then Ok true
  else
    anyOf (fun filter => Child.testBytesRange filter min max hasNull)
          (filters_ f).
End MultiRangeOnBytes.

(** What the loop over the children returned, in terms of the children:
    true when some child accepts and every child before it rejected, false
    when every child rejects. *)
Definition firstAccepting (test : MultiRangeOnBytes.Child.t -> Result bool)
    (filters : list MultiRangeOnBytes.Child.t) (result : Result bool)
  : Prop :=
  (result = Ok true
   <-> exists (i : nat) (child : MultiRangeOnBytes.Child.t),
         filters !! i = Some child /\ test child = Ok true
         /\ forall (j : nat) (earlier : MultiRangeOnBytes.Child.t),
              (j < i)%nat -> filters !! j = Some earlier ->
              test earlier = Ok false)
  /\ (result = Ok false
      <-> forall child, child ∈ filters -> test child = Ok false).

(** A child that accepts the byte strings from [lower] to [upper], the
    summaries that meet them and every length. *)
Definition sampleBytesChild (lower upper : string)
  : MultiRangeOnBytes.Child.t :=
  let f := BytesRange.mk lower upper false false false false false false in
  MultiRangeOnBytes.Child.mk
    (fun value => Ok (BytesRange.testBytes f value))
    (fun _ => Ok true)
    (fun min max hasNull => Ok (BytesRange.testBytesRange f min max hasNull)).

(** ** The classes of the operands of a merge *)

(** The four constant filters. *)
Definition constantFilter (f : Filter) : bool :=
  match f with
  | AlwaysFalse | AlwaysTrue | IsNull | IsNotNull => true
  | _ => false
  end.

(** The four filters on integers. *)
Definition bigintFilter (f : Filter) : bool :=
  match f with
  | OfBigintRange _ | OfBigintValuesUsingHashTable _
  | OfBigintValuesUsingBitmask _ | OfBigintMultiRange _ => true
  | _ => false
  end.

Definition boolFilter (f : Filter) : bool :=
  match f with
  | OfBoolValue _ => true
  | _ => false
  end.

(** ** Sample data (continued) *)

(** The multi-range of the ranges [4, 5] and [7, 9], which are apart. *)
Definition sampleApartRanges : BigintMultiRange.t :=
  BigintMultiRange.mk
    [BigintRange.mk 4 5 false; BigintRange.mk 7 9 false] [4; 7] false.

(** The multi-range of [1, 3] and [7, 9], both accepting null. *)
Definition sampleNullableRanges : BigintMultiRange.t :=
  BigintMultiRange.mk
    [BigintRange.mk 1 3 true; BigintRange.mk 7 9 true] [1; 7] true.

(** The hash table that the constructor builds for the values 1 and 2. *)
Definition sampleSmallTable : BigintValuesUsingHashTable.t :=
  BigintValuesUsingHashTable.mk 1 2
    [sampleEmptyMarker; 1; 2; sampleEmptyMarker] false false.

(** The byte range from "apple" to "mango", both inclusive, and the set of
    the two strings "b" and "d". *)
Definition sampleFruitRange : BytesRange.t :=
  BytesRange.mk "apple" "mango" false false false false false false.

Definition sampleBytesValues : BytesValues.t :=
  BytesValues.mk ["b"; "d"]%string "b" "d" false.

(** The bitmask filter over the largest [int64_t] and the value two below
    it. *)
Definition sampleTopBitmask : BigintValuesUsingBitmask.t :=
  BigintValuesUsingBitmask.mk [true; false; true] (kInt64Max - 2) kInt64Max
    false.

(** The vector of the integers from 0 to 1431655765: the smallest number
    of values, [2^32 / 3] rounded up, for which three times the number of
    values has a base-2 logarithm of 32. *)
Definition sampleLargeVector : list Z := seqZ 0 1431655766.
(** ** Facts on the integer helpers *)

Lemma std_max_spec a b : std_max a b = Z.max a b.
Proof. unfold std_max. destruct (Z.ltb_spec a b); lia. Qed.

Lemma std_min_spec a b : std_min a b = Z.min a b.
Proof. unfold std_min. destruct (Z.ltb_spec b a); lia. Qed.

Lemma isInt64_spec z : isInt64 z = true <-> int64 z.
Proof. unfold isInt64, int64. rewrite andb_true_iff, !Z.leb_le. tauto. Qed.

Lemma toInt64_id z : int64 z -> toInt64 z = z.
Proof.
  unfold int64, kInt64Min, kInt64Max, toInt64. intros H.
  rewrite Z.mod_small; lia.
Qed.

Lemma toUint64_id z : 0 <= z < 2 ^ 64 -> toUint64 z = z.
Proof. intros H. unfold toUint64. rewrite Z.mod_small; lia. Qed.

Lemma toUint32_id z : 0 <= z < 2 ^ 32 -> toUint32 z = z.
Proof. intros H. unfold toUint32. rewrite Z.mod_small; lia. Qed.

Lemma sub_overflow_int64 a b :
  int64 (a - b) -> sub_overflow a b = (false, a - b).
Proof.
  intros H. unfold sub_overflow.
  rewrite (proj2 (isInt64_spec _) H), toInt64_id by exact H. reflexivity.
Qed.

Lemma sub_overflow_flag a b :
  (sub_overflow a b).1 = false <-> int64 (a - b).
Proof.
  unfold sub_overflow. cbn. rewrite negb_false_iff. apply isInt64_spec.
Qed.

(** ** MultiRange: NaN before the children *)

Lemma MultiRange_anyOf_total (test : MultiRange.Child.t -> Result bool)
    (filters : list MultiRange.Child.t) :
  Forall (fun filter => returns (test filter)) filters ->
  exists accepted,
    MultiRange.anyOf test filters = Ok accepted
    /\ (accepted = true <-> Exists (fun filter => test filter = Ok true) filters).
Proof.
  induction 1 as [|filter rest [b Hb] _ IH]; cbn.
  - exists false. split; [reflexivity |]. split; [discriminate |].
    intros H. inversion H.
  - rewrite Hb. cbn. destruct b.
    + exists true. split; [reflexivity |]. split; [| reflexivity].
      intros _. left. exact Hb.
    + destruct IH as (accepted & Hacc & Hiff). exists accepted.
      split; [exact Hacc |]. rewrite Hiff. split.
      * intros H. right. exact H.
      * intros H. inversion H as [? ? Hhd | ? ? Htl]; subst; [| exact Htl].
        rewrite Hb in Hhd. discriminate.
Qed.

(** C8.  On a NaN input [MultiRange::testDouble] and [MultiRange::testFloat]
    return [nanAllowed_] whatever the children are, also children whose own
    test would not return: no child is consulted.  On any other input, with
    children whose tests return, the result is [true] exactly when at least
    one child accepts the value. *)
Theorem MultiRange_test_nan_policy (f : MultiRange.t) (value : spec_float) :
  (MultiRange.isnan value = true ->
   MultiRange.testDouble f value = Ok (MultiRange.nanAllowed_ f)
   /\ MultiRange.testFloat f value = Ok (MultiRange.nanAllowed_ f))
  /\ (MultiRange.isnan value = false ->
      (Forall (fun filter => returns (MultiRange.Child.testDouble filter value))
              (MultiRange.filters_ f) ->
       exists accepted,
         MultiRange.testDouble f value = Ok accepted
         /\ (accepted = true <->
             Exists (fun filter =>
                       MultiRange.Child.testDouble filter value = Ok true)
                    (MultiRange.filters_ f)))
      /\ (Forall (fun filter => returns (MultiRange.Child.testFloat filter value))
                 (MultiRange.filters_ f) ->
          exists accepted,
            MultiRange.testFloat f value = Ok accepted
            /\ (accepted = true <->
                Exists (fun filter =>
                          MultiRange.Child.testFloat filter value = Ok true)
                       (MultiRange.filters_ f)))).
Proof.
  unfold MultiRange.testDouble, MultiRange.testFloat. split.
  - intros ->. split; reflexivity.
  - intros ->. split; intros Hall.
    + apply (MultiRange_anyOf_total
               (fun filter => MultiRange.Child.testDouble filter value)).
      exact Hall.
    + apply (MultiRange_anyOf_total
               (fun filter => MultiRange.Child.testFloat filter value)).
      exact Hall.
Qed.

(** ** BytesRange: the range test against the scalar test *)

(** C3.  The summary [min = "m"], [max = "z"], [hasNull = false] covers the
    string "m", and the filter "at most m" accepts "m"; its
    [testBytesRange] answers [false].  With the lower bound of the summary
    absent the answer is [false] as well, although "a" is covered and
    accepted. *)
Theorem BytesRange_testBytesRange_false_negative :
  compareRanges "m" "m" = 0
  /\ compareRanges "m" "z" < 0
  /\ BytesRange.testBytes sampleAtMostM "m" = true
  /\ BytesRange.testBytesRange sampleAtMostM (Some "m"%string)
       (Some "z"%string) false = false
  /\ compareRanges "a" "z" < 0
  /\ BytesRange.testBytes sampleAtMostM "a" = true
  /\ BytesRange.testBytesRange sampleAtMostM None (Some "z"%string) false
     = false.
Proof. vm_compute. repeat split; reflexivity. Qed.

(** X14.  The range test of a bitmask filter never rejects a summary that
    covers an accepted value. *)
Lemma BigintValuesUsingBitmask_testInt64Range_sound
    (f : BigintValuesUsingBitmask.t) (min max v : Z) (hasNull : bool) :
  min <= v <= max ->
  BigintValuesUsingBitmask.testInt64 f v = true ->
  BigintValuesUsingBitmask.testInt64Range f min max hasNull = true.
Proof.
  intros Hv Ht. unfold BigintValuesUsingBitmask.testInt64Range.
  destruct (hasNull && _); [reflexivity |].
  destruct (Z.eqb_spec min max) as [-> | _].
  - replace max with v by lia. exact Ht.
  - unfold BigintValuesUsingBitmask.testInt64 in Ht.
    destruct (_ || _) eqn:Hout in Ht; [discriminate |].
    apply orb_false_iff in Hout as [H1 H2].
    apply negb_true_iff, orb_false_iff. split; lia.
Qed.

Lemma BigintValuesUsingBitmask_testInt64Range_null
    (f : BigintValuesUsingBitmask.t) (min max : Z) :
  BigintValuesUsingBitmask.nullAllowed_ f = true ->
  BigintValuesUsingBitmask.testInt64Range f min max true = true.
Proof.
  intros H. unfold BigintValuesUsingBitmask.testInt64Range. rewrite H.
  reflexivity.
Qed.

(** ** The merge algebra *)

Section Facts.
Variable kEmptyMarker : Z.
Variable M : Z.

Local Abbreviation mergeWith := (mergeWith kEmptyMarker M).
Local Abbreviation testInt64 := (testInt64 kEmptyMarker M).
Local Abbreviation createBigintValues := (createBigintValues kEmptyMarker M).

(** C4.  For bounds [l1 <= u1], [l2 <= u2] and null bits [n1], [n2],
    [BigintRange(l1,u1,n1).mergeWith(BigintRange(l2,u2,n2))] returns
    [BigintRange(max(l1,l2), min(u1,u2), n1 && n2)] when
    [max(l1,l2) <= min(u1,u2)], and otherwise [IsNull] if [n1 && n2] and
    [AlwaysFalse] if not. *)
Theorem BigintRange_mergeWith_BigintRange_spec (l1 u1 l2 u2 : Z)
    (n1 n2 : bool) :
  l1 <= u1 -> l2 <= u2 ->
  mergeWith (OfBigintRange (BigintRange.mk l1 u1 n1))
            (OfBigintRange (BigintRange.mk l2 u2 n2))
  = Ok (if Z.max l1 l2 <=? Z.min u1 u2
        then OfBigintRange
               (BigintRange.mk (Z.max l1 l2) (Z.min u1 u2) (n1 && n2))
        else if n1 && n2 then IsNull else AlwaysFalse).
Proof.
  intros _ _. cbn. unfold BigintRange_mergeWith_BigintRange. cbn.
  rewrite std_max_spec, std_min_spec.
  destruct (Z.max l1 l2 <=? Z.min u1 u2); reflexivity.
Qed.

(** C1.  The bitmask filter over 1, 4, 5, 7 and the multi-range of the
    touching ranges [4, 5] and [5, 7] are both accepted by their
    constructors; their merge returns [BigintRange(4, 7)], which accepts
    6, a value the bitmask filter rejects. *)
Theorem mergeWith_touching_ranges_accepts_gap :
  BigintValuesUsingBitmask.ctor 1 7 [1; 4; 5; 7] false = Ok sampleBitmask
  /\ BigintMultiRange.ctor
       [BigintRange.mk 4 5 false; BigintRange.mk 5 7 false] false
     = Ok sampleTouchingRanges
  /\ mergeWith (OfBigintValuesUsingBitmask sampleBitmask)
               (OfBigintMultiRange sampleTouchingRanges)
     = Ok (OfBigintRange (BigintRange.mk 4 7 false))
  /\ testInt64 (OfBigintRange (BigintRange.mk 4 7 false)) 6 = true
  /\ testInt64 (OfBigintValuesUsingBitmask sampleBitmask) 6 = false
  /\ testInt64 (OfBigintMultiRange sampleTouchingRanges) 6 = true.
Proof. vm_compute. repeat split; reflexivity. Qed.

(** *** createBigintValues on equal entries *)

Lemma minMaxLoop_replicate (n : nat) (v : Z) :
  minMaxLoop (replicate n v) v v = (v, v).
Proof.
  induction n as [|n IH]; cbn; [reflexivity |].
  rewrite Z.gtb_ltb, Z.ltb_irrefl. exact IH.
Qed.

(** C9.  For every value [v] and flag, [createBigintValues] on two or more
    entries all equal to [v] ends in the failed check [min < max] of the
    [BigintValuesUsingBitmask] constructor, while on the single entry [v]
    it returns [BigintRange(v, v, nullAllowed)]. *)
Theorem createBigintValues_equal_entries (v : Z) (nullAllowed : bool)
    (n : nat) :
  (2 <= n)%nat ->
  createBigintValues (replicate n v) nullAllowed
  = Fail (CheckFailed "min must be less than max")
  /\ createBigintValues [v] nullAllowed
     = Ok (OfBigintRange (BigintRange.mk v v nullAllowed)).
Proof.
  intros Hn. split; [| reflexivity].
  destruct n as [|[|n]]; [lia | lia |].
  change (replicate (S (S n)) v) with (v :: v :: replicate n v).
  unfold createBigintValues.
  change (minMaxLoop (v :: replicate n v) v v)
    with (minMaxLoop (replicate (S n) v) v v).
  rewrite minMaxLoop_replicate.
  unfold sub_overflow. rewrite Z.sub_diag.
  change (isInt64 0) with true. change (toInt64 0) with 0.
  change (toUint64 (toInt64 (0 + 1))) with 1.
  cbn [negb andb orb].
  destruct (Z.eqb_spec 1 (Z.of_nat (length (v :: v :: replicate n v))))
    as [Heq | _].
  { cbn [length] in Heq. lia. }
  change (0 <? 32 * 64) with true. cbn [orb].
  unfold BigintValuesUsingBitmask.ctor. rewrite Z.ltb_irrefl.
  reflexivity.
Qed.

(** ** BigintMultiRange: the binary search *)

(** On a sorted vector the bisection returns the partition point: the
    entries before it are smaller than [value], the others are not. *)
Lemma lower_bound_loop_spec (values : list Z) (value : Z) (first len : nat) :
  sortedZ values ->
  (first + len <= length values)%nat ->
  (forall i x, (i < first)%nat -> values !! i = Some x -> x < value) ->
  (forall i x, (first + len <= i)%nat -> values !! i = Some x -> value <= x) ->
  (first <= lower_bound_loop values value first len <= first + len)%nat
  /\ (forall i x, (i < lower_bound_loop values value first len)%nat ->
                  values !! i = Some x -> x < value)
  /\ (forall i x, (lower_bound_loop values value first len <= i)%nat ->
                  values !! i = Some x -> value <= x).
Proof.
  intros Hsorted.
  funelim (lower_bound_loop values value first len);
    intros Hlen Hbelow Habove.
  - rewrite Nat.add_0_r in *.
    split; [lia | split; assumption].
  - assert (Hmid : values !! (first + S len' / 2)%nat
                   = Some (values !!! (first + S len' / 2)%nat)).
    { apply list_lookup_lookup_total_lt.
      pose proof (Nat.div_lt (S len') 2). lia. }
    apply Z.ltb_lt in Heq.
    pose proof (Nat.div_lt (S len') 2 ltac:(lia) ltac:(lia)) as Hhalf.
    destruct (H Hsorted) as (Hrange & Hlt & Hge).
    + lia.
    + intros i x Hi Hx.
      destruct (decide (i < first)%nat) as [Hi' | Hi'].
      * exact (Hbelow i x Hi' Hx).
      * pose proof (Hsorted i (first + S len' / 2)%nat x _
                      ltac:(lia) Hx Hmid). lia.
    + intros i x Hi Hx. apply (Habove i x); [lia | exact Hx].
    + split; [lia | split; assumption].
  - assert (Hmid : values !! (first + S len' / 2)%nat
                   = Some (values !!! (first + S len' / 2)%nat)).
    { apply list_lookup_lookup_total_lt.
      pose proof (Nat.div_lt (S len') 2). lia. }
    apply Z.ltb_ge in Heq.
    pose proof (Nat.div_lt (S len') 2 ltac:(lia) ltac:(lia)) as Hhalf.
    destruct (H Hsorted) as (Hrange & Hlt & Hge).
    + lia.
    + exact Hbelow.
    + intros i x Hi Hx.
      pose proof (Hsorted (first + S len' / 2)%nat i _ x
                    ltac:(lia) Hmid Hx). lia.
    + split; [lia | split; assumption].
Qed.

Lemma lower_bound_spec (values : list Z) (value : Z) :
  sortedZ values ->
  (lower_bound values value <= length values)%nat
  /\ (forall i x, (i < lower_bound values value)%nat ->
                  values !! i = Some x -> x < value)
  /\ (forall i x, (lower_bound values value <= i)%nat ->
                  values !! i = Some x -> value <= x).
Proof.
  intros Hsorted. unfold lower_bound.
  destruct (lower_bound_loop_spec values value 0 (length values) Hsorted)
    as (Hrange & Hlt & Hge).
  - lia.
  - intros i x Hi. lia.
  - intros i x Hi Hx. apply lookup_lt_Some in Hx. lia.
  - split; [lia | split; assumption].
Qed.

(** The constructor's check, with children that are ranges [lo <= hi],
    orders every pair of children. *)
Lemma checkNoOverlap_lookup (ranges : list BigintRange.t) :
  BigintMultiRange.checkNoOverlap ranges = true ->
  Forall BigintRange.wf ranges ->
  forall (i j : nat) (ri rj : BigintRange.t),
    (i < j)%nat -> ranges !! i = Some ri -> ranges !! j = Some rj ->
    BigintRange.upper_ ri <= BigintRange.lower_ rj.
Proof.
  induction ranges as [|prev rest IH]; intros Hcheck Hwf i j ri rj Hij Hi Hj.
  - rewrite lookup_nil in Hi. discriminate.
  - destruct rest as [|next rest'].
    { destruct j as [|[|j]]; cbn in Hj; try discriminate; lia. }
    cbn [BigintMultiRange.checkNoOverlap] in Hcheck.
    apply andb_true_iff in Hcheck as [Hhead Hcheck].
    apply Z.geb_le in Hhead.
    inversion Hwf as [|? ? Hprev Hwf']; subst.
    destruct i as [|i].
    + cbn in Hi. injection Hi as <-.
      destruct j as [|[|j]]; [lia | |].
      * cbn in Hj. injection Hj as <-. exact Hhead.
      * assert (Hnext : BigintRange.upper_ next <= BigintRange.lower_ rj).
        { apply (IH Hcheck Hwf' 0%nat (S j) next rj); [lia | reflexivity |].
          exact Hj. }
        inversion Hwf' as [|? ? Hnextwf _]; subst.
        unfold BigintRange.wf in Hnextwf. lia.
    + destruct j as [|j]; [lia |].
      apply (IH Hcheck Hwf' i j ri rj); [lia | exact Hi | exact Hj].
Qed.

Lemma lowerBounds_sorted (ranges : list BigintRange.t) :
  BigintMultiRange.checkNoOverlap ranges = true ->
  Forall BigintRange.wf ranges ->
  sortedZ (BigintRange.lower_ <$> ranges).
Proof.
  intros Hcheck Hwf i j x y Hij Hi Hj.
  rewrite list_lookup_fmap in Hi, Hj.
  destruct (ranges !! i) as [ri|] eqn:Hri; [| discriminate].
  destruct (ranges !! j) as [rj|] eqn:Hrj; [| discriminate].
  cbn in Hi, Hj. injection Hi as <-. injection Hj as <-.
  destruct (decide (i = j)) as [-> | Hne].
  - rewrite Hri in Hrj. injection Hrj as <-. lia.
  - pose proof (checkNoOverlap_lookup ranges Hcheck Hwf i j ri rj
                  ltac:(lia) Hri Hrj) as Hle.
    pose proof (proj1 (Forall_lookup _ _) Hwf i ri Hri) as Hwfi.
    unfold BigintRange.wf in Hwfi. lia.
Qed.

Lemma BigintMultiRange_ctor_Ok (ranges : list BigintRange.t)
    (nullAllowed : bool) (f : BigintMultiRange.t) :
  BigintMultiRange.ctor ranges nullAllowed = Ok f ->
  f = BigintMultiRange.mk ranges (BigintRange.lower_ <$> ranges) nullAllowed
  /\ BigintMultiRange.checkNoOverlap ranges = true
  /\ (2 <= length ranges)%nat.
Proof.
  unfold BigintMultiRange.ctor. intros H.
  destruct (bool_decide (ranges = [])); [discriminate |].
  destruct (Z.ltb_spec 1 (Z.of_nat (length ranges))) as [Hlen | Hlen];
    cbn in H; [| discriminate].
  destruct (BigintMultiRange.checkNoOverlap ranges); [| discriminate].
  injection H as <-. split; [reflexivity | split; [reflexivity | lia]].
Qed.

Lemma BigintMultiRange_testInt64_search (ranges : list BigintRange.t)
    (nullAllowed : bool) (v : Z) :
  sortedZ (BigintRange.lower_ <$> ranges) ->
  exists insert : nat,
    (insert <= length ranges)%nat
    /\ (forall i c, ranges !! i = Some c ->
                    (i < insert)%nat <-> BigintRange.lower_ c < v)
    /\ BigintMultiRange.testInt64
         (BigintMultiRange.mk ranges (BigintRange.lower_ <$> ranges)
            nullAllowed) v
       = searchOutcome ranges insert v.
Proof.
  intros Hsorted.
  destruct (lower_bound_spec (BigintRange.lower_ <$> ranges) v Hsorted)
    as (Hlen & Hlt & Hge).
  set (k := lower_bound (BigintRange.lower_ <$> ranges) v) in *.
  rewrite length_fmap in Hlen.
  exists k. split; [exact Hlen |]. split.
  - intros i c Hc.
    assert (Hl : (BigintRange.lower_ <$> ranges) !! i
                 = Some (BigintRange.lower_ c)).
    { rewrite list_lookup_fmap, Hc. reflexivity. }
    split.
    + intros Hi. exact (Hlt i _ Hi Hl).
    + intros Hv. destruct (decide (i < k)%nat) as [Hi | Hi]; [exact Hi |].
      pose proof (Hge i _ ltac:(lia) Hl). lia.
  - unfold BigintMultiRange.testInt64, binarySearch, searchOutcome. cbn.
    fold k. rewrite length_fmap.
    destruct (decide (k = length ranges)) as [Hk | Hk].
    + rewrite (bool_decide_eq_true_2 _ Hk). cbn.
      rewrite (lookup_ge_None_2 ranges k) by lia. cbn.
      rewrite bool_decide_eq_false_2 by discriminate.
      destruct (Z.leb_spec 0 (- Z.of_nat k - 1)) as [Hneg | _]; [lia |].
      replace (- (- Z.of_nat k - 1) - 1) with (Z.of_nat k) by lia.
      destruct k as [|before]; [reflexivity |].
      destruct (Z.eqb_spec (Z.of_nat (S before)) 0) as [H0 | _]; [lia |].
      replace (Z.to_nat (Z.of_nat (S before) - 1)) with before by lia.
      reflexivity.
    + rewrite (bool_decide_eq_false_2 _ Hk). cbn.
      assert (Hin : (k < length ranges)%nat) by lia.
      destruct (lookup_lt_is_Some_2 ranges k Hin) as [c Hc].
      rewrite (list_lookup_total_correct (BigintRange.lower_ <$> ranges) k
                 (BigintRange.lower_ c))
        by (rewrite list_lookup_fmap, Hc; reflexivity).
      rewrite Hc. cbn.
      destruct (Z.eqb_spec (BigintRange.lower_ c) v) as [Hhit | Hmiss]; cbn.
      * rewrite bool_decide_eq_true_2 by (f_equal; exact Hhit).
        destruct (Z.leb_spec 0 (Z.of_nat k)) as [_ | Hneg]; [reflexivity | lia].
      * rewrite bool_decide_eq_false_2 by (intros [= Heq]; contradiction).
        destruct (Z.leb_spec 0 (- Z.of_nat k - 1)) as [Hneg | _]; [lia |].
        replace (- (- Z.of_nat k - 1) - 1) with (Z.of_nat k) by lia.
        destruct k as [|before]; [reflexivity |].
        destruct (Z.eqb_spec (Z.of_nat (S before)) 0) as [H0 | _]; [lia |].
        replace (Z.to_nat (Z.of_nat (S before) - 1)) with before by lia.
        reflexivity.
Qed.

(** The outcome of the search is [true] exactly when a child accepts. *)
Lemma searchOutcome_spec (ranges : list BigintRange.t) (k : nat) (v : Z) :
  BigintMultiRange.checkNoOverlap ranges = true ->
  Forall BigintRange.wf ranges ->
  (k <= length ranges)%nat ->
  (forall i c, ranges !! i = Some c ->
               (i < k)%nat <-> BigintRange.lower_ c < v) ->
  searchOutcome ranges k v = true
  <-> exists c, c ∈ ranges /\ BigintRange.testInt64 c v = true.
Proof.
  intros Hcheck Hwf Hk Hpos.
  pose proof (lowerBounds_sorted ranges Hcheck Hwf) as Hsorted.
  assert (Hinside : forall c, BigintRange.testInt64 c v = true
                              <-> BigintRange.lower_ c <= v
                                                       <= BigintRange.upper_ c).
  { intros c. unfold BigintRange.testInt64.
    rewrite andb_true_iff, !Z.leb_le. reflexivity. }
  unfold searchOutcome. split.
  - case_bool_decide as Hhit.
    + intros _. destruct (ranges !! k) as [ck|] eqn:Hck; [| discriminate].
      cbn in Hhit. injection Hhit as Hlow. exists ck.
      split; [apply list_elem_of_lookup; eauto |]. apply Hinside.
      pose proof (proj1 (Forall_lookup _ _) Hwf k ck Hck) as Hwfk.
      unfold BigintRange.wf in Hwfk. lia.
    + destruct k as [|before]; [discriminate |].
      destruct (ranges !! before) as [cb|] eqn:Hcb; [| discriminate].
      intros Hcv. exists cb. split; [apply list_elem_of_lookup; eauto |].
      exact Hcv.
  - intros (c & Hc & Hcv). apply Hinside in Hcv.
    case_bool_decide as Hhit; [reflexivity |].
    apply list_elem_of_lookup in Hc as [j Hj].
    assert (Hjk : (j < k)%nat).
    { destruct (decide (j < k)%nat) as [Hlt | Hge]; [exact Hlt |].
      exfalso. apply Hhit.
      assert (Hkin : (k < length ranges)%nat).
      { apply lookup_lt_Some in Hj. lia. }
      destruct (lookup_lt_is_Some_2 ranges k Hkin) as [ck Hck].
      rewrite Hck. cbn. f_equal.
      assert (~ BigintRange.lower_ ck < v).
      { intros Hlt. apply (Hpos k ck Hck) in Hlt. lia. }
      assert (~ BigintRange.lower_ c < v).
      { intros Hlt. apply (Hpos j c Hj) in Hlt. lia. }
      pose proof (Hsorted k j (BigintRange.lower_ ck) (BigintRange.lower_ c)
                    ltac:(lia)) as Hle.
      rewrite !list_lookup_fmap, Hck, Hj in Hle.
      specialize (Hle eq_refl eq_refl). lia. }
    destruct k as [|before]; [lia |].
    assert (Hbin : (before < length ranges)%nat) by lia.
    destruct (lookup_lt_is_Some_2 ranges before Hbin) as [cb Hcb].
    rewrite Hcb. apply Hinside.
    pose proof (proj1 (Hpos before cb Hcb) ltac:(lia)) as Hlow.
    destruct (decide (j = before)) as [-> | Hne].
    + rewrite Hcb in Hj. injection Hj as ->. lia.
    + pose proof (checkNoOverlap_lookup ranges Hcheck Hwf j before c cb
                    ltac:(lia) Hj Hcb). lia.
Qed.

(** A multi-range accepts the values that one of its children accepts. *)
Lemma BigintMultiRange_testInt64_iff (ranges : list BigintRange.t)
    (nullAllowed : bool) (v : Z) :
  BigintMultiRange.checkNoOverlap ranges = true ->
  Forall BigintRange.wf ranges ->
  BigintMultiRange.testInt64
    (BigintMultiRange.mk ranges (BigintRange.lower_ <$> ranges) nullAllowed) v
  = true
  <-> exists c, c ∈ ranges /\ BigintRange.testInt64 c v = true.
Proof.
  intros Hcheck Hwf.
  pose proof (lowerBounds_sorted ranges Hcheck Hwf) as Hsorted.
  destruct (BigintMultiRange_testInt64_search ranges nullAllowed v Hsorted)
    as (k & Hk & Hpos & ->).
  apply searchOutcome_spec; assumption.
Qed.

(** C6.  For a [BigintMultiRange] accepted by the constructor (children
    sorted by lower bound, each starting no earlier than the previous one
    ends) whose children are ranges [lower <= upper], and every [v]: if [v]
    lies inside a child [c], [testInt64(v)] equals [c.testInt64(v)], which is
    [true]; if [v] lies outside every child, [testInt64(v)] is [false]; and
    the result is the one read off the insertion position of [v] among the
    lower bounds: accept on an exact hit, reject at position 0, otherwise
    ask the child before the position. *)
Theorem BigintMultiRange_testInt64_spec (ranges : list BigintRange.t)
    (nullAllowed : bool) (f : BigintMultiRange.t) (v : Z) :
  BigintMultiRange.ctor ranges nullAllowed = Ok f ->
  Forall BigintRange.wf ranges ->
  (forall c, c ∈ ranges ->
             BigintRange.lower_ c <= v <= BigintRange.upper_ c ->
             BigintMultiRange.testInt64 f v = BigintRange.testInt64 c v
             /\ BigintRange.testInt64 c v = true)
  /\ ((forall c, c ∈ ranges ->
                 ~ (BigintRange.lower_ c <= v <= BigintRange.upper_ c)) ->
      BigintMultiRange.testInt64 f v = false)
  /\ exists insert : nat,
       (forall i c, ranges !! i = Some c ->
                    (i < insert)%nat <-> BigintRange.lower_ c < v)
       /\ BigintMultiRange.testInt64 f v = searchOutcome ranges insert v.
Proof.
  intros Hctor Hwf.
  destruct (BigintMultiRange_ctor_Ok _ _ _ Hctor) as (-> & Hcheck & _).
  pose proof (lowerBounds_sorted ranges Hcheck Hwf) as Hsorted.
  destruct (BigintMultiRange_testInt64_search ranges nullAllowed v Hsorted)
    as (k & Hk & Hpos & Htest).
  pose proof (searchOutcome_spec ranges k v Hcheck Hwf Hk Hpos) as Hiff.
  assert (Hinside : forall c, BigintRange.testInt64 c v = true
                              <-> BigintRange.lower_ c <= v
                                                       <= BigintRange.upper_ c).
  { intros c. unfold BigintRange.testInt64.
    rewrite andb_true_iff, !Z.leb_le. reflexivity. }
  split; [| split].
  - intros c Hc Hv. apply Hinside in Hv.
    split; [| exact Hv]. rewrite Hv, Htest. apply Hiff. eauto.
  - intros Hout. rewrite Htest. apply not_true_is_false. intros Htrue.
    apply Hiff in Htrue as (c & Hc & Hcv).
    apply (Hout c Hc), Hinside, Hcv.
  - exists k. split; [exact Hpos | exact Htest].
Qed.

(** ** BigintValuesUsingHashTable: the open-address table *)

Lemma tableSize_pow2 (n : Z) :
  BigintValuesUsingHashTable.tableSize n
  = 2 ^ BigintValuesUsingHashTable.tableExponent n.
Proof.
  unfold BigintValuesUsingHashTable.tableSize.
  rewrite Z.shiftl_1_l. reflexivity.
Qed.

Lemma tableExponent_nonneg (n : Z) :
  0 <= BigintValuesUsingHashTable.tableExponent n.
Proof. apply Z.log2_nonneg. Qed.

(** The size is three times the number of values rounded down to a power of
    two. *)
Lemma tableSize_bounds (n : Z) :
  1 <= n -> 3 * n < 2 ^ 64 ->
  BigintValuesUsingHashTable.tableSize n = 2 ^ Z.log2 (3 * n)
  /\ BigintValuesUsingHashTable.tableSize n <= 3 * n
     < 2 * BigintValuesUsingHashTable.tableSize n.
Proof.
  intros Hn Hlt. rewrite tableSize_pow2.
  unfold BigintValuesUsingHashTable.tableExponent.
  rewrite toUint64_id by lia. replace (n * 3) with (3 * n) by lia.
  split; [reflexivity |].
  pose proof (Z.log2_spec (3 * n) ltac:(lia)) as Hspec.
  rewrite Z.pow_succ_r in Hspec by apply Z.log2_nonneg. lia.
Qed.

Section Table.
Variable e : Z.
Hypothesis e_range : 0 <= e < 32.

Local Abbreviation size := (2 ^ e).

Lemma size_pos : 0 < size.
Proof using e_range. apply Z.pow_pos_nonneg; lia. Qed.

Lemma size_lt : size < 2 ^ 32.
Proof using e_range. apply Z.pow_lt_mono_r; lia. Qed.

Lemma size_le : size <= 2 ^ 31.
Proof using e_range. apply Z.pow_le_mono_r; lia. Qed.

Lemma land_mask (i : Z) : Z.land i (size - 1) = i mod size.
Proof using e_range.
  replace (size - 1) with (Z.ones e) by (rewrite Z.ones_equiv; lia).
  apply Z.land_ones. lia.
Qed.

Lemma hashPosition_range (x : Z) :
  0 <= BigintValuesUsingHashTable.hashPosition M size x < size.
Proof using e_range.
  unfold BigintValuesUsingHashTable.hashPosition. rewrite land_mask.
  apply Z.mod_pos_bound, size_pos.
Qed.

Lemma slotOf_lt (i : Z) : (slotOf size i < Z.to_nat size)%nat.
Proof using e_range.
  unfold slotOf. pose proof (Z.mod_pos_bound i size size_pos). lia.
Qed.

Lemma slotOf_insert_index (i : Z) :
  Z.to_nat (toUint32 (Z.land i (size - 1))) = slotOf size i.
Proof using e_range.
  rewrite land_mask, toUint32_id; [reflexivity |].
  pose proof (Z.mod_pos_bound i size size_pos). pose proof size_lt. lia.
Qed.

Lemma slotOf_lookup_index (i : Z) :
  Z.to_nat (Z.land i (size - 1)) = slotOf size i.
Proof using e_range. rewrite land_mask. reflexivity. Qed.

(** Every slot lies on the probe path of every position. *)
Lemma slotOf_cover (pos : Z) (s : nat) :
  (s < Z.to_nat size)%nat ->
  exists j, 0 <= j < size /\ slotOf size (pos + j) = s.
Proof using e_range.
  intros Hs. exists ((Z.of_nat s - pos) mod size).
  split; [apply Z.mod_pos_bound, size_pos |].
  unfold slotOf. rewrite Z.add_mod_idemp_r by (pose proof size_pos; lia).
  replace (pos + (Z.of_nat s - pos)) with (Z.of_nat s) by lia.
  rewrite Z.mod_small by lia. lia.
Qed.

(** *** Counting the empty slots *)

Lemma numEmpty_replicate (n : nat) :
  numEmpty kEmptyMarker (replicate n kEmptyMarker) = n.
Proof.
  unfold numEmpty. induction n as [|n IH]; [reflexivity |].
  cbn [replicate]. rewrite filter_cons_True by reflexivity. cbn. lia.
Qed.

Lemma numEmpty_insert (hashTable : list Z) (s : nat) (v : Z) :
  hashTable !! s = Some kEmptyMarker -> v <> kEmptyMarker ->
  S (numEmpty kEmptyMarker (<[s := v]> hashTable))
  = numEmpty kEmptyMarker hashTable.
Proof.
  unfold numEmpty. revert s.
  induction hashTable as [|l hashTable IH]; intros s Hs Hv.
  - rewrite lookup_nil in Hs. discriminate.
  - destruct s as [|s]; cbn in Hs.
    + injection Hs as ->.
      change (<[0%nat := v]> (kEmptyMarker :: hashTable)) with (v :: hashTable).
      rewrite filter_cons_False by exact Hv.
      rewrite filter_cons_True by reflexivity. reflexivity.
    + specialize (IH s Hs Hv).
      change (<[S s := v]> (l :: hashTable)) with (l :: <[s := v]> hashTable).
      rewrite !filter_cons.
      destruct (decide (l = kEmptyMarker)); cbn [length]; lia.
Qed.

Lemma numEmpty_lookup (hashTable : list Z) :
  (0 < numEmpty kEmptyMarker hashTable)%nat ->
  exists s, hashTable !! s = Some kEmptyMarker.
Proof.
  unfold numEmpty. intros Hpos.
  destruct (filter (fun l => l = kEmptyMarker) hashTable) as [|l rest] eqn:Hf;
    [cbn in Hpos; lia |].
  assert (Hin : l ∈ filter (fun l => l = kEmptyMarker) hashTable).
  { rewrite Hf. left. }
  apply list_elem_of_filter in Hin as [-> Hin].
  apply list_elem_of_lookup in Hin. exact Hin.
Qed.

(** A table with an empty slot has one on every probe path. *)
Lemma empty_on_path (hashTable : list Z) (pos : Z) :
  length hashTable = Z.to_nat size ->
  (0 < numEmpty kEmptyMarker hashTable)%nat ->
  exists j, 0 <= j < size
            /\ hashTable !!! slotOf size (pos + j) = kEmptyMarker.
Proof using e_range.
  intros Hlen Hpos. destruct (numEmpty_lookup _ Hpos) as [s Hs].
  destruct (slotOf_cover pos s) as (j & Hj & Hslot).
  { apply lookup_lt_Some in Hs. lia. }
  exists j. split; [exact Hj |]. rewrite Hslot.
  apply list_lookup_total_correct, Hs.
Qed.

(** *** The insertion loop *)

Lemma insertProbe_spec (hashTable : list Z) (v : Z) (n : nat) :
  forall i : Z,
    (exists j, 0 <= j < Z.of_nat n
               /\ hashTable !!! slotOf size (i + j) = kEmptyMarker) ->
    exists j,
      0 <= j < Z.of_nat n
      /\ hashTable !!! slotOf size (i + j) = kEmptyMarker
      /\ (forall j', 0 <= j' < j ->
                     hashTable !!! slotOf size (i + j') <> kEmptyMarker)
      /\ BigintValuesUsingHashTable.insertProbe kEmptyMarker size v
           hashTable i n
         = <[slotOf size (i + j) := v]> hashTable.
Proof using e_range.
  induction n as [|n IH]; intros i (j & Hj & Hempty); [lia |].
  cbn [BigintValuesUsingHashTable.insertProbe].
  rewrite slotOf_insert_index.
  destruct (Z.eqb_spec (hashTable !!! slotOf size i) kEmptyMarker)
    as [Hhere | Hhere].
  - exists 0. rewrite Z.add_0_r.
    split; [lia | split; [exact Hhere | split; [intros; lia | reflexivity]]].
  - destruct (IH (i + 1)) as (j0 & Hj0 & He0 & Hbefore & Heq).
    { exists (j - 1). replace (i + 1 + (j - 1)) with (i + j) by lia.
      split; [| exact Hempty].
      assert (j <> 0) by (intros ->; rewrite Z.add_0_r in Hempty; auto).
      lia. }
    exists (j0 + 1). replace (i + (j0 + 1)) with (i + 1 + j0) by lia.
    split; [lia | split; [exact He0 | split; [| exact Heq]]].
    intros j' Hj'. destruct (decide (j' = 0)) as [-> | Hne].
    + rewrite Z.add_0_r. exact Hhere.
    + replace (i + j') with (i + 1 + (j' - 1)) by lia.
      apply Hbefore. lia.
Qed.

Lemma elem_of_insert_inv (hashTable : list Z) (s : nat) (v x : Z) :
  x ∈ <[s := v]> hashTable -> x = v \/ x ∈ hashTable.
Proof.
  intros Hin. apply list_elem_of_lookup in Hin as [k Hk].
  destruct (decide (s = k)) as [-> | Hne].
  - destruct (decide (k < length hashTable)%nat) as [Hlt | Hge].
    + rewrite list_lookup_insert_eq in Hk by exact Hlt.
      injection Hk as <-. left. reflexivity.
    + rewrite list_insert_ge in Hk by lia.
      right. apply list_elem_of_lookup. eauto.
  - rewrite list_lookup_insert_ne in Hk by exact Hne.
    right. apply list_elem_of_lookup. eauto.
Qed.

Lemma tableInv_empty :
  tableInv kEmptyMarker M size (replicate (Z.to_nat size) kEmptyMarker) [].
Proof.
  unfold tableInv. rewrite length_replicate, numEmpty_replicate. cbn.
  split; [reflexivity |].
  split; [intros x Hx; inversion Hx |].
  split; [intros x Hx; inversion Hx |].
  split; [| lia].
  intros x Hx Hne. apply elem_of_replicate_inv in Hx. contradiction.
Qed.

(** Storing a value keeps the invariant, as long as a slot is free. *)
Lemma tableInv_insert (hashTable inserted : list Z) (v : Z) :
  tableInv kEmptyMarker M size hashTable inserted ->
  v <> kEmptyMarker ->
  (length inserted < Z.to_nat size)%nat ->
  tableInv kEmptyMarker M size
    (BigintValuesUsingHashTable.insertProbe kEmptyMarker size v hashTable
       (BigintValuesUsingHashTable.hashPosition M size v) (Z.to_nat size))
    (v :: inserted).
Proof using e_range.
  intros (Hlen & Hnot & Hpath & Hsub & Hcount) Hv Hroom.
  set (pos := BigintValuesUsingHashTable.hashPosition M size v).
  destruct (empty_on_path hashTable pos Hlen ltac:(lia)) as (j0 & Hj0 & He0).
  destruct (insertProbe_spec hashTable v (Z.to_nat size) pos)
    as (j & Hj & Hempty & Hbefore & ->).
  { exists j0. split; [lia | exact He0]. }
  set (s := slotOf size (pos + j)) in *.
  assert (Hs : (s < length hashTable)%nat).
  { rewrite Hlen. apply slotOf_lt. }
  assert (Hother : forall i, hashTable !!! slotOf size i <> kEmptyMarker ->
                             <[s := v]> hashTable !!! slotOf size i
                             <> kEmptyMarker).
  { intros i Hi. destruct (decide (s = slotOf size i)) as [Heq | Hne].
    - rewrite <- Heq, list_lookup_total_insert_eq by exact Hs. exact Hv.
    - rewrite list_lookup_total_insert_ne by exact Hne. exact Hi. }
  unfold tableInv. rewrite length_insert.
  split; [exact Hlen |]. split; [| split; [| split]].
  - intros x Hx. apply elem_of_cons in Hx as [-> | Hx]; auto.
  - intros x Hx. apply elem_of_cons in Hx as [-> | Hx].
    + exists j. fold pos. fold s.
      split; [lia |]. split.
      * apply list_lookup_total_insert_eq, Hs.
      * intros j' Hj'. apply Hother, Hbefore, Hj'.
    + destruct (Hpath x Hx) as (jx & Hjx & Hstored & Hfull).
      exists jx. split; [exact Hjx |]. split.
      * rewrite list_lookup_total_insert_ne; [exact Hstored |].
        intros Heq. rewrite <- Heq in Hstored.
        rewrite Hempty in Hstored. apply (Hnot x Hx). auto.
      * intros j' Hj'. apply Hother, Hfull, Hj'.
  - intros x Hx Hne. apply elem_of_insert_inv in Hx as [-> | Hx].
    + left.
    + right. apply Hsub; assumption.
  - assert (Hsome : hashTable !! s = Some kEmptyMarker).
    { rewrite (list_lookup_lookup_total_lt hashTable s Hs). f_equal.
      exact Hempty. }
    pose proof (numEmpty_insert hashTable s v Hsome Hv). cbn [length]. lia.
Qed.

(** The loop over the values of the constructor. *)
Lemma foldl_insertValue_inv (values : list Z) :
  forall (hashTable : list Z) (flag : bool) (inserted : list Z),
    tableInv kEmptyMarker M size hashTable inserted ->
    (length inserted + length values < Z.to_nat size)%nat ->
    exists inserted',
      tableInv kEmptyMarker M size
        (foldl (BigintValuesUsingHashTable.insertValue kEmptyMarker M size)
               (hashTable, flag) values).1 inserted'
      /\ (forall x, x ∈ inserted' <->
                    x ∈ inserted \/ (x ∈ values /\ x <> kEmptyMarker))
      /\ length inserted'
         = (length inserted
            + length (filter (fun x => x <> kEmptyMarker) values))%nat
      /\ (foldl (BigintValuesUsingHashTable.insertValue kEmptyMarker M size)
                (hashTable, flag) values).2
         = flag || bool_decide (kEmptyMarker ∈ values).
Proof using e_range.
  induction values as [|value rest IH]; intros hashTable flag inserted Hinv Hroom.
  - exists inserted. cbn. split; [exact Hinv |]. split; [| split].
    + intros x. split; [auto |]. intros [H | [H _]]; [exact H | inversion H].
    + lia.
    + rewrite bool_decide_eq_false_2 by apply not_elem_of_nil.
      rewrite orb_false_r. reflexivity.
  - cbn [foldl]. unfold BigintValuesUsingHashTable.insertValue at 2 4.
    cbn [fst snd]. cbn [length] in Hroom.
    destruct (Z.eqb_spec value kEmptyMarker) as [-> | Hne].
    + destruct (IH hashTable true inserted Hinv ltac:(lia))
        as (inserted' & Hinv' & Hmem & Hlen & Hflag).
      exists inserted'. split; [exact Hinv' |]. split; [| split].
      * intros x. rewrite Hmem, elem_of_cons. intuition congruence.
      * rewrite filter_cons_False by auto. exact Hlen.
      * rewrite Hflag. rewrite (bool_decide_eq_true_2 (_ ∈ _ :: _)) by left.
        rewrite orb_true_r. reflexivity.
    + pose proof (tableInv_insert hashTable inserted value Hinv Hne
                    ltac:(lia)) as Hinv1.
      destruct (IH _ flag (value :: inserted) Hinv1 ltac:(cbn [length]; lia))
        as (inserted' & Hinv' & Hmem & Hlen & Hflag).
      exists inserted'. split; [exact Hinv' |]. split; [| split].
      * intros x. rewrite Hmem, !elem_of_cons. intuition congruence.
      * rewrite filter_cons_True by exact Hne. cbn [length] in Hlen |- *. lia.
      * rewrite Hflag. f_equal. apply bool_decide_ext.
        rewrite elem_of_cons. intuition congruence.
Qed.

(** *** The lookup loop *)

Lemma probe_Hit_inv (hashTable : list Z) (v : Z) (n : nat) :
  forall i : Z,
    BigintValuesUsingHashTable.probe kEmptyMarker hashTable size v i n
    = BigintValuesUsingHashTable.Hit ->
    v <> kEmptyMarker
    /\ exists j, 0 <= j < Z.of_nat n /\ hashTable !!! slotOf size (i + j) = v.
Proof using e_range.
  induction n as [|n IH]; intros i Hprobe; [discriminate |].
  cbn [BigintValuesUsingHashTable.probe] in Hprobe.
  rewrite slotOf_lookup_index in Hprobe.
  destruct (Z.eqb_spec (hashTable !!! slotOf size i) kEmptyMarker)
    as [Hempty | Hfull]; [discriminate |].
  destruct (Z.eqb_spec (hashTable !!! slotOf size i) v) as [Hhit | Hmiss].
  - split; [congruence |]. exists 0. rewrite Z.add_0_r. split; [lia | exact Hhit].
  - destruct (IH (i + 1) Hprobe) as (Hv & j & Hj & Hstored).
    split; [exact Hv |]. exists (j + 1).
    replace (i + (j + 1)) with (i + 1 + j) by lia. split; [lia | exact Hstored].
Qed.

Lemma probe_Hit (hashTable : list Z) (v : Z) (n : nat) :
  v <> kEmptyMarker ->
  forall i : Z,
    (exists j, 0 <= j < Z.of_nat n
               /\ hashTable !!! slotOf size (i + j) = v
               /\ forall j', 0 <= j' < j ->
                             hashTable !!! slotOf size (i + j') <> kEmptyMarker) ->
    BigintValuesUsingHashTable.probe kEmptyMarker hashTable size v i n
    = BigintValuesUsingHashTable.Hit.
Proof using e_range.
  intros Hv. induction n as [|n IH]; intros i (j & Hj & Hstored & Hfull);
    [lia |].
  cbn [BigintValuesUsingHashTable.probe]. rewrite slotOf_lookup_index.
  destruct (decide (j = 0)) as [-> | Hj0].
  - rewrite Z.add_0_r in Hstored. rewrite Hstored.
    destruct (Z.eqb_spec v kEmptyMarker) as [? | _]; [contradiction |].
    rewrite Z.eqb_refl. reflexivity.
  - pose proof (Hfull 0 ltac:(lia)) as Hhere. rewrite Z.add_0_r in Hhere.
    destruct (Z.eqb_spec (hashTable !!! slotOf size i) kEmptyMarker)
      as [? | _]; [contradiction |].
    destruct (hashTable !!! slotOf size i =? v); [reflexivity |].
    apply IH. exists (j - 1).
    replace (i + 1 + (j - 1)) with (i + j) by lia.
    split; [lia | split; [exact Hstored |]].
    intros j' Hj'. replace (i + 1 + j') with (i + (j' + 1)) by lia.
    apply Hfull. lia.
Qed.

Lemma probe_not_Exhausted (hashTable : list Z) (v : Z) (n : nat) :
  forall i : Z,
    (exists j, 0 <= j < Z.of_nat n
               /\ hashTable !!! slotOf size (i + j) = kEmptyMarker) ->
    BigintValuesUsingHashTable.probe kEmptyMarker hashTable size v i n
    <> BigintValuesUsingHashTable.Exhausted.
Proof using e_range.
  induction n as [|n IH]; intros i (j & Hj & Hempty); [lia |].
  cbn [BigintValuesUsingHashTable.probe]. rewrite slotOf_lookup_index.
  destruct (Z.eqb_spec (hashTable !!! slotOf size i) kEmptyMarker)
    as [_ | Hfull]; [discriminate |].
  destruct (hashTable !!! slotOf size i =? v); [discriminate |].
  apply IH. exists (j - 1). replace (i + 1 + (j - 1)) with (i + j) by lia.
  split; [| exact Hempty].
  assert (j <> 0) by (intros ->; rewrite Z.add_0_r in Hempty; auto). lia.
Qed.

Lemma lookup_unfold (h : BigintValuesUsingHashTable.t) (v : Z) :
  length (BigintValuesUsingHashTable.hashTable_ h) = Z.to_nat size ->
  BigintValuesUsingHashTable.lookup kEmptyMarker M h v
  = BigintValuesUsingHashTable.probe kEmptyMarker
      (BigintValuesUsingHashTable.hashTable_ h) size v
      (BigintValuesUsingHashTable.hashPosition M size v) (Z.to_nat size).
Proof using e_range.
  intros Hlen. unfold BigintValuesUsingHashTable.lookup. rewrite Hlen.
  pose proof size_pos. pose proof size_lt. pose proof size_le.
  rewrite Z2Nat.id by lia. rewrite (toUint32_id size) by lia.
  change (Z.land (toUint64 (v * M)) (size - 1))
    with (BigintValuesUsingHashTable.hashPosition M size v).
  pose proof (hashPosition_range v).
  rewrite (toUint32_id (BigintValuesUsingHashTable.hashPosition M size v))
    by lia.
  rewrite toUint32_id by lia.
  f_equal. lia.
Qed.

Lemma lookup_Hit_iff (h : BigintValuesUsingHashTable.t) (inserted : list Z)
    (v : Z) :
  tableInv kEmptyMarker M size (BigintValuesUsingHashTable.hashTable_ h)
           inserted ->
  BigintValuesUsingHashTable.lookup kEmptyMarker M h v
  = BigintValuesUsingHashTable.Hit
  <-> v ∈ inserted.
Proof using e_range.
  intros (Hlen & Hnot & Hpath & Hsub & Hcount).
  rewrite lookup_unfold by exact Hlen. pose proof size_pos. split.
  - intros Hprobe. apply probe_Hit_inv in Hprobe as (Hv & j & Hj & Hstored).
    apply Hsub; [| exact Hv]. rewrite <- Hstored.
    apply list_elem_of_lookup_total_2. rewrite Hlen. apply slotOf_lt.
  - intros Hin. apply probe_Hit; [apply Hnot, Hin |].
    destruct (Hpath v Hin) as (j & Hj & Hstored & Hfull).
    exists j. split; [lia | split; assumption].
Qed.

Lemma lookup_not_Exhausted (h : BigintValuesUsingHashTable.t) (v : Z) :
  length (BigintValuesUsingHashTable.hashTable_ h) = Z.to_nat size ->
  (0 < numEmpty kEmptyMarker (BigintValuesUsingHashTable.hashTable_ h))%nat ->
  BigintValuesUsingHashTable.lookup kEmptyMarker M h v
  <> BigintValuesUsingHashTable.Exhausted.
Proof using e_range.
  intros Hlen Hempty. rewrite lookup_unfold by exact Hlen.
  apply probe_not_Exhausted.
  destruct (empty_on_path _ (BigintValuesUsingHashTable.hashPosition M size v)
              Hlen Hempty) as (j & Hj & He).
  pose proof size_pos. exists j. split; [lia | exact He].
Qed.

(** What a lookup answers on a table that satisfies the invariant. *)
Lemma testInt64_of_tableInv (h : BigintValuesUsingHashTable.t)
    (inserted : list Z) (v : Z) :
  tableInv kEmptyMarker M size (BigintValuesUsingHashTable.hashTable_ h)
           inserted ->
  (forall x, x ∈ inserted ->
             BigintValuesUsingHashTable.min_ h <= x
             <= BigintValuesUsingHashTable.max_ h) ->
  BigintValuesUsingHashTable.testInt64 kEmptyMarker M h v = true
  <-> (BigintValuesUsingHashTable.containsEmptyMarker_ h = true
       /\ v = kEmptyMarker)
      \/ v ∈ inserted.
Proof using e_range.
  intros Hinv Hbounds.
  pose proof (lookup_Hit_iff h inserted v Hinv) as Hhit.
  pose proof Hinv as (_ & Hnot & _).
  unfold BigintValuesUsingHashTable.testInt64.
  destruct (BigintValuesUsingHashTable.containsEmptyMarker_ h) eqn:Hflag;
    destruct (Z.eqb_spec v kEmptyMarker) as [Hv | Hv]; cbn [andb].
  - split; [intros _; left; auto | reflexivity].
  - split.
    + destruct (_ || _); [discriminate |].
      destruct (BigintValuesUsingHashTable.lookup _ _ _ _) eqn:Hl;
        try discriminate.
      intros _. right. apply Hhit. reflexivity.
    + intros [[_ ?] | Hin]; [contradiction |].
      pose proof (Hbounds v Hin).
      destruct (Z.ltb_spec v (BigintValuesUsingHashTable.min_ h)); [lia |].
      destruct (Z.gtb_spec v (BigintValuesUsingHashTable.max_ h)); [lia |].
      cbn [orb]. rewrite (proj2 Hhit Hin). reflexivity.
  - split.
    + destruct (_ || _); [discriminate |].
      destruct (BigintValuesUsingHashTable.lookup _ _ _ _) eqn:Hl;
        try discriminate.
      intros _. right. apply Hhit. reflexivity.
    + intros [[? _] | Hin]; [discriminate |].
      subst v. exfalso. exact (Hnot _ Hin eq_refl).
  - split.
    + destruct (_ || _); [discriminate |].
      destruct (BigintValuesUsingHashTable.lookup _ _ _ _) eqn:Hl;
        try discriminate.
      intros _. right. apply Hhit. reflexivity.
    + intros [[? _] | Hin]; [discriminate |].
      pose proof (Hbounds v Hin).
      destruct (Z.ltb_spec v (BigintValuesUsingHashTable.min_ h)); [lia |].
      destruct (Z.gtb_spec v (BigintValuesUsingHashTable.max_ h)); [lia |].
      cbn [orb]. rewrite (proj2 Hhit Hin). reflexivity.
Qed.

End Table.

(** *** The constructor *)

Lemma filter_complement_length (P : Z -> Prop) `{!forall x, Decision (P x)}
    (l : list Z) :
  (length (filter P l) + length (filter (fun x => ~ P x) l))%nat = length l.
Proof.
  induction l as [|x l IH]; [reflexivity |].
  rewrite !filter_cons. destruct (decide (P x)) as [HP | HP].
  - rewrite decide_False by tauto. cbn [length]. lia.
  - rewrite decide_True by tauto. cbn [length]. lia.
Qed.

(** The constructor returns, and its table satisfies the invariant for the
    values of the vector other than the marker. *)
Lemma BigintValuesUsingHashTable_ctor_inv (min max : Z) (values : list Z)
    (nullAllowed : bool) :
  min < max ->
  (2 <= length values)%nat ->
  3 * Z.of_nat (length values) < 2 ^ 32 ->
  exists (hashTable inserted : list Z) (flag : bool),
    BigintValuesUsingHashTable.ctor kEmptyMarker M min max values nullAllowed
    = Ok (BigintValuesUsingHashTable.mk min max hashTable flag nullAllowed)
    /\ Z.of_nat (length hashTable)
       = BigintValuesUsingHashTable.tableSize (Z.of_nat (length values))
    /\ tableInv kEmptyMarker M
         (BigintValuesUsingHashTable.tableSize (Z.of_nat (length values)))
         hashTable inserted
    /\ (forall x, x ∈ inserted <-> x ∈ values /\ x <> kEmptyMarker)
    /\ length inserted
       = length (filter (fun x => x <> kEmptyMarker) values)
    /\ (flag = true <-> kEmptyMarker ∈ values).
Proof.
  intros Hminmax Hlen Hsmall.
  set (n := Z.of_nat (length values)) in *.
  destruct (tableSize_bounds n ltac:(lia) ltac:(lia)) as (Hsize & Hle & Hlt).
  assert (He : 0 <= BigintValuesUsingHashTable.tableExponent n < 32).
  { split; [apply tableExponent_nonneg |].
    unfold BigintValuesUsingHashTable.tableExponent.
    rewrite toUint64_id by lia.
    apply Z.log2_lt_pow2; lia. }
  rewrite tableSize_pow2 in *.
  set (e := BigintValuesUsingHashTable.tableExponent n) in *.
  destruct (foldl_insertValue_inv e He values
              (replicate (Z.to_nat (2 ^ e)) kEmptyMarker) false []
              (tableInv_empty e))
    as (inserted & Hinv & Hmem & Hcount & Hflag).
  { cbn [length]. lia. }
  eexists _, inserted, _. split; [| split; [| split; [| split; [| split]]]].
  - unfold BigintValuesUsingHashTable.ctor.
    destruct (Z.ltb_spec min max) as [_ | ?]; [| lia]. cbn [negb].
    fold n. destruct (Z.ltb_spec 1 n) as [_ | ?]; [| lia]. cbn [negb].
    fold e. destruct (Z.leb_spec 32 e) as [? | _]; [lia |].
    rewrite tableSize_pow2. fold e. reflexivity.
  - destruct Hinv as (Hl & _). rewrite Hl.
    pose proof (size_pos e He). lia.
  - exact Hinv.
  - intros x. rewrite Hmem. split.
    + intros [Hx | Hx]; [inversion Hx | exact Hx].
    + intros Hx. right. exact Hx.
  - rewrite Hcount. reflexivity.
  - rewrite Hflag. cbn. apply bool_decide_eq_true.
Qed.

(** C5 (amended).  For every vector of [n >= 2] values accepted by the
    constructor, the table has [2 ^ log2 (3 n)] slots: three times the number
    of values rounded down to a power of two, which is at most [3 n], more
    than [3 n / 2] and more than [n]. *)
Theorem BigintValuesUsingHashTable_table_size (min max : Z) (values : list Z)
    (nullAllowed : bool) (h : BigintValuesUsingHashTable.t) :
  Z.of_nat (length values) <= kMaxVectorSize ->
  BigintValuesUsingHashTable.ctor kEmptyMarker M min max values nullAllowed
  = Ok h ->
  2 <= Z.of_nat (length values)
  /\ Z.of_nat (length (BigintValuesUsingHashTable.hashTable_ h))
     = 2 ^ Z.log2 (3 * Z.of_nat (length values))
  /\ Z.of_nat (length (BigintValuesUsingHashTable.hashTable_ h))
     <= 3 * Z.of_nat (length values)
     < 2 * Z.of_nat (length (BigintValuesUsingHashTable.hashTable_ h))
  /\ Z.of_nat (length values)
     < Z.of_nat (length (BigintValuesUsingHashTable.hashTable_ h)).
Proof.
  intros Hmax Hctor. unfold kMaxVectorSize in Hmax.
  set (n := Z.of_nat (length values)) in *.
  assert (Hpre : min < max /\ 1 < n
                 /\ BigintValuesUsingHashTable.tableExponent n < 32).
  { unfold BigintValuesUsingHashTable.ctor in Hctor. fold n in Hctor.
    destruct (Z.ltb_spec min max); [| discriminate].
    destruct (Z.ltb_spec 1 n); [| discriminate].
    destruct (Z.leb_spec 32 (BigintValuesUsingHashTable.tableExponent n));
      [discriminate |].
    auto. }
  destruct Hpre as (Hminmax & Hn & He).
  assert (Hsmall : 3 * n < 2 ^ 32).
  { unfold BigintValuesUsingHashTable.tableExponent in He.
    rewrite toUint64_id in He by lia.
    apply Z.log2_lt_pow2 in He; lia. }
  destruct (BigintValuesUsingHashTable_ctor_inv min max values nullAllowed
              Hminmax ltac:(lia) Hsmall)
    as (hashTable & inserted & flag & Hok & Hlen & _).
  rewrite Hok in Hctor. injection Hctor as <-. cbn. fold n in Hlen.
  destruct (tableSize_bounds n ltac:(lia) ltac:(lia)) as (Hsize & Hle & Hlt).
  rewrite Hlen. rewrite <- Hsize. lia.
Qed.

(** C10 (amended).  For every vector of at least two values (fewer than
    [2^32 / 3], so that the shift computing the size is defined) with
    [min < max] and every value between [min] and [max], the constructor
    returns a filter whose table is strictly larger than the vector; every
    value of
    the vector other than the marker is stored, each in a slot of its own
    that was empty; [containsEmptyMarker_] records whether the marker is a
    value; no lookup runs through the whole table; and [testInt64(v)] is
    [true] exactly for the values [v] of the vector. The values need not be
    distinct. *)
Theorem BigintValuesUsingHashTable_membership (min max : Z)
    (values : list Z) (nullAllowed : bool) :
  (2 <= length values)%nat ->
  3 * Z.of_nat (length values) < 2 ^ 32 ->
  min < max ->
  (forall x, x ∈ values -> min <= x <= max) ->
  exists h : BigintValuesUsingHashTable.t,
    BigintValuesUsingHashTable.ctor kEmptyMarker M min max values nullAllowed
    = Ok h
    /\ (length values < length (BigintValuesUsingHashTable.hashTable_ h))%nat
    /\ (forall x, x ∈ values -> x <> kEmptyMarker ->
                  x ∈ BigintValuesUsingHashTable.hashTable_ h)
    /\ (numEmpty kEmptyMarker (BigintValuesUsingHashTable.hashTable_ h)
        + length (filter (fun x => x <> kEmptyMarker) values)
        = length (BigintValuesUsingHashTable.hashTable_ h))%nat
    /\ (BigintValuesUsingHashTable.containsEmptyMarker_ h = true
        <-> kEmptyMarker ∈ values)
    /\ (forall v, BigintValuesUsingHashTable.lookup kEmptyMarker M h v
                  <> BigintValuesUsingHashTable.Exhausted)
    /\ (forall v, BigintValuesUsingHashTable.testInt64 kEmptyMarker M h v
                  = true <-> v ∈ values).
Proof.
  intros Hlen Hsmall Hminmax Hbounds.
  destruct (BigintValuesUsingHashTable_ctor_inv min max values nullAllowed
              Hminmax Hlen Hsmall)
    as (hashTable & inserted & flag & Hok & Hsize & Hinv & Hmem & Hcount
        & Hflag).
  set (n := Z.of_nat (length values)) in *.
  destruct (tableSize_bounds n ltac:(lia) ltac:(lia)) as (_ & Hle & Hlt).
  assert (He : 0 <= BigintValuesUsingHashTable.tableExponent n < 32).
  { split; [apply tableExponent_nonneg |].
    unfold BigintValuesUsingHashTable.tableExponent.
    rewrite toUint64_id by lia. apply Z.log2_lt_pow2; lia. }
  rewrite tableSize_pow2 in Hinv.
  set (e := BigintValuesUsingHashTable.tableExponent n) in *.
  pose proof Hinv as (HlenT & Hnot & Hpath & Hsub & Hnum).
  pose proof (length_filter (fun x => x <> kEmptyMarker) values) as Hfilter.
  assert (Hlarger : (length values < length hashTable)%nat) by lia.
  assert (Hfree : (0 < numEmpty kEmptyMarker hashTable)%nat) by lia.
  set (h := BigintValuesUsingHashTable.mk min max hashTable flag nullAllowed).
  exists h. split; [exact Hok |]. subst h.
  cbn [BigintValuesUsingHashTable.hashTable_
       BigintValuesUsingHashTable.containsEmptyMarker_].
  split; [exact Hlarger |]. split; [| split; [| split; [| split]]].
  - intros x Hx Hne.
    destruct (Hpath x (proj2 (Hmem x) (conj Hx Hne))) as (j & _ & Hstored & _).
    rewrite <- Hstored. apply list_elem_of_lookup_total_2.
    rewrite HlenT. apply slotOf_lt. exact He.
  - rewrite <- Hcount, HlenT. exact Hnum.
  - exact Hflag.
  - intros v. apply (lookup_not_Exhausted e He); assumption.
  - intros v.
    rewrite (testInt64_of_tableInv e He
               (BigintValuesUsingHashTable.mk min max hashTable flag
                  nullAllowed) inserted v Hinv).
    + cbn [BigintValuesUsingHashTable.containsEmptyMarker_].
      rewrite Hmem, Hflag. split.
      * intros [[Hin ->] | [Hin _]]; exact Hin.
      * intros Hin. destruct (decide (v = kEmptyMarker)) as [-> | Hne];
          [left | right]; auto.
    + intros x Hx. apply Hbounds, Hmem, Hx.
Qed.

(** ** createBigintValues *)

Lemma minMaxLoop_spec (values : list Z) :
  forall min max : Z,
    min <= max ->
    minMaxLoop values min max = (foldl Z.min min values, foldl Z.max max values).
Proof.
  induction values as [|value rest IH]; intros min max Hle; [reflexivity |].
  cbn [minMaxLoop foldl].
  destruct (Z.gtb_spec value max) as [Hgt | Hngt].
  - rewrite IH by lia. f_equal; f_equal; lia.
  - destruct (Z.ltb_spec value min) as [Hlt | Hnlt].
    + rewrite IH by lia. f_equal; f_equal; lia.
    + rewrite IH by lia. f_equal; f_equal; lia.
Qed.

Lemma foldl_min_spec (values : list Z) :
  forall acc : Z,
    (foldl Z.min acc values = acc \/ foldl Z.min acc values ∈ values)
    /\ foldl Z.min acc values <= acc
    /\ forall x, x ∈ values -> foldl Z.min acc values <= x.
Proof.
  induction values as [|value rest IH]; intros acc; cbn [foldl].
  - split; [left; reflexivity | split; [lia |]]. intros x Hx. inversion Hx.
  - destruct (IH (Z.min acc value)) as (Hmem & Hle & Hall).
    split; [| split].
    + destruct Hmem as [Heq | Hin].
      * rewrite Heq. destruct (Z.min_spec acc value) as [[_ ->] | [_ ->]];
          [left; reflexivity | right; left].
      * right. right. exact Hin.
    + lia.
    + intros x Hx. apply elem_of_cons in Hx as [-> | Hx]; [lia | auto].
Qed.

Lemma foldl_max_spec (values : list Z) :
  forall acc : Z,
    (foldl Z.max acc values = acc \/ foldl Z.max acc values ∈ values)
    /\ acc <= foldl Z.max acc values
    /\ forall x, x ∈ values -> x <= foldl Z.max acc values.
Proof.
  induction values as [|value rest IH]; intros acc; cbn [foldl].
  - split; [left; reflexivity | split; [lia |]]. intros x Hx. inversion Hx.
  - destruct (IH (Z.max acc value)) as (Hmem & Hle & Hall).
    split; [| split].
    + destruct Hmem as [Heq | Hin].
      * rewrite Heq. destruct (Z.max_spec acc value) as [[_ ->] | [_ ->]];
          [right; left | left; reflexivity].
      * right. right. exact Hin.
    + lia.
    + intros x Hx. apply elem_of_cons in Hx as [-> | Hx]; [lia | auto].
Qed.

(** [vectorMin] and [vectorMax] are the least and the greatest entry. *)
Lemma vectorMin_spec (front : Z) (rest : list Z) :
  vectorMin front rest ∈ front :: rest
  /\ forall x, x ∈ front :: rest -> vectorMin front rest <= x.
Proof.
  unfold vectorMin. destruct (foldl_min_spec rest front) as (Hmem & Hle & Hall).
  split.
  - destruct Hmem as [-> | Hin]; [left | right; exact Hin].
  - intros x Hx. apply elem_of_cons in Hx as [-> | Hx]; [exact Hle | auto].
Qed.

Lemma vectorMax_spec (front : Z) (rest : list Z) :
  vectorMax front rest ∈ front :: rest
  /\ forall x, x ∈ front :: rest -> x <= vectorMax front rest.
Proof.
  unfold vectorMax. destruct (foldl_max_spec rest front) as (Hmem & Hle & Hall).
  split.
  - destruct Hmem as [-> | Hin]; [left | right; exact Hin].
  - intros x Hx. apply elem_of_cons in Hx as [-> | Hx]; [exact Hle | auto].
Qed.

(** *** The bitmask constructor *)

Lemma setBits_spec (min : Z) (values : list Z) :
  forall bitmask : list bool,
    (forall v, v ∈ values -> 0 <= v - min < Z.of_nat (length bitmask)) ->
    exists bits,
      BigintValuesUsingBitmask.setBits min values bitmask = Ok bits
      /\ length bits = length bitmask
      /\ forall i : nat,
           (i < length bitmask)%nat ->
           (bits !!! i = true <->
            bitmask !!! i = true
            \/ exists v, v ∈ values /\ Z.to_nat (v - min) = i).
Proof.
  induction values as [|value rest IH]; intros bitmask Hrange.
  - exists bitmask. split; [reflexivity | split; [reflexivity |]].
    intros i Hi. split; [auto |]. intros [H | (v & Hv & _)]; [exact H |].
    inversion Hv.
  - cbn [BigintValuesUsingBitmask.setBits].
    pose proof (Hrange value ltac:(left)) as Hvalue.
    destruct (Z.leb_spec 0 (value - min)) as [_ | ?]; [| lia].
    destruct (Z.ltb_spec (value - min) (Z.of_nat (length bitmask)))
      as [_ | ?]; [| lia].
    cbn [andb].
    destruct (IH (<[Z.to_nat (value - min) := true]> bitmask))
      as (bits & Hok & Hlen & Hbits).
    { intros v Hv. rewrite length_insert. apply Hrange. right. exact Hv. }
    rewrite length_insert in Hlen, Hbits.
    exists bits. split; [exact Hok | split; [exact Hlen |]].
    intros i Hi. rewrite (Hbits i Hi).
    destruct (decide (Z.to_nat (value - min) = i)) as [Heq | Hne].
    + rewrite <- Heq at 1. rewrite list_lookup_total_insert_eq by lia.
      split; intros _; [| left; reflexivity].
      right. exists value. split; [left | exact Heq].
    + rewrite list_lookup_total_insert_ne by exact Hne. split.
      * intros [H | (v & Hv & Hi')]; [left; exact H |].
        right. exists v. split; [right; exact Hv | exact Hi'].
      * intros [H | (v & Hv & Hi')]; [left; exact H |].
        apply elem_of_cons in Hv as [-> | Hv]; [contradiction |].
        right. exists v. split; assumption.
Qed.

(** The constructor returns on values between [min] and [max], and the
    filter it builds accepts exactly the values of the vector. *)
Lemma BigintValuesUsingBitmask_ctor_spec (min max : Z) (values : list Z)
    (nullAllowed : bool) :
  min < max ->
  (2 <= length values)%nat ->
  int64 (max - min + 1) ->
  (forall v, v ∈ values -> min <= v <= max) ->
  exists b : BigintValuesUsingBitmask.t,
    BigintValuesUsingBitmask.ctor min max values nullAllowed = Ok b
    /\ BigintValuesUsingBitmask.min_ b = min
    /\ BigintValuesUsingBitmask.max_ b = max
    /\ BigintValuesUsingBitmask.nullAllowed_ b = nullAllowed
    /\ forall x, BigintValuesUsingBitmask.testInt64 b x = true <-> x ∈ values.
Proof.
  intros Hminmax Hlen Hint Hrange.
  destruct (setBits_spec min values
              (replicate (Z.to_nat (max - min + 1)) false))
    as (bits & Hok & Hlenb & Hbits).
  { intros v Hv. rewrite length_replicate. specialize (Hrange v Hv). lia. }
  rewrite length_replicate in Hlenb, Hbits.
  exists (BigintValuesUsingBitmask.mk bits min max nullAllowed).
  split; [| split; [reflexivity | split; [reflexivity | split;
                                          [reflexivity |]]]].
  - unfold BigintValuesUsingBitmask.ctor.
    destruct (Z.ltb_spec min max) as [_ | ?]; [| lia]. cbn [negb].
    destruct (Z.ltb_spec 1 (Z.of_nat (length values))) as [_ | ?]; [| lia].
    cbn [negb].
    rewrite (proj2 (isInt64_spec _) Hint). cbn [negb].
    rewrite Hok. reflexivity.
  - intros x. unfold BigintValuesUsingBitmask.testInt64. cbn.
    destruct (Z.ltb_spec x min) as [Hlt | Hge]; cbn.
    { split; [discriminate |]. intros Hx. specialize (Hrange x Hx). lia. }
    destruct (Z.gtb_spec x max) as [Hgt | Hle]; cbn.
    { split; [discriminate |]. intros Hx. specialize (Hrange x Hx). lia. }
    rewrite (Hbits (Z.to_nat (x - min))) by lia.
    rewrite lookup_total_replicate_2 by lia. split.
    + intros [? | (v & Hv & Heq)]; [discriminate |].
      specialize (Hrange v Hv). replace x with v by lia. exact Hv.
    + intros Hx. right. exists x. split; [exact Hx | reflexivity].
Qed.

Lemma toUint64_toInt64 (z : Z) : toUint64 (toInt64 z) = z mod 2 ^ 64.
Proof.
  unfold toUint64, toInt64.
  rewrite <- Zminus_mod_idemp_l, Z.mod_mod by lia.
  rewrite Zminus_mod_idemp_l. f_equal. lia.
Qed.

(** The factory on two or more values, with the loop replaced by the
    extremes it computes. *)
Lemma createBigintValues_unfold (front second : Z) (rest : list Z)
    (nullAllowed : bool) :
  let values := front :: second :: rest in
  let min := vectorMin front (second :: rest) in
  let max := vectorMax front (second :: rest) in
  createBigintValues values nullAllowed
  = if isInt64 (max - min) && (toUint64 (toInt64 (toInt64 (max - min) + 1))
                               =? Z.of_nat (length values))
    then Ok (OfBigintRange (BigintRange.mk min max nullAllowed))
    else if isInt64 (max - min)
            && ((toInt64 (max - min) <? 32 * 64)
                || (toUint64 (toInt64 (max - min))
                    <? toUint64 (Z.of_nat (length values) * 4 * 64)))
    then OfBigintValuesUsingBitmask <$>
           BigintValuesUsingBitmask.ctor min max values nullAllowed
    else OfBigintValuesUsingHashTable <$>
           BigintValuesUsingHashTable.ctor kEmptyMarker M
             min max values nullAllowed.
Proof.
  intros values min max. subst values. unfold createBigintValues.
  lazy beta iota. rewrite minMaxLoop_spec by lia. fold (vectorMin front (second :: rest)).
  fold (vectorMax front (second :: rest)). fold min. fold max.
  unfold sub_overflow. rewrite negb_involutive. reflexivity.
Qed.

Lemma chooseRepresentation_code (min max n : Z) :
  min <= max -> 0 <= n < 2 ^ 56 ->
  chooseRepresentation min max n
  = if isInt64 (max - min) && (toUint64 (toInt64 (toInt64 (max - min) + 1))
                               =? n)
    then ChooseBigintRange
    else if isInt64 (max - min)
            && ((toInt64 (max - min) <? 32 * 64)
                || (toUint64 (toInt64 (max - min)) <? toUint64 (n * 4 * 64)))
    then ChooseBitmask
    else ChooseHashTable.
Proof.
  intros Hle Hn. unfold chooseRepresentation. rewrite negb_involutive.
  destruct (isInt64 (max - min)) eqn:Hint; [| reflexivity]. cbn [andb].
  apply isInt64_spec in Hint. rewrite (toInt64_id _ Hint).
  unfold int64, kInt64Min, kInt64Max in Hint.
  rewrite toUint64_toInt64, (Z.mod_small (max - min + 1)) by lia.
  rewrite (toUint64_id (max - min)) by lia.
  rewrite (toUint64_id (n * 4 * 64)) by lia. reflexivity.
Qed.

(** C2 (amended).  [createBigintValues(values, nullAllowed)] returns
    [IsNull] or [AlwaysFalse] on the empty vector and
    [BigintRange(v, v, nullAllowed)] on a single value.  On two or more
    values (fewer than [2^32 / 3]) that are not all equal, with [min] and
    [max] their extremes and [range = max - min], it returns
    [BigintRange(min, max, nullAllowed)] if [range] does not overflow and
    [range + 1] is the number of values; else a [BigintValuesUsingBitmask]
    over [min .. max] if [range] does not overflow and is below [32 * 64]
    or below [4 * 64] times the number of values; else a
    [BigintValuesUsingHashTable]. *)
Theorem createBigintValues_spec (values : list Z) (nullAllowed : bool) :
  3 * Z.of_nat (length values) < 2 ^ 32 ->
  match values with
  | [] =>
      createBigintValues values nullAllowed
      = Ok (if nullAllowed then IsNull else AlwaysFalse)
  | [v] =>
      createBigintValues values nullAllowed
      = Ok (OfBigintRange (BigintRange.mk v v nullAllowed))
  | front :: rest =>
      let min := vectorMin front rest in
      let max := vectorMax front rest in
      min < max ->
      match chooseRepresentation min max (Z.of_nat (length values)) with
      | ChooseBigintRange =>
          createBigintValues values nullAllowed
          = Ok (OfBigintRange (BigintRange.mk min max nullAllowed))
      | ChooseBitmask =>
          exists b : BigintValuesUsingBitmask.t,
            createBigintValues values nullAllowed
            = Ok (OfBigintValuesUsingBitmask b)
            /\ BigintValuesUsingBitmask.min_ b = min
            /\ BigintValuesUsingBitmask.max_ b = max
            /\ BigintValuesUsingBitmask.nullAllowed_ b = nullAllowed
      | ChooseHashTable =>
          exists h : BigintValuesUsingHashTable.t,
            createBigintValues values nullAllowed
            = Ok (OfBigintValuesUsingHashTable h)
            /\ BigintValuesUsingHashTable.min_ h = min
            /\ BigintValuesUsingHashTable.max_ h = max
            /\ BigintValuesUsingHashTable.nullAllowed_ h = nullAllowed
      end
  end.
Proof.
  intros Hsmall.
  destruct values as [|front [|second rest]]; [reflexivity | reflexivity |].
  intros min max Hminmax.
  rewrite (createBigintValues_unfold front second rest nullAllowed).
  fold min max.
  set (values := front :: second :: rest) in *.
  assert (Hn : 2 <= Z.of_nat (length values)) by (cbn [length values]; lia).
  rewrite chooseRepresentation_code by lia.
  destruct (isInt64 (max - min)
            && (toUint64 (toInt64 (toInt64 (max - min) + 1))
                =? Z.of_nat (length values))); [reflexivity |].
  destruct (isInt64 (max - min)
            && ((toInt64 (max - min) <? 32 * 64)
                || (toUint64 (toInt64 (max - min))
                    <? toUint64 (Z.of_nat (length values) * 4 * 64))))
    eqn:Hdense.
  - apply andb_true_iff in Hdense as [Hint Hdense].
    apply isInt64_spec in Hint. rewrite (toInt64_id _ Hint) in Hdense.
    unfold int64, kInt64Min, kInt64Max in Hint.
    rewrite toUint64_id in Hdense by lia.
    rewrite toUint64_id in Hdense by lia.
    destruct (BigintValuesUsingBitmask_ctor_spec min max values nullAllowed)
      as (b & Hok & Hmin & Hmax & Hnull & _).
    + exact Hminmax.
    + lia.
    + unfold int64, kInt64Min, kInt64Max.
      apply orb_true_iff in Hdense as [Hd | Hd]; lia.
    + intros v Hv. split.
      * apply (proj2 (vectorMin_spec front (second :: rest))). exact Hv.
      * apply (proj2 (vectorMax_spec front (second :: rest))). exact Hv.
    + exists b. rewrite Hok. auto.
  - destruct (BigintValuesUsingHashTable_ctor_inv min max values nullAllowed
                Hminmax ltac:(lia) Hsmall)
      as (hashTable & inserted & flag & Hok & _).
    eexists. rewrite Hok. cbn. auto.
Qed.

(** ** Normalised results *)

Lemma elem_of_List_filter (f : Z -> bool) (l : list Z) (x : Z) :
  x ∈ List.filter f l <-> x ∈ l /\ f x = true.
Proof. rewrite !list_elem_of_In. apply filter_In. Qed.

Lemma NoDup_List_filter (f : Z -> bool) (l : list Z) :
  NoDup l -> NoDup (List.filter f l).
Proof. rewrite !NoDup_ListNoDup. apply List.NoDup_filter. Qed.

Lemma NoDup_List_filter_impl (f g : Z -> bool) (l : list Z) :
  (forall x, g x = true -> f x = true) ->
  NoDup (List.filter f l) -> NoDup (List.filter g l).
Proof.
  intros Himpl. induction l as [|x l IH]; [auto |]. cbn [List.filter].
  destruct (g x) eqn:Hg.
  - rewrite (Himpl x Hg). rewrite !NoDup_cons. intros [Hnotin Hnodup].
    split; [| auto]. rewrite elem_of_List_filter in *.
    intros [Hin _]. apply Hnotin. split; [exact Hin |].
    destruct (f x) eqn:Hf; [reflexivity |].
    rewrite (Himpl x Hg) in Hf. discriminate.
  - destruct (f x); [| exact IH]. rewrite NoDup_cons. intros [_ H]. auto.
Qed.

(** Between the extremes of a vector of distinct values that is not
    contiguous, some integer is missing. *)
Lemma missing_value (values : list Z) (min max : Z) :
  NoDup values ->
  (forall v, v ∈ values -> min <= v <= max) ->
  min <= max ->
  Z.of_nat (length values) <> max - min + 1 ->
  exists x, min <= x <= max /\ x ∉ values.
Proof.
  intros Hnodup Hrange Hle Hlen.
  assert (Hsub : values ⊆+ seqZ min (max - min + 1)).
  { apply NoDup_submseteq; [exact Hnodup |].
    intros v Hv. apply elem_of_seqZ. specialize (Hrange v Hv). lia. }
  apply submseteq_length in Hsub. rewrite length_seqZ in Hsub.
  destruct (decide (Forall (fun x => x ∈ values) (seqZ min (max - min + 1))))
    as [Hall | Hnot].
  - exfalso.
    assert (Hsup : seqZ min (max - min + 1) ⊆+ values).
    { apply NoDup_submseteq; [apply NoDup_seqZ |].
      apply Forall_forall. exact Hall. }
    apply submseteq_length in Hsup. rewrite length_seqZ in Hsup. lia.
  - apply not_Forall_Exists in Hnot; [| intros x; apply _].
    apply Exists_exists in Hnot as (x & Hx & Hmiss).
    apply elem_of_seqZ in Hx. exists x. split; [lia | exact Hmiss].
Qed.

Lemma fmap_Ok_inv {A B : Type} (f : A -> B) (r : Result A) (b : B) :
  f <$> r = Ok b -> exists a, r = Ok a /\ b = f a.
Proof.
  destruct r as [a | e]; cbn; [| discriminate].
  intros [= <-]. exists a. auto.
Qed.

Lemma bind_Ok_inv {A B : Type} (k : A -> Result B) (r : Result A) (b : B) :
  (r ≫= k) = Ok b -> exists a, r = Ok a /\ k a = Ok b.
Proof.
  destruct r as [a | e]; cbn; [| discriminate]. intros H. exists a. auto.
Qed.

(** The factory on distinct values returns a normalised filter. *)
Lemma createBigintValues_normalised (values : list Z) (nullAllowed : bool)
    (r : Filter) :
  NoDup values ->
  createBigintValues values nullAllowed = Ok r ->
  normalised r.
Proof.
  intros Hnodup Hcreate.
  destruct values as [|front [|second rest]].
  - injection Hcreate as <-. destruct nullAllowed; exact I.
  - injection Hcreate as <-. exact I.
  - rewrite (createBigintValues_unfold front second rest nullAllowed)
      in Hcreate.
    set (values := front :: second :: rest) in *.
    set (min := vectorMin front (second :: rest)) in *.
    set (max := vectorMax front (second :: rest)) in *.
    destruct (isInt64 (max - min)
              && (toUint64 (toInt64 (toInt64 (max - min) + 1))
                  =? Z.of_nat (length values))) eqn:Hcontig.
    { injection Hcreate as <-. exact I. }
    destruct (isInt64 (max - min) && _) eqn:Hdense in Hcreate.
    + apply fmap_Ok_inv in Hcreate as (b & Hctor & ->).
      apply andb_true_iff in Hdense as [Hint _].
      rewrite Hint in Hcontig. cbn [andb] in Hcontig.
      apply isInt64_spec in Hint. rewrite (toInt64_id _ Hint) in Hcontig.
      assert (Hpre : min < max /\ int64 (max - min + 1)).
      { unfold BigintValuesUsingBitmask.ctor in Hctor.
        destruct (Z.ltb_spec min max); [| discriminate].
        destruct (negb (1 <? _)); [discriminate |].
        destruct (isInt64 (max - min + 1)) eqn:Hint'; [| discriminate].
        apply isInt64_spec in Hint'. auto. }
      destruct Hpre as [Hminmax Hint'].
      assert (Hrange : forall v, v ∈ values -> min <= v <= max).
      { intros v Hv. split.
        - apply (proj2 (vectorMin_spec front (second :: rest))). exact Hv.
        - apply (proj2 (vectorMax_spec front (second :: rest))). exact Hv. }
      destruct (BigintValuesUsingBitmask_ctor_spec min max values nullAllowed
                  Hminmax ltac:(cbn [length values]; lia) Hint' Hrange)
        as (b' & Hok & _ & _ & _ & Htest).
      rewrite Hok in Hctor. injection Hctor as ->.
      unfold int64, kInt64Min, kInt64Max in Hint'.
      rewrite toUint64_toInt64, Z.mod_small in Hcontig by lia.
      apply Z.eqb_neq in Hcontig.
      destruct (missing_value values min max Hnodup Hrange ltac:(lia)
                  ltac:(lia)) as (x & Hx & Hmiss).
      cbn. intros (lo & hi & Hset).
      pose proof (proj1 (vectorMin_spec front (second :: rest))) as Hmin.
      pose proof (proj1 (vectorMax_spec front (second :: rest))) as Hmax.
      fold min values in Hmin. fold max values in Hmax.
      apply Htest, Hset in Hmin. apply Htest, Hset in Hmax.
      apply Hmiss, Htest, Hset. lia.
    + apply fmap_Ok_inv in Hcreate as (h & _ & ->). exact I.
Qed.

(** *** The values kept by a merge are distinct *)

Lemma int64Loop_NoDup (min max : Z) (indices : list Z) :
  int64Loop min max = Ok indices -> NoDup indices.
Proof.
  unfold int64Loop. destruct (max <? min).
  - intros [= <-]. apply NoDup_nil. exact I.
  - destruct (max =? kInt64Max); [discriminate |].
    intros [= <-]. apply NoDup_seqZ.
Qed.

Lemma BigintValuesUsingBitmask_keep_spec (this : BigintValuesUsingBitmask.t)
    (test : Z -> bool) (min max : Z) (kept : list Z) :
  BigintValuesUsingBitmask_keep this test min max = Ok kept ->
  NoDup kept /\ forall x, x ∈ kept -> test x = true.
Proof.
  unfold BigintValuesUsingBitmask_keep. intros H.
  apply bind_Ok_inv in H as (indices & Hloop & [= <-]).
  split.
  - apply NoDup_List_filter. exact (int64Loop_NoDup _ _ _ Hloop).
  - intros x Hx. apply elem_of_List_filter in Hx as [_ Hx].
    apply andb_true_iff in Hx. tauto.
Qed.

Lemma disjointRanges_cons (range : BigintRange.t)
    (rest : list BigintRange.t) :
  disjointRanges (range :: rest) ->
  disjointRanges rest
  /\ forall later, later ∈ rest ->
                   BigintRange.upper_ range < BigintRange.lower_ later.
Proof.
  intros Hdis. split.
  - intros i j ri rj Hij Hi Hj.
    apply (Hdis (S i) (S j) ri rj); [lia | exact Hi | exact Hj].
  - intros later Hin. apply list_elem_of_lookup in Hin as [j Hj].
    apply (Hdis 0%nat (S j) range later); [lia | reflexivity | exact Hj].
Qed.

Lemma testInt64_range_bounds (range : BigintRange.t) (x : Z) :
  BigintRange.testInt64 range x = true
  <-> BigintRange.lower_ range <= x <= BigintRange.upper_ range.
Proof.
  unfold BigintRange.testInt64. rewrite andb_true_iff, !Z.leb_le. reflexivity.
Qed.

Lemma BigintValuesUsingBitmask_keepRanges_spec
    (this : BigintValuesUsingBitmask.t) (ranges : list BigintRange.t) :
  forall kept : list Z,
    BigintValuesUsingBitmask_keepRanges this ranges = Ok kept ->
    disjointRanges ranges ->
    NoDup kept
    /\ forall x, x ∈ kept ->
                 exists range, range ∈ ranges
                               /\ BigintRange.testInt64 range x = true.
Proof.
  induction ranges as [|range rest IH]; intros kept Hkeep Hdis.
  - injection Hkeep as <-. split; [apply NoDup_nil; exact I |].
    intros x Hx. inversion Hx.
  - cbn [BigintValuesUsingBitmask_keepRanges] in Hkeep.
    apply bind_Ok_inv in Hkeep as (here & Hhere & Hkeep).
    apply bind_Ok_inv in Hkeep as (later & Hlater & [= <-]).
    apply BigintValuesUsingBitmask_keep_spec in Hhere as [Hnd Htest].
    apply disjointRanges_cons in Hdis as [Hdis Hbefore].
    destruct (IH later Hlater Hdis) as [Hnd' Hin'].
    split.
    + apply NoDup_app. split; [exact Hnd | split; [| exact Hnd']].
      intros x Hx Hx'. apply Htest, testInt64_range_bounds in Hx.
      destruct (Hin' x Hx') as (range' & Hr' & Ht').
      apply testInt64_range_bounds in Ht'. specialize (Hbefore range' Hr').
      lia.
    + intros x Hx. apply elem_of_app in Hx as [Hx | Hx].
      * exists range. split; [left | auto].
      * destruct (Hin' x Hx) as (range' & Hr' & Ht').
        exists range'. split; [right; exact Hr' | exact Ht'].
Qed.

Lemma BigintValuesUsingHashTable_keep_spec
    (this : BigintValuesUsingHashTable.t) (test : Z -> bool) :
  NoDup (storedValues kEmptyMarker this) ->
  NoDup (BigintValuesUsingHashTable_keep kEmptyMarker this test)
  /\ forall x, x ∈ BigintValuesUsingHashTable_keep kEmptyMarker this test ->
               x <> kEmptyMarker /\ test x = true.
Proof.
  intros Hnd. unfold BigintValuesUsingHashTable_keep. split.
  - apply (NoDup_List_filter_impl (fun v => negb (v =? kEmptyMarker)));
      [| exact Hnd].
    intros x Hx. apply andb_true_iff in Hx. tauto.
  - intros x Hx. apply elem_of_List_filter in Hx as [_ Hx].
    apply andb_true_iff in Hx as [Hne Ht]. split; [| exact Ht].
    apply negb_true_iff, Z.eqb_neq in Hne. exact Hne.
Qed.

Lemma BigintValuesUsingHashTable_keepMarker_NoDup
    (this : BigintValuesUsingHashTable.t) (other : Filter) (kept : list Z) :
  NoDup kept ->
  (forall x, x ∈ kept -> x <> kEmptyMarker) ->
  NoDup (BigintValuesUsingHashTable_keepMarker kEmptyMarker M this other
         ++ kept).
Proof.
  intros Hnd Hne. unfold BigintValuesUsingHashTable_keepMarker.
  destruct (_ && _); [| exact Hnd].
  cbn. apply NoDup_cons. split; [| exact Hnd].
  intros Hin. exact (Hne _ Hin eq_refl).
Qed.

Lemma BigintValuesUsingHashTable_keepRanges_spec
    (this : BigintValuesUsingHashTable.t) (ranges : list BigintRange.t) :
  NoDup (storedValues kEmptyMarker this) ->
  disjointRanges ranges ->
  NoDup (BigintValuesUsingHashTable_keepRanges kEmptyMarker this ranges)
  /\ forall x,
       x ∈ BigintValuesUsingHashTable_keepRanges kEmptyMarker this ranges ->
       x <> kEmptyMarker
       /\ exists range, range ∈ ranges
                        /\ BigintRange.testInt64 range x = true.
Proof.
  intros Hstored. induction ranges as [|range rest IH]; intros Hdis.
  - cbn. split; [apply NoDup_nil; exact I |]. intros x Hx. inversion Hx.
  - cbn [BigintValuesUsingHashTable_keepRanges].
    apply disjointRanges_cons in Hdis as [Hdis Hbefore].
    destruct (IH Hdis) as [Hnd' Hin'].
    destruct (BigintValuesUsingHashTable_keep_spec this
                (BigintRange.testInt64 range) Hstored) as [Hnd Htest].
    set (here := if _ <=? _ then _ else []).
    assert (Hhere : NoDup here
                    /\ forall x, x ∈ here ->
                                 x <> kEmptyMarker
                                 /\ BigintRange.testInt64 range x = true).
    { subst here. destruct (_ <=? _); [split; assumption |].
      split; [apply NoDup_nil; exact I |]. intros x Hx. inversion Hx. }
    destruct Hhere as [Hndh Htesth]. split.
    + apply NoDup_app. split; [exact Hndh | split; [| exact Hnd']].
      intros x Hx Hx'. apply Htesth in Hx as [_ Hx].
      apply testInt64_range_bounds in Hx.
      destruct (Hin' x Hx') as (_ & range' & Hr' & Ht').
      apply testInt64_range_bounds in Ht'. specialize (Hbefore range' Hr').
      lia.
    + intros x Hx. apply elem_of_app in Hx as [Hx | Hx].
      * destruct (Htesth x Hx) as [Hne Ht]. split; [exact Hne |].
        exists range. split; [left | exact Ht].
      * destruct (Hin' x Hx) as (Hne & range' & Hr' & Ht').
        split; [exact Hne |].
        exists range'. split; [right; exact Hr' | exact Ht'].
Qed.

(** *** Results that copy an operand or go through a constructor *)

Lemma BigintMultiRange_ctor_normalised (ranges : list BigintRange.t)
    (nullAllowed : bool) (r : Filter) :
  OfBigintMultiRange <$> BigintMultiRange.ctor ranges nullAllowed = Ok r ->
  normalised r.
Proof.
  intros H. apply fmap_Ok_inv in H as (m & Hctor & ->).
  apply BigintMultiRange_ctor_Ok in Hctor as (-> & _ & Hlen). cbn. lia.
Qed.

Lemma contiguous_bitmask_copy (b : BigintValuesUsingBitmask.t)
    (nullAllowed : bool) :
  ~ contiguous (BigintValuesUsingBitmask.testInt64 b) ->
  ~ contiguous
      (BigintValuesUsingBitmask.testInt64
         (BigintValuesUsingBitmask.mk
            (BigintValuesUsingBitmask.bitmask_ b)
            (BigintValuesUsingBitmask.min_ b)
            (BigintValuesUsingBitmask.max_ b) nullAllowed)).
Proof. destruct b. exact (fun H => H). Qed.

Lemma clone_normalised (f r : Filter) (nullAllowed : option bool) :
  clone f nullAllowed = Ok r -> normalised f -> normalised r.
Proof.
  destruct f; cbn [clone]; intros Hclone Hnorm;
    try (injection Hclone as <-; exact I).
  - injection Hclone as <-. cbn in Hnorm |- *.
    apply contiguous_bitmask_copy. exact Hnorm.
  - exact (BigintMultiRange_ctor_normalised _ _ _ Hclone).
Qed.

Lemma combineBigintRanges_normalised (ranges : list BigintRange.t)
    (nullAllowed : bool) (r : Filter) :
  combineBigintRanges ranges nullAllowed = Ok r -> normalised r.
Proof.
  destruct ranges as [|front [|second rest]]; cbn [combineBigintRanges].
  - intros [= <-]. destruct nullAllowed; exact I.
  - intros [= <-]. exact I.
  - apply BigintMultiRange_ctor_normalised.
Qed.

Lemma IsNull_mergeWith_normalised (other r : Filter) :
  IsNull_mergeWith other = Ok r -> normalised r.
Proof.
  unfold IsNull_mergeWith. destruct (testNull other); intros [= <-]; exact I.
Qed.

Lemma nullOrFalse_normalised (nullAllowed : bool) :
  normalised (nullOrFalse nullAllowed).
Proof. destruct nullAllowed; exact I. Qed.

(** *** One lemma for each class *)

Lemma BoolValue_mergeWith_normalised (this : BoolValue.t) (other r : Filter) :
  BoolValue_mergeWith this other = Ok r -> normalised r.
Proof.
  destruct other; cbn [BoolValue_mergeWith AlwaysFalse_mergeWith
                       AlwaysTrue_mergeWith clone];
    try discriminate; try (intros [= <-]; exact I).
  - apply IsNull_mergeWith_normalised.
  - destruct (testBool _ _); intros [= <-];
      [exact I | apply nullOrFalse_normalised].
Qed.

Lemma BigintValuesUsingBitmask_mergeWith_range_normalised
    (this : BigintValuesUsingBitmask.t) (min max : Z) (other r : Filter) :
  BigintValuesUsingBitmask_mergeWith_range kEmptyMarker M this min max other
  = Ok r ->
  normalised r.
Proof.
  unfold BigintValuesUsingBitmask_mergeWith_range. intros H.
  apply bind_Ok_inv in H as (kept & Hkept & Hcreate).
  apply BigintValuesUsingBitmask_keep_spec in Hkept as [Hnd _].
  exact (createBigintValues_normalised _ _ _ Hnd Hcreate).
Qed.

Lemma BigintValuesUsingBitmask_mergeWith_normalised
    (this : BigintValuesUsingBitmask.t) (other r : Filter) :
  normalised (OfBigintValuesUsingBitmask this) ->
  normalisedOperand kEmptyMarker other ->
  BigintValuesUsingBitmask_mergeWith kEmptyMarker M this other = Ok r ->
  normalised r.
Proof.
  intros Hthis [Hother Hextra].
  destruct other; cbn [BigintValuesUsingBitmask_mergeWith
                       AlwaysFalse_mergeWith AlwaysTrue_mergeWith];
    try discriminate;
    try apply BigintValuesUsingBitmask_mergeWith_range_normalised.
  - intros [= <-]. exact I.
  - intros H. exact (clone_normalised _ _ _ H Hthis).
  - apply IsNull_mergeWith_normalised.
  - intros [= <-]. cbn in Hthis |- *.
    apply contiguous_bitmask_copy. exact Hthis.
  - intros H. apply bind_Ok_inv in H as (kept & Hkept & Hcreate).
    destruct (BigintValuesUsingBitmask_keepRanges_spec _ _ _ Hkept Hextra)
      as [Hnd _].
    exact (createBigintValues_normalised _ _ _ Hnd Hcreate).
Qed.

Lemma BigintValuesUsingHashTable_mergeWith_range_normalised
    (this : BigintValuesUsingHashTable.t) (min max : Z) (other r : Filter) :
  NoDup (storedValues kEmptyMarker this) ->
  BigintValuesUsingHashTable_mergeWith_range kEmptyMarker M this min max other
  = Ok r ->
  normalised r.
Proof.
  intros Hstored. unfold BigintValuesUsingHashTable_mergeWith_range.
  destruct (max <? min); [intros [= <-]; apply nullOrFalse_normalised |].
  destruct (max =? min).
  - destruct (_ && _); intros [= <-];
      [exact I | apply nullOrFalse_normalised].
  - apply createBigintValues_normalised.
    destruct (BigintValuesUsingHashTable_keep_spec this (testInt64 other)
                Hstored) as [Hnd Hne].
    apply BigintValuesUsingHashTable_keepMarker_NoDup; [exact Hnd |].
    intros x Hx. apply (Hne x Hx).
Qed.

Lemma BigintValuesUsingHashTable_mergeWith_normalised
    (this : BigintValuesUsingHashTable.t) (other r : Filter) :
  normalisedOperand kEmptyMarker (OfBigintValuesUsingHashTable this) ->
  normalisedOperand kEmptyMarker other ->
  BigintValuesUsingHashTable_mergeWith kEmptyMarker M this other = Ok r ->
  normalised r.
Proof.
  intros Hthis [Hother Hextra]. pose proof Hthis as [_ Hstored].
  destruct other; cbn [BigintValuesUsingHashTable_mergeWith
                       AlwaysFalse_mergeWith AlwaysTrue_mergeWith clone];
    try discriminate;
    try (apply BigintValuesUsingHashTable_mergeWith_range_normalised;
         exact Hstored);
    try (intros [= <-]; exact I).
  - apply IsNull_mergeWith_normalised.
  - apply BigintValuesUsingBitmask_mergeWith_normalised;
      [exact Hother | exact Hthis].
  - apply createBigintValues_normalised.
    destruct (BigintValuesUsingHashTable_keepRanges_spec this _ Hstored Hextra)
      as [Hnd Hne].
    apply BigintValuesUsingHashTable_keepMarker_NoDup; [exact Hnd |].
    intros x Hx. apply (Hne x Hx).
Qed.

Lemma BigintRange_mergeWith_normalised (this : BigintRange.t)
    (other r : Filter) :
  normalisedOperand kEmptyMarker other ->
  BigintRange_mergeWith kEmptyMarker M this other = Ok r ->
  normalised r.
Proof.
  intros Hother. pose proof Hother as [Hnorm Hextra].
  destruct other; cbn [BigintRange_mergeWith AlwaysFalse_mergeWith
                       AlwaysTrue_mergeWith clone];
    try discriminate; try (intros [= <-]; exact I).
  - apply IsNull_mergeWith_normalised.
  - intros [= <-]. unfold BigintRange_mergeWith_BigintRange.
    destruct (_ <=? _); [exact I | apply nullOrFalse_normalised].
  - apply BigintValuesUsingHashTable_mergeWith_normalised;
      [exact Hother | split; exact I].
  - apply BigintValuesUsingBitmask_mergeWith_normalised;
      [exact Hnorm | split; exact I].
  - intros H. apply bind_Ok_inv in H as (newRanges & _ & Hcombine).
    exact (combineBigintRanges_normalised _ _ _ Hcombine).
Qed.

Lemma BigintMultiRange_mergeWith_normalised (this : BigintMultiRange.t)
    (other r : Filter) :
  normalisedOperand kEmptyMarker (OfBigintMultiRange this) ->
  normalisedOperand kEmptyMarker other ->
  BigintMultiRange_mergeWith kEmptyMarker M this other = Ok r ->
  normalised r.
Proof.
  intros Hthis Hother. pose proof Hother as [Hnorm Hextra].
  destruct other; cbn [BigintMultiRange_mergeWith AlwaysFalse_mergeWith
                       AlwaysTrue_mergeWith];
    try discriminate.
  - intros [= <-]. exact I.
  - intros H. exact (clone_normalised _ _ _ H (proj1 Hthis)).
  - apply IsNull_mergeWith_normalised.
  - apply BigintMultiRange_ctor_normalised.
  - apply BigintRange_mergeWith_normalised. exact Hthis.
  - apply BigintValuesUsingHashTable_mergeWith_normalised;
      [exact Hother | exact Hthis].
  - apply BigintValuesUsingBitmask_mergeWith_normalised;
      [exact Hnorm | exact Hthis].
  - intros H. apply bind_Ok_inv in H as (newRanges & _ & H).
    destruct newRanges as [|front [|second rest]].
    + injection H as <-. apply nullOrFalse_normalised.
    + injection H as <-. exact I.
    + exact (BigintMultiRange_ctor_normalised _ _ _ H).
Qed.

Lemma IsNotNull_mergeWith_normalised (other r : Filter) :
  normalisedOperand kEmptyMarker other ->
  IsNotNull_mergeWith kEmptyMarker M other = Ok r ->
  normalised r.
Proof.
  intros Hother. pose proof Hother as [Hnorm _].
  assert (Hnn : normalisedOperand kEmptyMarker IsNotNull) by (split; exact I).
  destruct other; cbn [IsNotNull_mergeWith clone].
  - intros [= <-]. exact I.
  - intros [= <-]. exact I.
  - intros [= <-]. exact I.
  - intros [= <-]. exact I.
  - apply BoolValue_mergeWith_normalised.
  - apply BigintRange_mergeWith_normalised. exact Hnn.
  - apply BigintValuesUsingHashTable_mergeWith_normalised;
      [exact Hother | exact Hnn].
  - apply BigintValuesUsingBitmask_mergeWith_normalised;
      [exact Hnorm | exact Hnn].
  - apply BigintMultiRange_mergeWith_normalised; [exact Hother | exact Hnn].
Qed.

(** C7 (amended).  On operands that are themselves normalised (no bitmask
    over a contiguous set, no multi-range of a single child), with each
    value of a hash table stored once and the children of a multi-range
    apart from each other, every [mergeWith] call that returns returns a
    normalised result: never a [BigintMultiRange] of exactly one child,
    never a [BigintValuesUsingBitmask] over a contiguous set. *)
Theorem mergeWith_normalised (a b r : Filter) :
  normalisedOperand kEmptyMarker a ->
  normalisedOperand kEmptyMarker b ->
  mergeWith a b = Ok r ->
  normalised r.
Proof.
  intros Ha Hb. pose proof Hb as [Hbnorm _].
  unfold mergeWith.
  destruct a; cbn [AlwaysFalse_mergeWith AlwaysTrue_mergeWith].
  - intros [= <-]. exact I.
  - intros H. exact (clone_normalised _ _ _ H Hbnorm).
  - apply IsNull_mergeWith_normalised.
  - apply IsNotNull_mergeWith_normalised. exact Hb.
  - apply BoolValue_mergeWith_normalised.
  - apply BigintRange_mergeWith_normalised. exact Hb.
  - apply BigintValuesUsingHashTable_mergeWith_normalised; assumption.
  - apply BigintValuesUsingBitmask_mergeWith_normalised;
      [exact (proj1 Ha) | exact Hb].
  - apply BigintMultiRange_mergeWith_normalised; assumption.
Qed.

(** ** The null domain of a merge *)

Lemma nullOrFalse_testNull (nullAllowed : bool) :
  testNull (nullOrFalse nullAllowed) = nullAllowed.
Proof. destruct nullAllowed; reflexivity. Qed.

Lemma BigintValuesUsingBitmask_ctor_nullAllowed (min max : Z)
    (values : list Z) (nullAllowed : bool) (b : BigintValuesUsingBitmask.t) :
  BigintValuesUsingBitmask.ctor min max values nullAllowed = Ok b ->
  BigintValuesUsingBitmask.nullAllowed_ b = nullAllowed.
Proof.
  unfold BigintValuesUsingBitmask.ctor.
  destruct (negb (min <? max)); [discriminate |].
  destruct (negb (1 <? _)); [discriminate |].
  destruct (negb (isInt64 _)); [discriminate |].
  intros H. apply bind_Ok_inv in H as (bits & _ & [= <-]). reflexivity.
Qed.

Lemma BigintValuesUsingHashTable_ctor_nullAllowed (min max : Z)
    (values : list Z) (nullAllowed : bool) (h : BigintValuesUsingHashTable.t) :
  BigintValuesUsingHashTable.ctor kEmptyMarker M min max values nullAllowed
  = Ok h ->
  BigintValuesUsingHashTable.nullAllowed_ h = nullAllowed.
Proof.
  unfold BigintValuesUsingHashTable.ctor.
  destruct (negb (min <? max)); [discriminate |].
  destruct (negb (1 <? _)); [discriminate |].
  destruct (32 <=? _); [discriminate |].
  intros [= <-]. reflexivity.
Qed.

Lemma BigintMultiRange_ctor_testNull (ranges : list BigintRange.t)
    (nullAllowed : bool) (r : Filter) :
  OfBigintMultiRange <$> BigintMultiRange.ctor ranges nullAllowed = Ok r ->
  testNull r = nullAllowed.
Proof.
  intros H. apply fmap_Ok_inv in H as (m & Hctor & ->).
  apply BigintMultiRange_ctor_Ok in Hctor as (-> & _). reflexivity.
Qed.

Lemma createBigintValues_testNull (values : list Z) (nullAllowed : bool)
    (r : Filter) :
  createBigintValues values nullAllowed = Ok r -> testNull r = nullAllowed.
Proof.
  intros Hcreate. destruct values as [|front [|second rest]].
  - injection Hcreate as <-. apply nullOrFalse_testNull.
  - injection Hcreate as <-. reflexivity.
  - rewrite (createBigintValues_unfold front second rest nullAllowed)
      in Hcreate.
    destruct (isInt64 _ && (_ =? _)); [injection Hcreate as <-; reflexivity |].
    destruct (isInt64 _ && _).
    + apply fmap_Ok_inv in Hcreate as (b & Hctor & ->).
      exact (BigintValuesUsingBitmask_ctor_nullAllowed _ _ _ _ _ Hctor).
    + apply fmap_Ok_inv in Hcreate as (h & Hctor & ->).
      exact (BigintValuesUsingHashTable_ctor_nullAllowed _ _ _ _ _ Hctor).
Qed.

Lemma clone_testNull (f r : Filter) :
  clone f None = Ok r -> testNull r = testNull f.
Proof.
  destruct f; cbn [clone default]; try (intros [= <-]; reflexivity).
  apply BigintMultiRange_ctor_testNull.
Qed.

Lemma combineBigintRanges_testNull (ranges : list BigintRange.t)
    (nullAllowed : bool) (r : Filter) :
  combineBigintRanges ranges nullAllowed = Ok r -> testNull r = nullAllowed.
Proof.
  destruct ranges as [|front [|second rest]]; cbn [combineBigintRanges].
  - intros [= <-]. apply nullOrFalse_testNull.
  - intros [= <-]. reflexivity.
  - apply BigintMultiRange_ctor_testNull.
Qed.

Lemma IsNull_mergeWith_testNull (other r : Filter) :
  IsNull_mergeWith other = Ok r -> testNull r = testNull other.
Proof.
  unfold IsNull_mergeWith. destruct (testNull other); intros [= <-];
    reflexivity.
Qed.

Lemma BoolValue_mergeWith_testNull (this : BoolValue.t) (other r : Filter) :
  BoolValue_mergeWith this other = Ok r ->
  testNull r = BoolValue.nullAllowed_ this && testNull other.
Proof.
  destruct other; cbn [BoolValue_mergeWith AlwaysFalse_mergeWith
                       AlwaysTrue_mergeWith clone default testNull];
    try discriminate.
  - intros [= <-]. rewrite andb_false_r. reflexivity.
  - intros [= <-]. rewrite andb_true_r. reflexivity.
  - intros H. apply IsNull_mergeWith_testNull in H. rewrite H.
    rewrite andb_true_r. reflexivity.
  - intros [= <-]. rewrite andb_false_r. reflexivity.
  - destruct (testBool _ _); intros [= <-];
      [reflexivity | apply nullOrFalse_testNull].
Qed.

Lemma BigintValuesUsingBitmask_mergeWith_testNull
    (this : BigintValuesUsingBitmask.t) (other r : Filter) :
  BigintValuesUsingBitmask_mergeWith kEmptyMarker M this other = Ok r ->
  testNull r = BigintValuesUsingBitmask.nullAllowed_ this && testNull other.
Proof.
  assert (Hrange : forall min max,
             BigintValuesUsingBitmask_mergeWith_range kEmptyMarker M this
               min max other = Ok r ->
             testNull r
             = BigintValuesUsingBitmask.nullAllowed_ this && testNull other).
  { intros min max H. unfold BigintValuesUsingBitmask_mergeWith_range in H.
    apply bind_Ok_inv in H as (kept & _ & Hcreate).
    exact (createBigintValues_testNull _ _ _ Hcreate). }
  destruct other; cbn [BigintValuesUsingBitmask_mergeWith
                       AlwaysFalse_mergeWith AlwaysTrue_mergeWith];
    try discriminate; try apply Hrange.
  - intros [= <-]. rewrite andb_false_r. reflexivity.
  - unfold AlwaysTrue_mergeWith. intros H. apply clone_testNull in H.
    rewrite H, andb_true_r. reflexivity.
  - intros H. apply IsNull_mergeWith_testNull in H. rewrite H, andb_true_r.
    reflexivity.
  - intros [= <-]. rewrite andb_false_r. reflexivity.
  - intros H. apply bind_Ok_inv in H as (kept & _ & Hcreate).
    exact (createBigintValues_testNull _ _ _ Hcreate).
Qed.

Lemma BigintValuesUsingHashTable_mergeWith_testNull
    (this : BigintValuesUsingHashTable.t) (other r : Filter) :
  BigintValuesUsingHashTable_mergeWith kEmptyMarker M this other = Ok r ->
  testNull r = BigintValuesUsingHashTable.nullAllowed_ this && testNull other.
Proof.
  assert (Hrange : forall min max,
             BigintValuesUsingHashTable_mergeWith_range kEmptyMarker M this
               min max other = Ok r ->
             testNull r
             = BigintValuesUsingHashTable.nullAllowed_ this && testNull other).
  { intros min max. unfold BigintValuesUsingHashTable_mergeWith_range.
    destruct (max <? min); [intros [= <-]; apply nullOrFalse_testNull |].
    destruct (max =? min).
    - destruct (_ && _); intros [= <-];
        [reflexivity | apply nullOrFalse_testNull].
    - apply createBigintValues_testNull. }
  destruct other; cbn [BigintValuesUsingHashTable_mergeWith
                       AlwaysFalse_mergeWith AlwaysTrue_mergeWith];
    try discriminate; try apply Hrange.
  - intros [= <-]. rewrite andb_false_r. reflexivity.
  - unfold AlwaysTrue_mergeWith. intros H. apply clone_testNull in H.
    rewrite H, andb_true_r. reflexivity.
  - intros H. apply IsNull_mergeWith_testNull in H. rewrite H, andb_true_r.
    reflexivity.
  - intros [= <-]. rewrite andb_false_r. reflexivity.
  - intros H. apply BigintValuesUsingBitmask_mergeWith_testNull in H.
    rewrite H. apply andb_comm.
  - apply createBigintValues_testNull.
Qed.

Lemma BigintRange_mergeWith_testNull (this : BigintRange.t)
    (other r : Filter) :
  BigintRange_mergeWith kEmptyMarker M this other = Ok r ->
  testNull r = BigintRange.nullAllowed_ this && testNull other.
Proof.
  destruct other; cbn [BigintRange_mergeWith AlwaysFalse_mergeWith
                       AlwaysTrue_mergeWith];
    try discriminate.
  - intros [= <-]. rewrite andb_false_r. reflexivity.
  - unfold AlwaysTrue_mergeWith. intros H. apply clone_testNull in H.
    rewrite H, andb_true_r. reflexivity.
  - intros H. apply IsNull_mergeWith_testNull in H. rewrite H, andb_true_r.
    reflexivity.
  - intros [= <-]. rewrite andb_false_r. reflexivity.
  - intros [= <-]. unfold BigintRange_mergeWith_BigintRange.
    destruct (_ <=? _); [reflexivity | apply nullOrFalse_testNull].
  - intros H. apply BigintValuesUsingHashTable_mergeWith_testNull in H.
    rewrite H. apply andb_comm.
  - intros H. apply BigintValuesUsingBitmask_mergeWith_testNull in H.
    rewrite H. apply andb_comm.
  - intros H. apply bind_Ok_inv in H as (newRanges & _ & Hcombine).
    exact (combineBigintRanges_testNull _ _ _ Hcombine).
Qed.

Lemma BigintMultiRange_mergeWith_testNull (this : BigintMultiRange.t)
    (other r : Filter) :
  BigintMultiRange_mergeWith kEmptyMarker M this other = Ok r ->
  testNull r = BigintMultiRange.nullAllowed_ this && testNull other.
Proof.
  destruct other; cbn [BigintMultiRange_mergeWith AlwaysFalse_mergeWith
                       AlwaysTrue_mergeWith];
    try discriminate.
  - intros [= <-]. rewrite andb_false_r. reflexivity.
  - unfold AlwaysTrue_mergeWith. intros H. apply clone_testNull in H.
    rewrite H, andb_true_r. reflexivity.
  - intros H. apply IsNull_mergeWith_testNull in H. rewrite H, andb_true_r.
    reflexivity.
  - intros H. apply BigintMultiRange_ctor_testNull in H. rewrite H.
    rewrite andb_false_r. reflexivity.
  - intros H. apply BigintRange_mergeWith_testNull in H.
    rewrite H. apply andb_comm.
  - intros H. apply BigintValuesUsingHashTable_mergeWith_testNull in H.
    rewrite H. apply andb_comm.
  - intros H. apply BigintValuesUsingBitmask_mergeWith_testNull in H.
    rewrite H. apply andb_comm.
  - intros H. apply bind_Ok_inv in H as (newRanges & _ & H).
    destruct newRanges as [|front [|second rest]].
    + injection H as <-. apply nullOrFalse_testNull.
    + injection H as <-. reflexivity.
    + exact (BigintMultiRange_ctor_testNull _ _ _ H).
Qed.

(** X1.  The null half of the conjunction law holds on every pair of the
    family: a merge that returns accepts null exactly when both operands do. *)
Lemma mergeWith_testNull (a b r : Filter) :
  mergeWith a b = Ok r -> testNull r = testNull a && testNull b.
Proof.
  unfold mergeWith.
  destruct a; cbn [AlwaysFalse_mergeWith AlwaysTrue_mergeWith testNull].
  - intros [= <-]. reflexivity.
  - unfold AlwaysTrue_mergeWith. apply clone_testNull.
  - apply IsNull_mergeWith_testNull.
  - destruct b; cbn [IsNotNull_mergeWith clone].
    + intros [= <-]. reflexivity.
    + intros [= <-]. reflexivity.
    + intros [= <-]. reflexivity.
    + intros [= <-]. reflexivity.
    + intros H. apply BoolValue_mergeWith_testNull in H.
      rewrite H. apply andb_false_r.
    + intros H. apply BigintRange_mergeWith_testNull in H.
      rewrite H. apply andb_false_r.
    + intros H. apply BigintValuesUsingHashTable_mergeWith_testNull in H.
      rewrite H. apply andb_false_r.
    + intros H. apply BigintValuesUsingBitmask_mergeWith_testNull in H.
      rewrite H. apply andb_false_r.
    + intros H. apply BigintMultiRange_mergeWith_testNull in H.
      rewrite H. apply andb_false_r.
  - apply BoolValue_mergeWith_testNull.
  - apply BigintRange_mergeWith_testNull.
  - apply BigintValuesUsingHashTable_mergeWith_testNull.
  - apply BigintValuesUsingBitmask_mergeWith_testNull.
  - apply BigintMultiRange_mergeWith_testNull.
Qed.

(** The value half holds on two ranges. *)
Lemma BigintRange_mergeWith_BigintRange_testInt64 (this other : BigintRange.t)
    (v : Z) :
  testInt64 (BigintRange_mergeWith_BigintRange this other) v
  = BigintRange.testInt64 this v && BigintRange.testInt64 other v.
Proof.
  unfold BigintRange_mergeWith_BigintRange.
  rewrite std_max_spec, std_min_spec.
  destruct (Z.leb_spec (Z.max (BigintRange.lower_ this)
                          (BigintRange.lower_ other))
                       (Z.min (BigintRange.upper_ this)
                          (BigintRange.upper_ other))) as [Hle | Hgt].
  - cbn. unfold BigintRange.testInt64. cbn.
    apply eq_true_iff_eq. rewrite !andb_true_iff, !Z.leb_le. lia.
  - assert (Hempty : BigintRange.testInt64 this v
                     && BigintRange.testInt64 other v = false).
    { apply not_true_is_false. unfold BigintRange.testInt64.
      rewrite !andb_true_iff, !Z.leb_le. lia. }
    rewrite Hempty.
    destruct (BigintRange.nullAllowed_ this && BigintRange.nullAllowed_ other);
      reflexivity.
Qed.

(** ** Hash tables built from distinct values *)

Lemma NoDup_same_length (l k : list Z) :
  NoDup l -> (forall x, x ∈ l -> x ∈ k) -> (length k <= length l)%nat ->
  NoDup k.
Proof.
  intros Hnd Hsub Hlen.
  assert (Hperm : l ≡ₚ k).
  { apply submseteq_length_Permutation; [| exact Hlen].
    apply NoDup_submseteq; assumption. }
  rewrite <- Hperm. exact Hnd.
Qed.

Lemma storedValues_length (h : BigintValuesUsingHashTable.t) :
  (length (storedValues kEmptyMarker h)
   + numEmpty kEmptyMarker (BigintValuesUsingHashTable.hashTable_ h))%nat
  = length (BigintValuesUsingHashTable.hashTable_ h).
Proof.
  unfold storedValues, numEmpty.
  induction (BigintValuesUsingHashTable.hashTable_ h) as [|l table IH];
    [reflexivity |].
  cbn [List.filter]. rewrite filter_cons.
  destruct (Z.eqb_spec l kEmptyMarker) as [Heq | Hne]; cbn [negb].
  - rewrite decide_True by exact Heq. cbn [length]. lia.
  - rewrite decide_False by exact Hne. cbn [length]. lia.
Qed.

(** The constructor stores each of the distinct values once: the filters it
    builds are normalised operands of a merge. *)
Lemma BigintValuesUsingHashTable_ctor_NoDup (min max : Z) (values : list Z)
    (nullAllowed : bool) (h : BigintValuesUsingHashTable.t) :
  NoDup values ->
  3 * Z.of_nat (length values) < 2 ^ 32 ->
  BigintValuesUsingHashTable.ctor kEmptyMarker M min max values nullAllowed
  = Ok h ->
  normalisedOperand kEmptyMarker (OfBigintValuesUsingHashTable h).
Proof.
  intros Hnd Hsmall Hctor. split; [exact I |]. cbn.
  assert (Hpre : min < max /\ (2 <= length values)%nat).
  { unfold BigintValuesUsingHashTable.ctor in Hctor.
    destruct (Z.ltb_spec min max); [| discriminate].
    destruct (Z.ltb_spec 1 (Z.of_nat (length values))); [| discriminate].
    split; lia. }
  destruct Hpre as [Hminmax Hlen].
  destruct (BigintValuesUsingHashTable_ctor_inv min max values nullAllowed
              Hminmax Hlen Hsmall)
    as (hashTable & inserted & flag & Hok & Hsize & Hinv & Hmem & Hcount & _).
  rewrite Hok in Hctor. injection Hctor as <-.
  destruct Hinv as (HlenT & Hnot & Hpath & _ & Hnum).
  assert (Hinserted : NoDup inserted).
  { apply (NoDup_same_length (filter (fun x => x <> kEmptyMarker) values)).
    - apply NoDup_filter. exact Hnd.
    - intros x Hx. apply list_elem_of_filter in Hx as [Hne Hx].
      apply Hmem. split; assumption.
    - lia. }
  apply (NoDup_same_length inserted); [exact Hinserted | |].
  - intros x Hx. unfold storedValues. cbn.
    apply elem_of_List_filter. split.
    + destruct (Hpath x Hx) as (j & _ & Hstored & _). rewrite <- Hstored.
      apply list_elem_of_lookup_total_2. rewrite HlenT.
      unfold slotOf.
      assert (0 < BigintValuesUsingHashTable.tableSize
                    (Z.of_nat (length values))).
      { rewrite tableSize_pow2. apply Z.pow_pos_nonneg;
          [lia | apply tableExponent_nonneg]. }
      pose proof (Z.mod_pos_bound
                    (BigintValuesUsingHashTable.hashPosition M
                       (BigintValuesUsingHashTable.tableSize
                          (Z.of_nat (length values))) x + j)
                    (BigintValuesUsingHashTable.tableSize
                       (Z.of_nat (length values)))
                    ltac:(assumption)).
      lia.
    + apply negb_true_iff, Z.eqb_neq, Hnot, Hx.
  - pose proof (storedValues_length
                  (BigintValuesUsingHashTable.mk min max hashTable flag
                     nullAllowed)) as Hsl.
    cbn [BigintValuesUsingHashTable.hashTable_] in Hsl. lia.
Qed.

(** ** The value domain of a merge *)

(** *** What the factory returns *)

Lemma full_interval (values : list Z) (min max : Z) :
  NoDup values ->
  (forall v, v ∈ values -> min <= v <= max) ->
  Z.of_nat (length values) = max - min + 1 ->
  forall x, min <= x <= max -> x ∈ values.
Proof.
  intros Hnodup Hrange Hlen x Hx.
  assert (Hperm : values ≡ₚ seqZ min (max - min + 1)).
  { apply submseteq_length_Permutation.
    - apply NoDup_submseteq; [exact Hnodup |].
      intros v Hv. apply elem_of_seqZ. specialize (Hrange v Hv). lia.
    - rewrite length_seqZ. lia. }
  rewrite Hperm. apply elem_of_seqZ. lia.
Qed.

Lemma NoDup_length_interval (l : list Z) (lo hi : Z) :
  NoDup l -> (forall x, x ∈ l -> lo <= x <= hi) ->
  Z.of_nat (length l) <= Z.max 0 (hi - lo + 1).
Proof.
  intros Hnodup Hrange.
  assert (Hsub : l ⊆+ seqZ lo (hi - lo + 1)).
  { apply NoDup_submseteq; [exact Hnodup |].
    intros v Hv. apply elem_of_seqZ. specialize (Hrange v Hv). lia. }
  apply submseteq_length in Hsub. rewrite length_seqZ in Hsub. lia.
Qed.

Lemma BigintValuesUsingHashTable_ctor_testInt64 (min max : Z)
    (values : list Z) (nullAllowed : bool) (h : BigintValuesUsingHashTable.t) :
  Z.of_nat (length values) <= kMaxVectorSize ->
  (forall x, x ∈ values -> min <= x <= max) ->
  BigintValuesUsingHashTable.ctor kEmptyMarker M min max values nullAllowed
  = Ok h ->
  forall v, BigintValuesUsingHashTable.testInt64 kEmptyMarker M h v = true
            <-> v ∈ values.
Proof.
  intros Hmax Hbounds Hctor v. unfold kMaxVectorSize in Hmax.
  set (n := Z.of_nat (length values)) in *.
  assert (Hpre : min < max /\ 1 < n
                 /\ BigintValuesUsingHashTable.tableExponent n < 32).
  { unfold BigintValuesUsingHashTable.ctor in Hctor. fold n in Hctor.
    destruct (Z.ltb_spec min max); [| discriminate].
    destruct (Z.ltb_spec 1 n); [| discriminate].
    destruct (Z.leb_spec 32 (BigintValuesUsingHashTable.tableExponent n));
      [discriminate |].
    auto. }
  destruct Hpre as (Hminmax & Hn & He).
  assert (Hsmall : 3 * n < 2 ^ 32).
  { unfold BigintValuesUsingHashTable.tableExponent in He.
    rewrite toUint64_id in He by lia.
    apply Z.log2_lt_pow2 in He; lia. }
  destruct (BigintValuesUsingHashTable_ctor_inv min max values nullAllowed
              Hminmax ltac:(lia) Hsmall)
    as (hashTable & inserted & flag & Hok & _ & Hinv & Hmem & _ & Hflag).
  rewrite Hok in Hctor. injection Hctor as <-.
  rewrite tableSize_pow2 in Hinv.
  rewrite (testInt64_of_tableInv
             (BigintValuesUsingHashTable.tableExponent (Z.of_nat (length values)))
             ltac:(split; [apply tableExponent_nonneg | exact He])
             (BigintValuesUsingHashTable.mk min max hashTable flag nullAllowed)
             inserted v Hinv).
  - cbn [BigintValuesUsingHashTable.containsEmptyMarker_].
    rewrite Hmem, Hflag. split.
    + intros [[Hin ->] | [Hin _]]; exact Hin.
    + intros Hin. destruct (decide (v = kEmptyMarker)) as [-> | Hne];
        [left | right]; auto.
  - intros x Hx. apply Hbounds, Hmem, Hx.
Qed.

(** On distinct values the factory returns a filter that accepts exactly
    the values of the vector. *)
Lemma createBigintValues_testInt64 (values : list Z) (nullAllowed : bool)
    (r : Filter) :
  NoDup values ->
  Z.of_nat (length values) <= kMaxVectorSize ->
  createBigintValues values nullAllowed = Ok r ->
  forall x, testInt64 r x = true <-> x ∈ values.
Proof.
  intros Hnodup Hsize Hcreate x.
  destruct values as [|front [|second rest]].
  - injection Hcreate as <-. rewrite elem_of_nil.
    destruct nullAllowed; cbn; split; (discriminate || tauto).
  - injection Hcreate as <-. cbn. rewrite testInt64_range_bounds. cbn.
    rewrite list_elem_of_singleton. lia.
  - rewrite (createBigintValues_unfold front second rest nullAllowed)
      in Hcreate.
    set (values := front :: second :: rest) in *.
    set (min := vectorMin front (second :: rest)) in *.
    set (max := vectorMax front (second :: rest)) in *.
    assert (Hrange : forall v, v ∈ values -> min <= v <= max).
    { intros v Hv. split.
      - apply (proj2 (vectorMin_spec front (second :: rest))). exact Hv.
      - apply (proj2 (vectorMax_spec front (second :: rest))). exact Hv. }
    assert (Hle : min <= max).
    { pose proof (Hrange front ltac:(left)). lia. }
    destruct (isInt64 (max - min)
              && (toUint64 (toInt64 (toInt64 (max - min) + 1))
                  =? Z.of_nat (length values))) eqn:Hcontig.
    { injection Hcreate as <-. cbn. rewrite testInt64_range_bounds. cbn.
      apply andb_true_iff in Hcontig as [Hint Hlen].
      apply isInt64_spec in Hint. rewrite (toInt64_id _ Hint) in Hlen.
      unfold int64, kInt64Min, kInt64Max in Hint.
      rewrite toUint64_toInt64, Z.mod_small in Hlen by lia.
      apply Z.eqb_eq in Hlen. split.
      - apply full_interval;
          [exact Hnodup | exact Hrange | symmetry; exact Hlen].
      - apply Hrange. }
    destruct (isInt64 (max - min) && _) eqn:Hdense in Hcreate.
    + apply fmap_Ok_inv in Hcreate as (b & Hctor & ->).
      assert (Hpre : min < max /\ int64 (max - min + 1)).
      { unfold BigintValuesUsingBitmask.ctor in Hctor.
        destruct (Z.ltb_spec min max); [| discriminate].
        destruct (negb (1 <? _)); [discriminate |].
        destruct (isInt64 (max - min + 1)) eqn:Hint'; [| discriminate].
        apply isInt64_spec in Hint'. auto. }
      destruct Hpre as [Hminmax Hint'].
      destruct (BigintValuesUsingBitmask_ctor_spec min max values nullAllowed
                  Hminmax ltac:(cbn [length values]; lia) Hint' Hrange)
        as (b' & Hok & _ & _ & _ & Htest).
      rewrite Hok in Hctor. injection Hctor as ->. apply Htest.
    + apply fmap_Ok_inv in Hcreate as (h & Hctor & ->).
      exact (BigintValuesUsingHashTable_ctor_testInt64 min max values
               nullAllowed h Hsize Hrange Hctor x).
Qed.

(** *** What the operands accept *)

Lemma BigintValuesUsingBitmask_testInt64_iff (b : BigintValuesUsingBitmask.t)
    (x : Z) :
  BigintValuesUsingBitmask.testInt64 b x = true
  <-> BigintValuesUsingBitmask.min_ b <= x <= BigintValuesUsingBitmask.max_ b
      /\ BigintValuesUsingBitmask.bitmask_ b
           !!! Z.to_nat (x - BigintValuesUsingBitmask.min_ b) = true.
Proof.
  unfold BigintValuesUsingBitmask.testInt64.
  destruct (Z.ltb_spec x (BigintValuesUsingBitmask.min_ b));
    [cbn; split; [discriminate | lia] |].
  destruct (Z.gtb_spec x (BigintValuesUsingBitmask.max_ b));
    [cbn; split; [discriminate | lia] |].
  cbn. split; [intros H'; split; [lia | exact H'] | tauto].
Qed.

Lemma tableInv_storedValues (size : Z) (h : BigintValuesUsingHashTable.t)
    (inserted : list Z) (x : Z) :
  0 < size ->
  tableInv kEmptyMarker M size (BigintValuesUsingHashTable.hashTable_ h)
           inserted ->
  x ∈ inserted <-> x ∈ storedValues kEmptyMarker h.
Proof.
  intros Hsize (Hlen & Hnot & Hpath & Hsub & _). unfold storedValues.
  rewrite elem_of_List_filter, negb_true_iff, Z.eqb_neq. split.
  - intros Hx. split; [| exact (Hnot x Hx)].
    destruct (Hpath x Hx) as (j & _ & Hstored & _). rewrite <- Hstored.
    apply list_elem_of_lookup_total_2. rewrite Hlen. unfold slotOf.
    pose proof (Z.mod_pos_bound
                  (BigintValuesUsingHashTable.hashPosition M size x + j)
                  size Hsize). lia.
  - intros [Hx Hne]. apply Hsub; assumption.
Qed.

Lemma wfHashTable_testInt64 (h : BigintValuesUsingHashTable.t) (x : Z) :
  wfHashTable kEmptyMarker M h ->
  BigintValuesUsingHashTable.testInt64 kEmptyMarker M h x = true
  <-> (BigintValuesUsingHashTable.containsEmptyMarker_ h = true
       /\ x = kEmptyMarker)
      \/ x ∈ storedValues kEmptyMarker h.
Proof.
  intros ((e & inserted & He & Hinv & Hbounds) & _ & _).
  rewrite (testInt64_of_tableInv e He h inserted x Hinv Hbounds).
  rewrite (tableInv_storedValues (2 ^ e) h inserted x (size_pos e He) Hinv).
  reflexivity.
Qed.

Lemma wfHashTable_bounds (h : BigintValuesUsingHashTable.t) (x : Z) :
  wfHashTable kEmptyMarker M h ->
  BigintValuesUsingHashTable.testInt64 kEmptyMarker M h x = true ->
  BigintValuesUsingHashTable.min_ h <= x <= BigintValuesUsingHashTable.max_ h.
Proof.
  intros Hwf Hx. apply (wfHashTable_testInt64 h x Hwf) in Hx.
  destruct Hwf as ((e & inserted & He & Hinv & Hbounds) & Hmarker & _).
  destruct Hx as [[Hflag ->] | Hx]; [exact (Hmarker Hflag) |].
  apply Hbounds.
  apply (tableInv_storedValues (2 ^ e) h inserted x (size_pos e He) Hinv).
  exact Hx.
Qed.

Lemma wfHashTable_stored_bounds (h : BigintValuesUsingHashTable.t) (x : Z) :
  wfHashTable kEmptyMarker M h ->
  x ∈ storedValues kEmptyMarker h ->
  BigintValuesUsingHashTable.min_ h <= x <= BigintValuesUsingHashTable.max_ h.
Proof.
  intros Hwf Hx. apply (wfHashTable_bounds h x Hwf).
  apply (wfHashTable_testInt64 h x Hwf). right. exact Hx.
Qed.

Lemma wfHashTable_length (h : BigintValuesUsingHashTable.t) :
  wfHashTable kEmptyMarker M h ->
  Z.of_nat (length (storedValues kEmptyMarker h)) <= 2 ^ 31.
Proof.
  intros ((e & inserted & He & (Hlen & _) & _) & _ & _).
  pose proof (storedValues_length h) as Hsl.
  pose proof (size_le e He). pose proof (size_pos e He). lia.
Qed.

Lemma wfOperand_multi_testInt64 (m : BigintMultiRange.t) (x : Z) :
  wfOperand kEmptyMarker M (OfBigintMultiRange m) ->
  BigintMultiRange.testInt64 m x = true
  <-> inRanges (BigintMultiRange.ranges_ m) x.
Proof.
  destruct m as [ranges lowerBounds nullAllowed]. cbn.
  intros (-> & Hcheck & Hwf & _).
  apply BigintMultiRange_testInt64_iff; assumption.
Qed.

(** *** What a merge keeps *)

Lemma int64Loop_elem (min max : Z) (indices : list Z) (x : Z) :
  int64Loop min max = Ok indices -> x ∈ indices <-> min <= x <= max.
Proof.
  unfold int64Loop. destruct (Z.ltb_spec max min).
  - intros [= <-]. rewrite elem_of_nil. lia.
  - destruct (max =? kInt64Max); [discriminate |].
    intros [= <-]. rewrite elem_of_seqZ. lia.
Qed.

Lemma BigintValuesUsingBitmask_keep_elem (this : BigintValuesUsingBitmask.t)
    (test : Z -> bool) (min max : Z) (kept : list Z) (x : Z) :
  BigintValuesUsingBitmask_keep this test min max = Ok kept ->
  x ∈ kept
  <-> min <= x <= max
      /\ BigintValuesUsingBitmask.bitmask_ this
           !!! Z.to_nat (x - BigintValuesUsingBitmask.min_ this) = true
      /\ test x = true.
Proof.
  unfold BigintValuesUsingBitmask_keep. intros H.
  apply bind_Ok_inv in H as (indices & Hloop & [= <-]).
  rewrite elem_of_List_filter, andb_true_iff.
  rewrite (int64Loop_elem min max indices x Hloop). reflexivity.
Qed.

Lemma BigintValuesUsingBitmask_keepRanges_elem
    (this : BigintValuesUsingBitmask.t) (ranges : list BigintRange.t) (x : Z) :
  forall kept : list Z,
    BigintValuesUsingBitmask_keepRanges this ranges = Ok kept ->
    x ∈ kept
    <-> BigintValuesUsingBitmask.testInt64 this x = true /\ inRanges ranges x.
Proof.
  induction ranges as [|range rest IH]; intros kept Hkeep.
  - injection Hkeep as <-. rewrite elem_of_nil. split; [tauto |].
    intros [_ (c & Hc & _)]. inversion Hc.
  - cbn [BigintValuesUsingBitmask_keepRanges] in Hkeep.
    apply bind_Ok_inv in Hkeep as (here & Hhere & Hkeep).
    apply bind_Ok_inv in Hkeep as (later & Hlater & [= <-]).
    rewrite elem_of_app, (IH later Hlater).
    rewrite (BigintValuesUsingBitmask_keep_elem _ _ _ _ _ x Hhere).
    rewrite std_max_spec, std_min_spec, testInt64_range_bounds.
    rewrite BigintValuesUsingBitmask_testInt64_iff. unfold inRanges. split.
    + intros [(Hx & Hbit & Hrange) | (Hthis & c & Hc & Hcx)].
      * split; [split; [lia | exact Hbit] |].
        exists range. split; [left |]. apply testInt64_range_bounds, Hrange.
      * split; [exact Hthis |]. exists c. split; [right; exact Hc | exact Hcx].
    + intros [[Hx Hbit] (c & Hc & Hcx)].
      apply elem_of_cons in Hc as [-> | Hc].
      * left. apply testInt64_range_bounds in Hcx. repeat split; try lia.
        exact Hbit.
      * right. split; [split; assumption |]. exists c. split; assumption.
Qed.

Lemma BigintValuesUsingHashTable_keep_elem
    (this : BigintValuesUsingHashTable.t) (test : Z -> bool) (x : Z) :
  x ∈ BigintValuesUsingHashTable_keep kEmptyMarker this test
  <-> x ∈ storedValues kEmptyMarker this /\ test x = true.
Proof.
  unfold BigintValuesUsingHashTable_keep, storedValues.
  rewrite !elem_of_List_filter, andb_true_iff. tauto.
Qed.

Lemma BigintValuesUsingHashTable_keepMarker_elem
    (this : BigintValuesUsingHashTable.t) (other : Filter) (x : Z) :
  x ∈ BigintValuesUsingHashTable_keepMarker kEmptyMarker M this other
  <-> x = kEmptyMarker
      /\ BigintValuesUsingHashTable.containsEmptyMarker_ this = true
      /\ testInt64 other kEmptyMarker = true.
Proof.
  unfold BigintValuesUsingHashTable_keepMarker.
  destruct (BigintValuesUsingHashTable.containsEmptyMarker_ this);
    destruct (testInt64 other kEmptyMarker); cbn;
    rewrite ?list_elem_of_singleton, ?elem_of_nil;
    split; try tauto; intros (_ & ? & ?); discriminate.
Qed.

Lemma BigintValuesUsingHashTable_keepRanges_elem
    (this : BigintValuesUsingHashTable.t) (ranges : list BigintRange.t)
    (x : Z) :
  wfHashTable kEmptyMarker M this ->
  x ∈ BigintValuesUsingHashTable_keepRanges kEmptyMarker this ranges
  <-> x ∈ storedValues kEmptyMarker this /\ inRanges ranges x.
Proof.
  intros Hwf. induction ranges as [|range rest IH].
  - cbn. rewrite elem_of_nil. split; [tauto |].
    intros [_ (c & Hc & _)]. inversion Hc.
  - cbn [BigintValuesUsingHashTable_keepRanges]. rewrite elem_of_app, IH.
    rewrite std_max_spec, std_min_spec. unfold inRanges. split.
    + intros [Hhere | (Hst & c & Hc & Hcx)].
      * destruct (_ <=? _); [| inversion Hhere].
        apply BigintValuesUsingHashTable_keep_elem in Hhere as [Hst Hcx].
        split; [exact Hst |]. exists range. split; [left | exact Hcx].
      * split; [exact Hst |]. exists c. split; [right; exact Hc | exact Hcx].
    + intros [Hst (c & Hc & Hcx)].
      apply elem_of_cons in Hc as [-> | Hc].
      * left. pose proof (wfHashTable_stored_bounds this x Hwf Hst).
        pose proof (proj1 (testInt64_range_bounds range x) Hcx).
        destruct (Z.leb_spec
                    (Z.max (BigintValuesUsingHashTable.min_ this)
                       (BigintRange.lower_ range))
                    (Z.min (BigintValuesUsingHashTable.max_ this)
                       (BigintRange.upper_ range))); [| lia].
        apply BigintValuesUsingHashTable_keep_elem. split; assumption.
      * right. split; [exact Hst |]. exists c. split; assumption.
Qed.

(** *** The conjunction law, class by class *)

Local Abbreviation conjunctionOf := (conjunctionOf kEmptyMarker M).

Lemma conjunctionOf_iff (r a b : Filter) :
  (forall x, testInt64 r x = true
             <-> testInt64 a x = true /\ testInt64 b x = true) ->
  conjunctionOf r a b.
Proof.
  intros H x. apply eq_true_iff_eq. rewrite andb_true_iff. apply H.
Qed.

Lemma conjunctionOf_comm (r a b : Filter) :
  conjunctionOf r a b -> conjunctionOf r b a.
Proof. intros H x. rewrite (H x). apply andb_comm. Qed.

Lemma conjunctionOf_false_l (a b : Filter) :
  (forall x, testInt64 a x = false) -> conjunctionOf AlwaysFalse a b.
Proof. intros H x. rewrite H. reflexivity. Qed.

Lemma nullOrFalse_testInt64 (nullAllowed : bool) (x : Z) :
  testInt64 (nullOrFalse nullAllowed) x = false.
Proof. destruct nullAllowed; reflexivity. Qed.

Lemma IsNull_mergeWith_testInt64 (other r : Filter) (x : Z) :
  IsNull_mergeWith other = Ok r -> testInt64 r x = false.
Proof.
  unfold IsNull_mergeWith. destruct (testNull other); intros [= <-];
    reflexivity.
Qed.

Lemma clone_testInt64 (f r : Filter) (nullAllowed : option bool) (x : Z) :
  wfOperand kEmptyMarker M f ->
  clone f nullAllowed = Ok r -> testInt64 r x = testInt64 f x.
Proof.
  destruct f as [| | | | b | range | h | b | m]; cbn [clone]; intros Hwf H;
    try (injection H as <-; reflexivity).
  apply fmap_Ok_inv in H as (m' & Hctor & ->).
  apply BigintMultiRange_ctor_Ok in Hctor as (-> & _).
  destruct m as [ranges lowerBounds na]. cbn in Hwf |- *.
  destruct Hwf as (-> & _). reflexivity.
Qed.

Lemma createBigintValues_conjunctionOf (kept : list Z) (nullAllowed : bool)
    (r a b : Filter) :
  NoDup kept ->
  Z.of_nat (length kept) <= kMaxVectorSize ->
  (forall x, x ∈ kept <-> testInt64 a x = true /\ testInt64 b x = true) ->
  createBigintValues kept nullAllowed = Ok r ->
  conjunctionOf r a b.
Proof.
  intros Hnd Hlen Hkept Hcreate. apply conjunctionOf_iff. intros x.
  rewrite (createBigintValues_testInt64 kept nullAllowed r Hnd Hlen Hcreate).
  apply Hkept.
Qed.

Lemma BigintValuesUsingBitmask_kept_length
    (this : BigintValuesUsingBitmask.t) (kept : list Z) :
  BigintValuesUsingBitmask.max_ this - BigintValuesUsingBitmask.min_ this
  < kMaxVectorSize ->
  NoDup kept ->
  (forall x, x ∈ kept -> BigintValuesUsingBitmask.testInt64 this x = true) ->
  Z.of_nat (length kept) <= kMaxVectorSize.
Proof.
  intros Hwf Hnd Hin.
  pose proof (NoDup_length_interval kept
                (BigintValuesUsingBitmask.min_ this)
                (BigintValuesUsingBitmask.max_ this) Hnd) as Hlen.
  unfold kMaxVectorSize in *.
  assert (forall x, x ∈ kept ->
                    BigintValuesUsingBitmask.min_ this <= x
                    <= BigintValuesUsingBitmask.max_ this).
  { intros x Hx. apply Hin, BigintValuesUsingBitmask_testInt64_iff in Hx.
    tauto. }
  specialize (Hlen ltac:(assumption)). lia.
Qed.

Lemma BigintValuesUsingBitmask_mergeWith_range_conjunctionOf
    (this : BigintValuesUsingBitmask.t) (other : Filter) (omin omax : Z)
    (r : Filter) :
  wfOperand kEmptyMarker M (OfBigintValuesUsingBitmask this) ->
  (forall x, testInt64 other x = true -> omin <= x <= omax) ->
  BigintValuesUsingBitmask_mergeWith_range kEmptyMarker M this
    (std_max (BigintValuesUsingBitmask.min_ this) omin)
    (std_min (BigintValuesUsingBitmask.max_ this) omax) other = Ok r ->
  conjunctionOf r (OfBigintValuesUsingBitmask this) other.
Proof.
  intros Hwf Hbounds H. unfold BigintValuesUsingBitmask_mergeWith_range in H.
  apply bind_Ok_inv in H as (kept & Hkept & Hcreate).
  pose proof (BigintValuesUsingBitmask_keep_spec _ _ _ _ _ Hkept) as [Hnd _].
  assert (Hmem : forall x,
             x ∈ kept <-> testInt64 (OfBigintValuesUsingBitmask this) x = true
                          /\ testInt64 other x = true).
  { intros x. rewrite (BigintValuesUsingBitmask_keep_elem _ _ _ _ _ x Hkept).
    rewrite std_max_spec, std_min_spec. cbn [testInt64].
    rewrite BigintValuesUsingBitmask_testInt64_iff. split.
    - intros (Hx & Hbit & Hother). split; [split; [lia | exact Hbit] |].
      exact Hother.
    - intros [[Hx Hbit] Hother]. pose proof (Hbounds x Hother).
      split; [lia | split; assumption]. }
  refine (createBigintValues_conjunctionOf kept _ r _ _ Hnd _ Hmem Hcreate).
  apply (BigintValuesUsingBitmask_kept_length this kept Hwf Hnd).
  intros x Hx. apply Hmem in Hx. tauto.
Qed.

Lemma BigintValuesUsingBitmask_mergeWith_conjunctionOf
    (this : BigintValuesUsingBitmask.t) (other r : Filter) :
  wfOperand kEmptyMarker M (OfBigintValuesUsingBitmask this) ->
  wfOperand kEmptyMarker M other ->
  BigintValuesUsingBitmask_mergeWith kEmptyMarker M this other = Ok r ->
  conjunctionOf r (OfBigintValuesUsingBitmask this) other.
Proof.
  intros Hthis Hother.
  destruct other as [| | | | bv | range | h | b | m];
    cbn [BigintValuesUsingBitmask_mergeWith AlwaysFalse_mergeWith];
    intros H.
  - injection H as <-. intros x. cbn. rewrite andb_false_r. reflexivity.
  - intros x. rewrite (clone_testInt64 _ _ _ x Hthis H). cbn.
    rewrite andb_true_r. reflexivity.
  - intros x. rewrite (IsNull_mergeWith_testInt64 _ _ x H). cbn.
    rewrite andb_false_r. reflexivity.
  - injection H as <-. intros x. destruct this. cbn.
    rewrite andb_true_r. reflexivity.
  - discriminate.
  - refine (BigintValuesUsingBitmask_mergeWith_range_conjunctionOf
              this _ (BigintRange.lower_ range)
              (BigintRange.upper_ range) r Hthis _ H).
    intros x Hx. apply testInt64_range_bounds. exact Hx.
  - refine (BigintValuesUsingBitmask_mergeWith_range_conjunctionOf
              this _ (BigintValuesUsingHashTable.min_ h)
              (BigintValuesUsingHashTable.max_ h) r Hthis _ H).
    intros x Hx. exact (wfHashTable_bounds h x Hother Hx).
  - refine (BigintValuesUsingBitmask_mergeWith_range_conjunctionOf
              this _ (BigintValuesUsingBitmask.min_ b)
              (BigintValuesUsingBitmask.max_ b) r Hthis _ H).
    intros x Hx. apply BigintValuesUsingBitmask_testInt64_iff in Hx. tauto.
  - apply bind_Ok_inv in H as (kept & Hkept & Hcreate).
    pose proof Hother as (_ & _ & _ & Hdis).
    destruct (BigintValuesUsingBitmask_keepRanges_spec _ _ _ Hkept Hdis)
      as [Hnd _].
    assert (Hmem : forall x,
               x ∈ kept
               <-> testInt64 (OfBigintValuesUsingBitmask this) x = true
                   /\ testInt64 (OfBigintMultiRange m) x = true).
    { intros x.
      rewrite (BigintValuesUsingBitmask_keepRanges_elem _ _ x kept Hkept).
      cbn [testInt64].
      rewrite (wfOperand_multi_testInt64 m x Hother). reflexivity. }
    refine (createBigintValues_conjunctionOf kept _ r _ _ Hnd _ Hmem Hcreate).
    apply (BigintValuesUsingBitmask_kept_length this kept Hthis Hnd).
    intros x Hx. apply Hmem in Hx. tauto.
Qed.

Lemma BigintValuesUsingHashTable_kept_length
    (this : BigintValuesUsingHashTable.t) (other : Filter) (kept : list Z) :
  wfHashTable kEmptyMarker M this ->
  NoDup kept ->
  (forall x, x ∈ kept -> x ∈ storedValues kEmptyMarker this) ->
  Z.of_nat
    (length (BigintValuesUsingHashTable_keepMarker kEmptyMarker M this other
             ++ kept))
  <= kMaxVectorSize.
Proof.
  intros Hwf Hnd Hsub.
  pose proof (wfHashTable_length this Hwf) as Hlen.
  assert (Hle : (length kept <= length (storedValues kEmptyMarker this))%nat).
  { apply submseteq_length, NoDup_submseteq; assumption. }
  rewrite length_app. unfold BigintValuesUsingHashTable_keepMarker.
  unfold kMaxVectorSize. destruct (_ && _); cbn [length]; lia.
Qed.

Lemma BigintValuesUsingHashTable_mergeWith_range_conjunctionOf
    (this : BigintValuesUsingHashTable.t) (other : Filter) (omin omax : Z)
    (r : Filter) :
  wfHashTable kEmptyMarker M this ->
  (forall x, testInt64 other x = true -> omin <= x <= omax) ->
  BigintValuesUsingHashTable_mergeWith_range kEmptyMarker M this
    (std_max (BigintValuesUsingHashTable.min_ this) omin)
    (std_min (BigintValuesUsingHashTable.max_ this) omax) other = Ok r ->
  conjunctionOf r (OfBigintValuesUsingHashTable this) other.
Proof.
  intros Hwf Hbounds. unfold BigintValuesUsingHashTable_mergeWith_range.
  rewrite std_max_spec, std_min_spec.
  set (min := Z.max (BigintValuesUsingHashTable.min_ this) omin).
  set (max := Z.min (BigintValuesUsingHashTable.max_ this) omax).
  assert (Hboth : forall x,
             testInt64 (OfBigintValuesUsingHashTable this) x = true ->
             testInt64 other x = true -> min <= x <= max).
  { intros x Hx Hox. pose proof (wfHashTable_bounds this x Hwf Hx).
    pose proof (Hbounds x Hox). lia. }
  destruct (Z.ltb_spec max min) as [Hlt | Hge].
  { intros [= <-]. apply conjunctionOf_iff. intros x.
    rewrite nullOrFalse_testInt64. split; [discriminate |].
    intros [Hx Hox]. pose proof (Hboth x Hx Hox). lia. }
  destruct (Z.eqb_spec max min) as [Heq | Hne].
  { destruct (BigintValuesUsingHashTable.testInt64 kEmptyMarker M this min
              && testInt64 other min) eqn:Hmin; intros [= <-];
      apply conjunctionOf_iff; intros x.
    - cbn [testInt64]. rewrite testInt64_range_bounds. cbn.
      apply andb_true_iff in Hmin as [Hm1 Hm2]. split.
      + intros Hx. replace x with min by lia. split; assumption.
      + intros [Hx Hox]. pose proof (Hboth x Hx Hox). lia.
    - rewrite nullOrFalse_testInt64. split; [discriminate |].
      intros [Hx Hox]. pose proof (Hboth x Hx Hox).
      replace x with min in Hx, Hox by lia. cbn [testInt64] in Hx.
      rewrite Hx, Hox in Hmin. discriminate. }
  intros Hcreate.
  destruct (BigintValuesUsingHashTable_keep_spec this (testInt64 other)
              (proj2 (proj2 Hwf))) as [Hnd Hnm].
  assert (Hmem : forall x,
             x ∈ BigintValuesUsingHashTable_keepMarker kEmptyMarker M this
                   other
                 ++ BigintValuesUsingHashTable_keep kEmptyMarker this
                      (testInt64 other)
             <-> testInt64 (OfBigintValuesUsingHashTable this) x = true
                 /\ testInt64 other x = true).
  { intros x. rewrite elem_of_app.
    rewrite BigintValuesUsingHashTable_keepMarker_elem.
    rewrite BigintValuesUsingHashTable_keep_elem. cbn [testInt64].
    rewrite (wfHashTable_testInt64 this x Hwf). split.
    - intros [(-> & Hflag & Hox) | [Hst Hox]]; split; auto.
    - intros [[[Hflag ->] | Hst] Hox]; [left | right]; auto. }
  refine (createBigintValues_conjunctionOf _ _ r _ _ _ _ Hmem Hcreate).
  - apply BigintValuesUsingHashTable_keepMarker_NoDup; [exact Hnd |].
    intros x Hx. apply (Hnm x Hx).
  - apply (BigintValuesUsingHashTable_kept_length this other _ Hwf Hnd).
    intros x Hx. apply BigintValuesUsingHashTable_keep_elem in Hx. tauto.
Qed.

Lemma BigintValuesUsingHashTable_mergeWith_conjunctionOf
    (this : BigintValuesUsingHashTable.t) (other r : Filter) :
  wfOperand kEmptyMarker M (OfBigintValuesUsingHashTable this) ->
  wfOperand kEmptyMarker M other ->
  BigintValuesUsingHashTable_mergeWith kEmptyMarker M this other = Ok r ->
  conjunctionOf r (OfBigintValuesUsingHashTable this) other.
Proof.
  intros Hthis Hother.
  destruct other as [| | | | bv | range | h | b | m];
    cbn [BigintValuesUsingHashTable_mergeWith AlwaysFalse_mergeWith];
    intros H.
  - injection H as <-. intros x. cbn. rewrite andb_false_r. reflexivity.
  - intros x. rewrite (clone_testInt64 _ _ _ x Hthis H). cbn.
    rewrite andb_true_r. reflexivity.
  - intros x. rewrite (IsNull_mergeWith_testInt64 _ _ x H). cbn.
    rewrite andb_false_r. reflexivity.
  - injection H as <-. intros x. destruct this. cbn.
    rewrite andb_true_r. reflexivity.
  - discriminate.
  - refine (BigintValuesUsingHashTable_mergeWith_range_conjunctionOf
              this _ (BigintRange.lower_ range)
              (BigintRange.upper_ range) r Hthis _ H).
    intros x Hx. apply testInt64_range_bounds. exact Hx.
  - refine (BigintValuesUsingHashTable_mergeWith_range_conjunctionOf
              this _ (BigintValuesUsingHashTable.min_ h)
              (BigintValuesUsingHashTable.max_ h) r Hthis _ H).
    intros x Hx. exact (wfHashTable_bounds h x Hother Hx).
  - apply conjunctionOf_comm.
    apply BigintValuesUsingBitmask_mergeWith_conjunctionOf; assumption.
  - pose proof Hother as (_ & _ & _ & Hdis).
    destruct (BigintValuesUsingHashTable_keepRanges_spec this _
                (proj2 (proj2 Hthis)) Hdis) as [Hnd Hnm].
    assert (Hmem : forall x,
               x ∈ BigintValuesUsingHashTable_keepMarker kEmptyMarker M this
                     (OfBigintMultiRange m)
                   ++ BigintValuesUsingHashTable_keepRanges kEmptyMarker this
                        (BigintMultiRange.ranges_ m)
               <-> testInt64 (OfBigintValuesUsingHashTable this) x = true
                   /\ testInt64 (OfBigintMultiRange m) x = true).
    { intros x. rewrite elem_of_app.
      rewrite BigintValuesUsingHashTable_keepMarker_elem.
      rewrite (BigintValuesUsingHashTable_keepRanges_elem this _ x Hthis).
      cbn [testInt64].
      rewrite (wfHashTable_testInt64 this x Hthis).
      rewrite (wfOperand_multi_testInt64 m x Hother). split.
      - intros [(-> & Hflag & Hox) | [Hst Hox]]; split; auto.
        apply (wfOperand_multi_testInt64 m kEmptyMarker Hother). exact Hox.
      - intros [[[Hflag ->] | Hst] Hox]; [left | right]; auto.
        split; [reflexivity | split; [exact Hflag |]].
        apply (wfOperand_multi_testInt64 m kEmptyMarker Hother). exact Hox. }
    refine (createBigintValues_conjunctionOf _ _ r _ _ _ _ Hmem H).
    + apply BigintValuesUsingHashTable_keepMarker_NoDup; [exact Hnd |].
      intros x Hx. apply (Hnm x Hx).
    + apply (BigintValuesUsingHashTable_kept_length this _ _ Hthis Hnd).
      intros x Hx.
      apply (BigintValuesUsingHashTable_keepRanges_elem this _ x Hthis) in Hx.
      tauto.
Qed.

(** *** Ranges *)

Lemma BigintRange_mergeWith_BigintRange_conjunctionOf
    (this other : BigintRange.t) :
  conjunctionOf (BigintRange_mergeWith_BigintRange this other)
    (OfBigintRange this) (OfBigintRange other).
Proof.
  apply conjunctionOf_iff. intros x. cbn [testInt64].
  unfold BigintRange_mergeWith_BigintRange.
  rewrite std_max_spec, std_min_spec, !testInt64_range_bounds.
  destruct (Z.leb_spec
              (Z.max (BigintRange.lower_ this) (BigintRange.lower_ other))
              (Z.min (BigintRange.upper_ this) (BigintRange.upper_ other))).
  - cbn [testInt64]. rewrite testInt64_range_bounds. cbn. lia.
  - rewrite nullOrFalse_testInt64. split; [discriminate | lia].
Qed.

Lemma inRanges_nil (x : Z) : inRanges [] x <-> False.
Proof.
  split; [| tauto]. intros (c & Hc & _). apply elem_of_nil in Hc. exact Hc.
Qed.

Lemma inRanges_cons (c : BigintRange.t) (ranges : list BigintRange.t)
    (x : Z) :
  inRanges (c :: ranges) x
  <-> BigintRange.testInt64 c x = true \/ inRanges ranges x.
Proof.
  unfold inRanges. split.
  - intros (d & Hd & Hx). apply elem_of_cons in Hd as [-> | Hd];
      [left; exact Hx | right; exists d; auto].
  - intros [Hx | (d & Hd & Hx)].
    + exists c. split; [left | exact Hx].
    + exists d. split; [right; exact Hd | exact Hx].
Qed.

Lemma inRanges_app (l1 l2 : list BigintRange.t) (x : Z) :
  inRanges (l1 ++ l2) x <-> inRanges l1 x \/ inRanges l2 x.
Proof.
  induction l1 as [| c l1 IH]; cbn [app].
  - rewrite inRanges_nil. tauto.
  - rewrite !inRanges_cons, IH. tauto.
Qed.

Lemma BigintRange_mergeRanges_inRanges (this : BigintRange.t)
    (ranges newRanges : list BigintRange.t) :
  BigintRange_mergeRanges this ranges = Ok newRanges ->
  Forall BigintRange.wf newRanges
  /\ forall x, inRanges newRanges x
               <-> BigintRange.testInt64 this x = true /\ inRanges ranges x.
Proof.
  revert newRanges. induction ranges as [| range rest IH];
    intros newRanges; cbn [BigintRange_mergeRanges].
  - intros [= <-]. split; [constructor |]. intros x.
    rewrite inRanges_nil. tauto.
  - pose proof (BigintRange_mergeWith_BigintRange_conjunctionOf this range)
      as Hconj.
    assert (Hstep : forall x,
               testInt64 (BigintRange_mergeWith_BigintRange this range) x
               = true
               <-> BigintRange.testInt64 this x = true
                   /\ BigintRange.testInt64 range x = true).
    { intros x. rewrite (Hconj x). cbn [testInt64]. apply andb_true_iff. }
    assert (Hwf : forall merged,
               BigintRange_mergeWith_BigintRange this range
               = OfBigintRange merged -> BigintRange.wf merged).
    { unfold BigintRange_mergeWith_BigintRange. intros merged.
      destruct (Z.leb_spec
                  (std_max (BigintRange.lower_ this)
                     (BigintRange.lower_ range))
                  (std_min (BigintRange.upper_ this)
                     (BigintRange.upper_ range))) as [Hle | Hgt].
      - intros [= <-]. exact Hle.
      - destruct (_ && _); discriminate. }
    destruct (BigintRange_mergeWith_BigintRange this range)
      as [| | | | ? | merged | ? | ? | ?]; try discriminate.
    + intros H. destruct (IH _ H) as [Hall Hin]. split; [exact Hall |].
      intros x. rewrite Hin, inRanges_cons.
      specialize (Hstep x). cbn in Hstep. split; [tauto |].
      intros [Hx [Hr | Hr]]; [| tauto].
      destruct Hstep as [_ Hstep]. discriminate Hstep. split; assumption.
    + intros H. apply bind_Ok_inv in H as (rest' & Hrest & [= <-]).
      destruct (IH _ Hrest) as [Hall Hin]. split.
      * constructor; [apply Hwf; reflexivity | exact Hall].
      * intros x. rewrite !inRanges_cons, Hin.
        specialize (Hstep x). cbn [testInt64] in Hstep. tauto.
Qed.

Lemma combineBigintRanges_testInt64 (ranges : list BigintRange.t)
    (nullAllowed : bool) (r : Filter) (x : Z) :
  Forall BigintRange.wf ranges ->
  combineBigintRanges ranges nullAllowed = Ok r ->
  testInt64 r x = true <-> inRanges ranges x.
Proof.
  intros Hwf. unfold combineBigintRanges.
  destruct ranges as [| front [| second rest]].
  - intros [= <-]. rewrite nullOrFalse_testInt64, inRanges_nil.
    split; [discriminate | tauto].
  - intros [= <-]. cbn [testInt64]. rewrite inRanges_cons, inRanges_nil.
    unfold BigintRange.testInt64. cbn. tauto.
  - intros H. apply fmap_Ok_inv in H as (m & Hctor & ->).
    apply BigintMultiRange_ctor_Ok in Hctor as (-> & Hcheck & _).
    cbn [testInt64]. apply BigintMultiRange_testInt64_iff; assumption.
Qed.

Lemma BigintRange_mergeWith_multi (this : BigintRange.t)
    (m : BigintMultiRange.t) (r : Filter) :
  wfOperand kEmptyMarker M (OfBigintMultiRange m) ->
  BigintRange_mergeWith kEmptyMarker M this (OfBigintMultiRange m) = Ok r ->
  exists newRanges nullAllowed,
    combineBigintRanges newRanges nullAllowed = Ok r
    /\ Forall BigintRange.wf newRanges
    /\ forall x, inRanges newRanges x
                 <-> BigintRange.testInt64 this x = true
                     /\ BigintMultiRange.testInt64 m x = true.
Proof.
  intros Hm. cbn [BigintRange_mergeWith]. intros H.
  apply bind_Ok_inv in H as (newRanges & Hloop & Hcombine).
  destruct (BigintRange_mergeRanges_inRanges _ _ _ Hloop) as [Hwf Hin].
  eexists newRanges, _. split; [exact Hcombine | split; [exact Hwf |]].
  intros x. rewrite Hin, (wfOperand_multi_testInt64 m x Hm). reflexivity.
Qed.

Lemma BigintRange_mergeWith_conjunctionOf (this : BigintRange.t)
    (other r : Filter) :
  wfOperand kEmptyMarker M other ->
  BigintRange_mergeWith kEmptyMarker M this other = Ok r ->
  conjunctionOf r (OfBigintRange this) other.
Proof.
  intros Hother.
  destruct other as [| | | | bv | range | h | b | m];
    cbn [BigintRange_mergeWith AlwaysFalse_mergeWith]; intros H.
  - injection H as <-. intros x. cbn. rewrite andb_false_r. reflexivity.
  - intros x. rewrite (clone_testInt64 (OfBigintRange this) _ _ x I H). cbn.
    rewrite andb_true_r. reflexivity.
  - intros x. rewrite (IsNull_mergeWith_testInt64 _ _ x H). cbn.
    rewrite andb_false_r. reflexivity.
  - injection H as <-. intros x. cbn. rewrite andb_true_r. reflexivity.
  - discriminate.
  - injection H as <-. apply BigintRange_mergeWith_BigintRange_conjunctionOf.
  - apply conjunctionOf_comm.
    apply BigintValuesUsingHashTable_mergeWith_conjunctionOf;
      [exact Hother | exact I | exact H].
  - apply conjunctionOf_comm.
    apply BigintValuesUsingBitmask_mergeWith_conjunctionOf;
      [exact Hother | exact I | exact H].
  - destruct (BigintRange_mergeWith_multi this m r Hother H)
      as (newRanges & na & Hcombine & Hwf & Hin).
    apply conjunctionOf_iff. intros x.
    rewrite (combineBigintRanges_testInt64 _ _ _ x Hwf Hcombine).
    apply Hin.
Qed.

Lemma BigintMultiRange_pushed_inRanges (ranges pushed : list BigintRange.t)
    (nullAllowed : bool) (merged : Filter) :
  Forall BigintRange.wf ranges ->
  combineBigintRanges ranges nullAllowed = Ok merged ->
  match merged with
  | OfBigintRange r => Ok [r]
  | OfBigintMultiRange mergedMultiRange =>
      Ok (BigintMultiRange.ranges_ mergedMultiRange)
  | AlwaysFalse => Ok []
  | _ => Fail (CheckFailed "")
  end = Ok pushed ->
  Forall BigintRange.wf pushed
  /\ forall x, inRanges pushed x <-> inRanges ranges x.
Proof.
  intros Hwf. unfold combineBigintRanges.
  destruct ranges as [| front [| second rest]].
  - intros [= <-]. destruct nullAllowed; cbn; [discriminate |].
    intros [= <-]. split; [constructor | tauto].
  - intros [= <-] [= <-]. apply Forall_cons in Hwf as [Hfront _]. split.
    + constructor; [exact Hfront | constructor].
    + intros x. rewrite !inRanges_cons. unfold BigintRange.testInt64. cbn.
      tauto.
  - intros H. apply fmap_Ok_inv in H as (m & Hctor & ->).
    apply BigintMultiRange_ctor_Ok in Hctor as (-> & _).
    cbn. intros [= <-]. split; [exact Hwf | tauto].
Qed.

Lemma BigintMultiRange_mergeRanges_inRanges (ranges : list BigintRange.t)
    (m : BigintMultiRange.t) (newRanges : list BigintRange.t) :
  wfOperand kEmptyMarker M (OfBigintMultiRange m) ->
  BigintMultiRange_mergeRanges kEmptyMarker M ranges (OfBigintMultiRange m)
  = Ok newRanges ->
  Forall BigintRange.wf newRanges
  /\ forall x, inRanges newRanges x
               <-> inRanges ranges x
                   /\ BigintMultiRange.testInt64 m x = true.
Proof.
  intros Hm. revert newRanges.
  induction ranges as [| range rest IH]; intros newRanges;
    cbn [BigintMultiRange_mergeRanges].
  - intros [= <-]. split; [constructor |]. intros x.
    rewrite inRanges_nil. tauto.
  - intros H. apply bind_Ok_inv in H as (merged & Hmerged & H).
    apply bind_Ok_inv in H as (pushed & Hpushed & H).
    apply bind_Ok_inv in H as (rest' & Hrest & [= <-]).
    destruct (BigintRange_mergeWith_multi range m merged Hm Hmerged)
      as (kept & na & Hcombine & Hwf & Hin).
    destruct (BigintMultiRange_pushed_inRanges _ _ _ _ Hwf Hcombine Hpushed)
      as [Hwfp Hinp].
    destruct (IH _ Hrest) as [Hwfr Hinr]. split.
    + apply Forall_app. split; assumption.
    + intros x. rewrite inRanges_app, inRanges_cons, Hinp, Hin, Hinr. tauto.
Qed.

Lemma BigintMultiRange_mergeWith_conjunctionOf (this : BigintMultiRange.t)
    (other r : Filter) :
  wfOperand kEmptyMarker M (OfBigintMultiRange this) ->
  wfOperand kEmptyMarker M other ->
  BigintMultiRange_mergeWith kEmptyMarker M this other = Ok r ->
  conjunctionOf r (OfBigintMultiRange this) other.
Proof.
  intros Hthis Hother.
  destruct other as [| | | | bv | range | h | b | m];
    cbn [BigintMultiRange_mergeWith AlwaysFalse_mergeWith]; intros H.
  - injection H as <-. intros x. cbn. rewrite andb_false_r. reflexivity.
  - intros x. rewrite (clone_testInt64 _ _ _ x Hthis H). cbn.
    rewrite andb_true_r. reflexivity.
  - intros x. rewrite (IsNull_mergeWith_testInt64 _ _ x H). cbn.
    rewrite andb_false_r. reflexivity.
  - apply fmap_Ok_inv in H as (m' & Hctor & ->).
    apply BigintMultiRange_ctor_Ok in Hctor as (-> & _).
    apply conjunctionOf_iff. intros x. cbn [testInt64].
    destruct this as [ranges lowerBounds na].
    cbn in Hthis |- *. destruct Hthis as (-> & Hcheck & Hwf & _).
    rewrite !BigintMultiRange_testInt64_iff by assumption. tauto.
  - discriminate.
  - apply conjunctionOf_comm.
    apply BigintRange_mergeWith_conjunctionOf; assumption.
  - apply conjunctionOf_comm.
    apply BigintValuesUsingHashTable_mergeWith_conjunctionOf; assumption.
  - apply conjunctionOf_comm.
    apply BigintValuesUsingBitmask_mergeWith_conjunctionOf; assumption.
  - apply bind_Ok_inv in H as (newRanges & Hloop & Hcombine).
    destruct (BigintMultiRange_mergeRanges_inRanges _ _ _ Hother Hloop)
      as [Hwf Hin].
    apply conjunctionOf_iff. intros x. cbn [testInt64].
    rewrite (wfOperand_multi_testInt64 this x Hthis), <- (Hin x).
    apply (combineBigintRanges_testInt64 newRanges
             (BigintMultiRange.nullAllowed_ this
              && testNull (OfBigintMultiRange m)) r x Hwf).
    exact Hcombine.
Qed.

(** *** The constants, BoolValue and the virtual call *)

Lemma BoolValue_mergeWith_testInt64 (this : BoolValue.t) (other r : Filter)
    (x : Z) :
  BoolValue_mergeWith this other = Ok r -> testInt64 r x = false.
Proof.
  destruct other as [| | | | bv | range | h | b | m];
    cbn [BoolValue_mergeWith AlwaysFalse_mergeWith AlwaysTrue_mergeWith
         clone];
    intros H; try discriminate; try (injection H as <-; reflexivity).
  - exact (IsNull_mergeWith_testInt64 _ _ x H).
  - destruct (testBool (OfBoolValue bv) (BoolValue.value_ this));
      injection H as <-; [reflexivity | apply nullOrFalse_testInt64].
Qed.

Lemma IsNotNull_mergeWith_conjunctionOf (other r : Filter) :
  wfOperand kEmptyMarker M other ->
  IsNotNull_mergeWith kEmptyMarker M other = Ok r ->
  conjunctionOf r IsNotNull other.
Proof.
  intros Hother.
  destruct other as [| | | | bv | range | h | b | m];
    cbn [IsNotNull_mergeWith clone]; intros H.
  - injection H as <-. intros x. reflexivity.
  - injection H as <-. intros x. reflexivity.
  - injection H as <-. intros x. reflexivity.
  - injection H as <-. intros x. reflexivity.
  - intros x. rewrite (BoolValue_mergeWith_testInt64 _ _ _ x H).
    reflexivity.
  - apply conjunctionOf_comm.
    apply BigintRange_mergeWith_conjunctionOf; [exact I | exact H].
  - apply conjunctionOf_comm.
    apply BigintValuesUsingHashTable_mergeWith_conjunctionOf;
      [exact Hother | exact I | exact H].
  - apply conjunctionOf_comm.
    apply BigintValuesUsingBitmask_mergeWith_conjunctionOf;
      [exact Hother | exact I | exact H].
  - apply conjunctionOf_comm.
    apply BigintMultiRange_mergeWith_conjunctionOf;
      [exact Hother | exact I | exact H].
Qed.

(** X2.  Between operands as the constructors and the factory leave them,
    with the children of a multi-range apart from each other, a merge that
    returns a filter returns one that accepts the integers both operands
    accept. *)
Theorem mergeWith_conjunctionOf (a b r : Filter) :
  wfOperand kEmptyMarker M a ->
  wfOperand kEmptyMarker M b ->
  mergeWith a b = Ok r ->
  conjunctionOf r a b.
Proof.
  intros Ha Hb. destruct a as [| | | | bv | range | h | bm | m];
    unfold mergeWith; cbn beta iota; intros H.
  - injection H as <-. intros x. reflexivity.
  - intros x. unfold AlwaysTrue_mergeWith in H.
    rewrite (clone_testInt64 _ _ _ x Hb H). reflexivity.
  - intros x. rewrite (IsNull_mergeWith_testInt64 _ _ x H). reflexivity.
  - apply IsNotNull_mergeWith_conjunctionOf; assumption.
  - intros x. rewrite (BoolValue_mergeWith_testInt64 _ _ _ x H).
    reflexivity.
  - apply BigintRange_mergeWith_conjunctionOf; assumption.
  - apply BigintValuesUsingHashTable_mergeWith_conjunctionOf; assumption.
  - apply BigintValuesUsingBitmask_mergeWith_conjunctionOf; assumption.
  - apply BigintMultiRange_mergeWith_conjunctionOf; assumption.
Qed.

(** ** Byte strings: the comparison *)

Lemma toInt32_id (z : Z) : - 2 ^ 31 <= z < 2 ^ 31 -> toInt32 z = z.
Proof.
  intros Hz. unfold toInt32.
  change (2 ^ 31) with 2147483648 in *. change (2 ^ 32) with 4294967296.
  rewrite Z.mod_small; lia.
Qed.

Lemma toInt32_toUint64 (z : Z) :
  - 2 ^ 31 <= z < 2 ^ 31 -> toInt32 (toUint64 z) = z.
Proof.
  intros Hz. unfold toInt32, toUint64.
  change (2 ^ 31) with 2147483648 in *. change (2 ^ 32) with 4294967296.
  change (2 ^ 64) with (4294967296 * 4294967296).
  assert (Hk : exists k, z mod (4294967296 * 4294967296)
                         = z + k * 4294967296).
  { exists (- (z / (4294967296 * 4294967296)) * 4294967296).
    pose proof (Z.div_mod z (4294967296 * 4294967296) ltac:(lia)). lia. }
  destruct Hk as [k ->].
  replace (z + k * 4294967296 + 2147483648)
    with (z + 2147483648 + k * 4294967296) by lia.
  rewrite Z.mod_add by lia. rewrite Z.mod_small; lia.
Qed.

(** [memcmp] over the common length decides the order unless one string is
    a prefix of the other; then the lengths decide. *)
Lemma memcmp_compare (lhs rhs : string) :
  let compare :=
    memcmp lhs rhs (Nat.min (String.length lhs) (String.length rhs)) in
  (compare <> 0 -> (compare ?= 0) = String.compare lhs rhs)
  /\ (compare = 0 ->
      String.compare lhs rhs
      = (Z.of_nat (String.length lhs) ?= Z.of_nat (String.length rhs))).
Proof.
  revert rhs. induction lhs as [| a lhs IH]; intros [| b rhs]; cbn -[Z.of_nat];
    try (split; [congruence | reflexivity]).
  destruct (Ascii.eqb_spec a b) as [-> | Hab].
  - unfold Ascii.compare. rewrite N.compare_refl.
    destruct (IH rhs) as [Hne Heq]. split; [exact Hne |].
    intros H. rewrite (Heq H), !Nat2Z.inj_compare. reflexivity.
  - assert (Hn : Ascii.N_of_ascii a <> Ascii.N_of_ascii b).
    { intros Hn. apply Hab.
      rewrite <- (Ascii.ascii_N_embedding a), <- (Ascii.ascii_N_embedding b).
      rewrite Hn. reflexivity. }
    split; [| lia]. intros _. unfold Ascii.compare.
    rewrite <- Z.compare_sub, N2Z.inj_compare.
    destruct (N.compare_spec (Ascii.N_of_ascii a) (Ascii.N_of_ascii b));
      [contradiction | reflexivity | reflexivity].
Qed.

Lemma compareRanges_compare (lhs rhs : string) :
  Z.of_nat (String.length lhs) < 2 ^ 31 ->
  Z.of_nat (String.length rhs) < 2 ^ 31 ->
  (compareRanges lhs rhs ?= 0) = String.compare lhs rhs.
Proof.
  intros Hl Hr. unfold compareRanges.
  rewrite toInt32_id by lia.
  rewrite <- Nat2Z.inj_min, Nat2Z.id.
  destruct (memcmp_compare lhs rhs) as [Hne Heq].
  destruct (Z.eqb_spec
              (memcmp lhs rhs
                 (Nat.min (String.length lhs) (String.length rhs))) 0)
    as [H0 | H0]; cbn [negb].
  - rewrite toInt32_toUint64 by lia.
    rewrite (Heq H0). symmetry. apply Z.compare_sub.
  - exact (Hne H0).
Qed.

Lemma compareRanges_sign (lhs rhs : string) :
  shortBytes lhs -> shortBytes rhs ->
  ((compareRanges lhs rhs <? 0)
   = bool_decide (String.compare lhs rhs = Lt))
  /\ ((compareRanges lhs rhs =? 0)
      = bool_decide (String.compare lhs rhs = Eq))
  /\ ((compareRanges lhs rhs >? 0)
      = bool_decide (String.compare lhs rhs = Gt)).
Proof.
  intros Hl Hr. rewrite <- (compareRanges_compare lhs rhs Hl Hr).
  unfold Z.ltb, Z.eqb, Z.gtb.
  destruct (compareRanges lhs rhs) as [| p | p]; cbn; repeat split.
Qed.

Lemma bytesLe_trans (a b c : string) :
  bytesLe a b -> bytesLe b c -> bytesLe a c.
Proof.
  unfold bytesLe. revert b c.
  induction a as [| x a IH]; intros [| y b] [| z c]; cbn; try congruence.
  unfold Ascii.compare.
  destruct (N.compare_spec (Ascii.N_of_ascii x) (Ascii.N_of_ascii y)),
    (N.compare_spec (Ascii.N_of_ascii y) (Ascii.N_of_ascii z)),
    (N.compare_spec (Ascii.N_of_ascii x) (Ascii.N_of_ascii z));
    try congruence; try (intros; lia).
  apply IH.
Qed.

Lemma bytesLe_antisym (a b : string) : bytesLe a b -> bytesLe b a -> a = b.
Proof.
  unfold bytesLe. intros Hab Hba. apply String.compare_eq_iff.
  rewrite String.compare_antisym in Hba.
  destruct (String.compare a b); cbn in Hba; congruence.
Qed.

Lemma String_compare_refl (a : string) : String.compare a a = Eq.
Proof.
  induction a as [| x a IH]; cbn; [reflexivity |].
  unfold Ascii.compare. rewrite N.compare_refl. exact IH.
Qed.

(** X17.  [compareRanges] orders byte strings whose lengths fit [int] as the
    lexicographic order of their bytes, taken as unsigned values, with a
    proper prefix first: its sign is that of [String.compare], and it is
    zero on equal strings only. *)
Theorem compareRanges_lexicographic (lhs rhs : string) :
  shortBytes lhs -> shortBytes rhs ->
  (compareRanges lhs rhs < 0 <-> String.compare lhs rhs = Lt)
  /\ (compareRanges lhs rhs = 0 <-> lhs = rhs)
  /\ (0 < compareRanges lhs rhs <-> String.compare lhs rhs = Gt).
Proof.
  intros Hl Hr. pose proof (compareRanges_compare lhs rhs Hl Hr) as H.
  split; [| split].
  - rewrite <- H. apply Z.compare_lt_iff.
  - rewrite <- Z.compare_eq_iff, H. split.
    + apply String.compare_eq_iff.
    + intros ->. apply String_compare_refl.
  - rewrite <- H, Z.compare_gt_iff. reflexivity.
Qed.

Lemma BytesRange_testBytes_single (f : BytesRange.t) (value : string) :
  BytesRange.singleValue_ f = true ->
  BytesRange.testBytes f value = true <-> value = BytesRange.lower_ f.
Proof.
  intros Hsingle. unfold BytesRange.testBytes. rewrite Hsingle.
  destruct (Z.eqb_spec (Z.of_nat (String.length value))
              (Z.of_nat (String.length (BytesRange.lower_ f))))
    as [Hlen | Hlen]; cbn [negb].
  - rewrite Nat2Z.id.
    pose proof (memcmp_compare value (BytesRange.lower_ f)) as Hm.
    apply Nat2Z.inj in Hlen. rewrite <- Hlen, Nat.min_id in Hm.
    cbn zeta in Hm. destruct Hm as [Hne Heq]. rewrite Z.eqb_eq. split.
    + intros H0. apply String.compare_eq_iff. rewrite (Heq H0).
      apply Z.compare_refl.
    + intros Hval.
      destruct (Z.eq_dec
                  (memcmp value (BytesRange.lower_ f) (String.length value))
                  0) as [H0 | H0]; [exact H0 |].
      specialize (Hne H0). rewrite <- Hval in Hne at 2.
      rewrite String_compare_refl in Hne.
      apply Z.compare_eq_iff in Hne. exact Hne.
  - split; [discriminate |]. intros Hval. rewrite <- Hval in Hlen.
    contradiction.
Qed.

Lemma BytesRange_testBytes_range (f : BytesRange.t) (value : string) :
  shortBytes value ->
  shortBytes (BytesRange.lower_ f) -> shortBytes (BytesRange.upper_ f) ->
  BytesRange.singleValue_ f = false ->
  BytesRange.testBytes f value = BytesRange_inBounds f value.
Proof.
  intros Hv Hlo Hhi Hsingle.
  unfold BytesRange.testBytes, BytesRange_inBounds. rewrite Hsingle.
  destruct (compareRanges_sign value (BytesRange.lower_ f) Hv Hlo)
    as (-> & -> & _).
  destruct (compareRanges_sign value (BytesRange.upper_ f) Hv Hhi)
    as (-> & -> & _).
  destruct (BytesRange.lowerUnbounded_ f), (BytesRange.upperUnbounded_ f),
    (BytesRange.lowerExclusive_ f), (BytesRange.upperExclusive_ f),
    (String.compare value (BytesRange.lower_ f)),
    (String.compare value (BytesRange.upper_ f)); reflexivity.
Qed.

(** X18.  [testBytes] of a [BytesRange] on byte strings whose lengths fit
    [int]: a single-value filter accepts its one value, and a range accepts
    the strings within its bounds in the order of byte strings, each bound
    absent, inclusive or exclusive. *)
Theorem BytesRange_testBytes_interval (f : BytesRange.t) (value : string) :
  shortBytes value ->
  shortBytes (BytesRange.lower_ f) -> shortBytes (BytesRange.upper_ f) ->
  (BytesRange.singleValue_ f = true ->
   BytesRange.testBytes f value = true <-> value = BytesRange.lower_ f)
  /\ (BytesRange.singleValue_ f = false ->
      BytesRange.testBytes f value = BytesRange_inBounds f value).
Proof.
  intros Hv Hlo Hhi. split.
  - apply BytesRange_testBytes_single.
  - apply BytesRange_testBytes_range; assumption.
Qed.

(** X19.  The range test of a [BytesRange] that has both bounds never
    rejects a summary that covers an accepted string (an absent bound of the
    summary is no bound). *)
Theorem BytesRange_testBytesRange_bounded_sound (f : BytesRange.t)
    (min max : option string) (hasNull : bool) (value : string) :
  BytesRange.lowerUnbounded_ f = false ->
  BytesRange.upperUnbounded_ f = false ->
  (BytesRange.singleValue_ f = true ->
   BytesRange.upper_ f = BytesRange.lower_ f) ->
  shortBytes (BytesRange.lower_ f) -> shortBytes (BytesRange.upper_ f) ->
  shortBytes value ->
  from_option shortBytes True min -> from_option shortBytes True max ->
  summaryCovers min max value ->
  BytesRange.testBytes f value = true ->
  BytesRange.testBytesRange f min max hasNull = true.
Proof.
  intros Hlu Huu Hsingle Hlo Hhi Hv Hmin Hmax [Hcmin Hcmax] Htest.
  assert (Hbounds : bytesLe (BytesRange.lower_ f) value
                    /\ bytesLe value (BytesRange.upper_ f)).
  { destruct (BytesRange.singleValue_ f) eqn:Hsv.
    - apply (BytesRange_testBytes_single f value Hsv) in Htest.
      rewrite (Hsingle eq_refl), <- Htest.
      unfold bytesLe. rewrite String_compare_refl. split; discriminate.
    - rewrite (BytesRange_testBytes_range f value Hv Hlo Hhi Hsv) in Htest.
      unfold BytesRange_inBounds in Htest.
      rewrite Hlu, Huu in Htest. cbn [orb] in Htest.
      apply andb_true_iff in Htest as [H1 H2]. unfold bytesLe. split.
      + rewrite String.compare_antisym.
        destruct (String.compare value (BytesRange.lower_ f));
          cbn; congruence.
      + destruct (String.compare value (BytesRange.upper_ f)); congruence. }
  destruct Hbounds as [Hlower Hupper].
  unfold BytesRange.testBytesRange.
  destruct (hasNull && BytesRange.nullAllowed_ f); [reflexivity |].
  destruct min as [lo |], max as [hi |]; cbn [BytesRange.hasValueAnd];
    cbn [from_option] in Hmin, Hmax, Hcmin, Hcmax; rewrite Hlu, Huu.
  - destruct (String.eqb_spec lo hi) as [<- | _].
    + replace lo with value by (apply bytesLe_antisym; assumption).
      exact Htest.
    + destruct (compareRanges_sign lo (BytesRange.upper_ f) Hmin Hhi)
        as (_ & _ & ->).
      destruct (compareRanges_sign hi (BytesRange.lower_ f) Hmax Hlo)
        as (-> & _ & _).
      rewrite bool_decide_eq_false_2
        by exact (bytesLe_trans _ _ _ Hcmin Hupper).
      rewrite bool_decide_eq_false_2; [reflexivity |].
      pose proof (bytesLe_trans _ _ _ Hlower Hcmax) as Hle.
      unfold bytesLe in Hle. rewrite String.compare_antisym in Hle.
      destruct (String.compare hi (BytesRange.lower_ f)); cbn in Hle;
        congruence.
  - destruct (compareRanges_sign lo (BytesRange.upper_ f) Hmin Hhi)
      as (_ & _ & ->).
    rewrite bool_decide_eq_false_2
      by exact (bytesLe_trans _ _ _ Hcmin Hupper).
    reflexivity.
  - destruct (compareRanges_sign hi (BytesRange.lower_ f) Hmax Hlo)
      as (-> & _ & _).
    rewrite bool_decide_eq_false_2; [reflexivity |].
    pose proof (bytesLe_trans _ _ _ Hlower Hcmax) as Hle.
    unfold bytesLe in Hle. rewrite String.compare_antisym in Hle.
    destruct (String.compare hi (BytesRange.lower_ f)); cbn in Hle;
      congruence.
  - reflexivity.
Qed.

(** ** Range tests of the integer value sets and of the multi-range *)

(** X15.  The range test of a hash-table filter never rejects a summary that
    covers an accepted value, provided the marker, when it is a value, lies
    between the bounds the filter was built with. *)
Theorem BigintValuesUsingHashTable_testInt64Range_sound
    (f : BigintValuesUsingHashTable.t) (min max v : Z) (hasNull : bool) :
  (BigintValuesUsingHashTable.containsEmptyMarker_ f = true ->
   BigintValuesUsingHashTable.min_ f <= kEmptyMarker
   <= BigintValuesUsingHashTable.max_ f) ->
  min <= v <= max ->
  BigintValuesUsingHashTable.testInt64 kEmptyMarker M f v = true ->
  BigintValuesUsingHashTable.testInt64Range kEmptyMarker M f min max hasNull
  = true.
Proof.
  intros Hmarker Hv Ht. unfold BigintValuesUsingHashTable.testInt64Range.
  destruct (hasNull && _); [reflexivity |].
  destruct (Z.eqb_spec min max) as [-> | _].
  - replace max with v by lia. exact Ht.
  - assert (Hbounds : BigintValuesUsingHashTable.min_ f <= v
                      <= BigintValuesUsingHashTable.max_ f).
    { unfold BigintValuesUsingHashTable.testInt64 in Ht.
      destruct (BigintValuesUsingHashTable.containsEmptyMarker_ f) eqn:Hflag;
        cbn [andb] in Ht.
      - destruct (Z.eqb_spec v kEmptyMarker) as [-> | _];
          [exact (Hmarker eq_refl) |].
        destruct (_ || _) eqn:Hout in Ht; [discriminate |].
        apply orb_false_iff in Hout as [H1 H2]. lia.
      - destruct (_ || _) eqn:Hout in Ht; [discriminate |].
        apply orb_false_iff in Hout as [H1 H2]. lia. }
    apply negb_true_iff, orb_false_iff. split; lia.
Qed.

(** X16.  The range test of a multi-range never rejects a summary that
    covers an accepted value: the child that accepts the value meets the
    summary. *)
Theorem BigintMultiRange_testInt64Range_sound (ranges : list BigintRange.t)
    (nullAllowed : bool) (f : BigintMultiRange.t) (min max v : Z)
    (hasNull : bool) :
  BigintMultiRange.ctor ranges nullAllowed = Ok f ->
  Forall BigintRange.wf ranges ->
  min <= v <= max ->
  BigintMultiRange.testInt64 f v = true ->
  BigintMultiRange.testInt64Range f min max hasNull = true.
Proof.
  intros Hctor Hwf Hv Ht.
  apply BigintMultiRange_ctor_Ok in Hctor as (-> & Hcheck & _).
  apply (BigintMultiRange_testInt64_iff ranges nullAllowed v Hcheck Hwf) in Ht.
  destruct Ht as (c & Hc & Hcv).
  unfold BigintMultiRange.testInt64Range. cbn.
  destruct (hasNull && nullAllowed); [reflexivity |].
  apply existsb_exists. exists c. split; [apply list_elem_of_In; exact Hc |].
  apply testInt64_range_bounds in Hcv.
  unfold BigintRange.testInt64Range.
  destruct (hasNull && _); [reflexivity |].
  apply negb_true_iff, orb_false_iff. split; lia.
Qed.

(** ** BigintMultiRange: the constructor and [clone] *)

Lemma checkNoOverlap_adjacent (ranges : list BigintRange.t) :
  BigintMultiRange.checkNoOverlap ranges = true
  <-> forall (i : nat) (prev next : BigintRange.t),
        ranges !! i = Some prev -> ranges !! S i = Some next ->
        BigintRange.upper_ prev <= BigintRange.lower_ next.
Proof.
  induction ranges as [| first rest IH].
  - split; [| reflexivity]. intros _ i prev next Hi.
    rewrite lookup_nil in Hi. discriminate.
  - destruct rest as [| second rest'].
    + split; [| reflexivity]. intros _ i prev next Hi Hn.
      apply lookup_lt_Some in Hn. cbn in Hn. lia.
    + cbn [BigintMultiRange.checkNoOverlap].
      rewrite andb_true_iff, IH, Z.geb_le. split.
      * intros [Hhead Hrest] [| i] prev next Hi Hn.
        -- cbn in Hi, Hn. injection Hi as <-. injection Hn as <-.
           exact Hhead.
        -- exact (Hrest i prev next Hi Hn).
      * intros Hall. split.
        -- exact (Hall 0%nat first second eq_refl eq_refl).
        -- intros i prev next Hi Hn. exact (Hall (S i) prev next Hi Hn).
Qed.

(** X11.  The constructor returns exactly on two or more ranges of which
    each starts no earlier than the one before it ends (it may start where
    that one ends); the filter it returns holds the ranges as given and
    their lower bounds in the same order. *)
Theorem BigintMultiRange_ctor_returns (ranges : list BigintRange.t)
    (nullAllowed : bool) :
  (returns (BigintMultiRange.ctor ranges nullAllowed)
   <-> (2 <= length ranges)%nat
       /\ forall (i : nat) (prev next : BigintRange.t),
            ranges !! i = Some prev -> ranges !! S i = Some next ->
            BigintRange.upper_ prev <= BigintRange.lower_ next)
  /\ forall f : BigintMultiRange.t,
       BigintMultiRange.ctor ranges nullAllowed = Ok f ->
       f = BigintMultiRange.mk ranges (BigintRange.lower_ <$> ranges)
             nullAllowed.
Proof.
  split.
  - rewrite <- checkNoOverlap_adjacent. split.
    + intros [f Hf].
      apply BigintMultiRange_ctor_Ok in Hf as (_ & Hcheck & Hlen). auto.
    + intros [Hlen Hcheck]. unfold BigintMultiRange.ctor.
      rewrite bool_decide_eq_false_2
        by (intros ->; cbn in Hlen; lia).
      destruct (Z.ltb_spec 1 (Z.of_nat (length ranges))); [| lia].
      cbn [negb]. rewrite Hcheck. eexists. reflexivity.
  - intros f Hf. apply BigintMultiRange_ctor_Ok in Hf as (-> & _).
    reflexivity.
Qed.

(** X12.  [clone] of a multi-range that its constructor returned returns as
    well: a multi-range of the same ranges and lower bounds, with the null
    flag replaced when one is given. *)
Theorem BigintMultiRange_clone_returns (ranges : list BigintRange.t)
    (nullAllowed : bool) (f : BigintMultiRange.t) (flag : option bool) :
  BigintMultiRange.ctor ranges nullAllowed = Ok f ->
  clone (OfBigintMultiRange f) flag
  = Ok (OfBigintMultiRange
          (BigintMultiRange.mk (BigintMultiRange.ranges_ f)
             (BigintMultiRange.lowerBounds_ f)
             (default (BigintMultiRange.nullAllowed_ f) flag))).
Proof.
  intros Hctor.
  apply BigintMultiRange_ctor_Ok in Hctor as (-> & Hcheck & Hlen).
  cbn. unfold BigintMultiRange.ctor.
  rewrite bool_decide_eq_false_2 by (intros ->; cbn in Hlen; lia).
  destruct (Z.ltb_spec 1 (Z.of_nat (length ranges))); [| lia].
  cbn [negb]. rewrite Hcheck. reflexivity.
Qed.

(** ** binarySearch *)

(** X13.  On a sorted vector [binarySearch] answers membership: a result [i
    >= 0] is the first index that holds [value]; a negative result means
    that [value] is absent, and [-i - 1] is the place where it would be
    inserted: the entries before it are smaller and the others larger. *)
Theorem binarySearch_spec (values : list Z) (value : Z) :
  sortedZ values ->
  (0 <= binarySearch values value <-> value ∈ values)
  /\ (0 <= binarySearch values value ->
      values !! Z.to_nat (binarySearch values value) = Some value
      /\ forall (j : nat) (x : Z),
           (j < Z.to_nat (binarySearch values value))%nat ->
           values !! j = Some x -> x < value)
  /\ (binarySearch values value < 0 ->
      0 <= - binarySearch values value - 1 <= Z.of_nat (length values)
      /\ forall (j : nat) (x : Z),
           values !! j = Some x ->
           if Z.of_nat j <? - binarySearch values value - 1
           then x < value else value < x).
Proof.
  intros Hsorted.
  destruct (lower_bound_spec values value Hsorted) as (Hle & Hbefore & Hafter).
  unfold binarySearch. set (it := lower_bound values value) in *.
  destruct (bool_decide_reflect (it = length values)) as [Hend | Hend];
    cbn [orb].
  - split; [| split].
    + split; [lia |]. intros Hin.
      apply list_elem_of_lookup in Hin as [j Hj].
      pose proof (lookup_lt_Some _ _ _ Hj) as Hlt.
      pose proof (Hbefore j value ltac:(lia) Hj). lia.
    + lia.
    + intros _. split; [lia |]. intros j x Hj.
      pose proof (lookup_lt_Some _ _ _ Hj) as Hlt.
      destruct (Z.ltb_spec (Z.of_nat j) (- (- Z.of_nat it - 1) - 1));
        [| lia].
      apply (Hbefore j x); [lia | exact Hj].
  - assert (Hit : values !! it = Some (values !!! it)).
    { apply list_lookup_lookup_total_lt. lia. }
    pose proof (Hafter it _ ltac:(lia) Hit) as Hge.
    destruct (Z.eqb_spec (values !!! it) value) as [Heq | Hne]; cbn [negb].
    + rewrite Nat2Z.id. split; [| split].
      * split; [| lia]. intros _. apply list_elem_of_lookup. exists it.
        rewrite Hit, Heq. reflexivity.
      * intros _. split; [rewrite Hit, Heq; reflexivity |].
        intros j x Hj Hx. exact (Hbefore j x Hj Hx).
      * lia.
    + split; [| split].
      * split; [lia |]. intros Hin.
        apply list_elem_of_lookup in Hin as [j Hj].
        destruct (decide (j < it)%nat) as [Hlt | Hnlt].
        -- pose proof (Hbefore j value Hlt Hj). lia.
        -- pose proof (Hsorted it j _ _ ltac:(lia) Hit Hj). lia.
      * lia.
      * intros _. split; [lia |]. intros j x Hj.
        destruct (Z.ltb_spec (Z.of_nat j) (- (- Z.of_nat it - 1) - 1))
          as [Hlt | Hnlt].
        -- apply (Hbefore j x); [lia | exact Hj].
        -- pose proof (Hsorted it j _ _ ltac:(lia) Hit Hj). lia.
Qed.

(** ** BigintValuesUsingBitmask: the constructor *)

Lemma setBits_Ok_range (min : Z) (values : list Z) :
  forall bitmask bits : list bool,
    BigintValuesUsingBitmask.setBits min values bitmask = Ok bits ->
    length bits = length bitmask
    /\ forall v, v ∈ values -> 0 <= v - min < Z.of_nat (length bitmask).
Proof.
  induction values as [| value rest IH]; intros bitmask bits;
    cbn [BigintValuesUsingBitmask.setBits].
  - intros [= <-]. split; [reflexivity |]. intros v Hv.
    apply elem_of_nil in Hv. contradiction.
  - destruct (Z.leb_spec 0 (value - min)); cbn [andb]; [| discriminate].
    destruct (Z.ltb_spec (value - min) (Z.of_nat (length bitmask)));
      [| discriminate].
    intros Hrest. apply IH in Hrest as [Hlen Hrange].
    rewrite length_insert in Hlen, Hrange. split; [exact Hlen |].
    intros v Hv. apply elem_of_cons in Hv as [-> | Hv]; [lia | auto].
Qed.

(** X10.  The constructor returns exactly when [min < max], there are two or
    more values, every value lies between [min] and [max] (its bit is inside
    the vector) and the number of bits [max - min + 1] is an [int64_t]. The
    filter it returns has one bit for each integer from [min] to [max] and
    accepts exactly the values it was given. *)
Theorem BigintValuesUsingBitmask_ctor_round_trip (min max : Z)
    (values : list Z) (nullAllowed : bool) :
  (returns (BigintValuesUsingBitmask.ctor min max values nullAllowed)
   <-> min < max /\ (2 <= length values)%nat /\ int64 (max - min + 1)
       /\ forall v, v ∈ values -> min <= v <= max)
  /\ forall f : BigintValuesUsingBitmask.t,
       BigintValuesUsingBitmask.ctor min max values nullAllowed = Ok f ->
       length (BigintValuesUsingBitmask.bitmask_ f) = Z.to_nat (max - min + 1)
       /\ forall x, BigintValuesUsingBitmask.testInt64 f x = true
                    <-> x ∈ values.
Proof.
  assert (Hpre : forall f : BigintValuesUsingBitmask.t,
             BigintValuesUsingBitmask.ctor min max values nullAllowed = Ok f ->
             (min < max /\ (2 <= length values)%nat /\ int64 (max - min + 1)
              /\ forall v, v ∈ values -> min <= v <= max)
             /\ length (BigintValuesUsingBitmask.bitmask_ f)
                = Z.to_nat (max - min + 1)).
  { intros f. unfold BigintValuesUsingBitmask.ctor.
    destruct (Z.ltb_spec min max) as [Hminmax | _]; cbn [negb];
      [| discriminate].
    destruct (Z.ltb_spec 1 (Z.of_nat (length values))) as [Hsize | _];
      cbn [negb]; [| discriminate].
    destruct (isInt64 (max - min + 1)) eqn:Hint; cbn [negb]; [| discriminate].
    apply isInt64_spec in Hint.
    destruct (BigintValuesUsingBitmask.setBits min values _) as [bits |]
      eqn:Hbits; [| discriminate].
    cbn. intros [= <-]. apply setBits_Ok_range in Hbits as [Hlen Hrange].
    rewrite length_replicate in Hlen, Hrange. cbn. split; [| exact Hlen].
    split; [exact Hminmax | split; [lia | split; [exact Hint |]]].
    intros v Hv. apply Hrange in Hv. lia. }
  split.
  - split.
    + intros [f Hf]. exact (proj1 (Hpre f Hf)).
    + intros (Hminmax & Hlen & Hint & Hrange).
      destruct (BigintValuesUsingBitmask_ctor_spec min max values nullAllowed
                  Hminmax Hlen Hint Hrange) as (b & Hb & _).
      exists b. exact Hb.
  - intros f Hf. destruct (Hpre f Hf) as [(Hminmax & Hlen & Hint & Hrange) Hbits].
    split; [exact Hbits |].
    destruct (BigintValuesUsingBitmask_ctor_spec min max values nullAllowed
                Hminmax Hlen Hint Hrange) as (b & Hb & _ & _ & _ & Hmem).
    rewrite Hf in Hb. injection Hb as <-. exact Hmem.
Qed.

(** ** createBigintValues on distinct values *)

Lemma vectorMin_lt_vectorMax (front second : Z) (rest : list Z) :
  NoDup (front :: second :: rest) ->
  vectorMin front (second :: rest) < vectorMax front (second :: rest).
Proof.
  intros Hnd.
  destruct (vectorMin_spec front (second :: rest)) as [_ Hmin].
  destruct (vectorMax_spec front (second :: rest)) as [_ Hmax].
  pose proof (Hmin front ltac:(left)) as H1.
  pose proof (Hmax front ltac:(left)) as H2.
  pose proof (Hmin second ltac:(right; left)) as H3.
  pose proof (Hmax second ltac:(right; left)) as H4.
  apply NoDup_cons in Hnd as [Hfront _].
  assert (front <> second) by (intros ->; apply Hfront; left).
  lia.
Qed.

Lemma createBigintValues_returns (values : list Z) (nullAllowed : bool) :
  NoDup values ->
  3 * Z.of_nat (length values) < 2 ^ 32 ->
  returns (createBigintValues values nullAllowed).
Proof.
  intros Hnd Hsmall.
  destruct values as [| front [| second rest]];
    [eexists; reflexivity | eexists; reflexivity |].
  pose proof (vectorMin_lt_vectorMax front second rest Hnd) as Hminmax.
  rewrite (createBigintValues_unfold front second rest nullAllowed).
  set (values := front :: second :: rest) in *.
  set (min := vectorMin front (second :: rest)) in *.
  set (max := vectorMax front (second :: rest)) in *.
  assert (Hn : 2 <= Z.of_nat (length values)) by (cbn [length values]; lia).
  destruct (isInt64 (max - min) && (_ =? _)); [eexists; reflexivity |].
  destruct (isInt64 (max - min) && _) eqn:Hdense.
  - apply andb_true_iff in Hdense as [Hint Hdense].
    apply isInt64_spec in Hint. rewrite (toInt64_id _ Hint) in Hdense.
    unfold int64, kInt64Min, kInt64Max in Hint.
    rewrite toUint64_id in Hdense by lia.
    rewrite toUint64_id in Hdense by lia.
    destruct (BigintValuesUsingBitmask_ctor_spec min max values nullAllowed)
      as (b & Hok & _).
    + exact Hminmax.
    + lia.
    + unfold int64, kInt64Min, kInt64Max.
      apply orb_true_iff in Hdense as [Hd | Hd]; lia.
    + intros v Hv. split.
      * apply (proj2 (vectorMin_spec front (second :: rest))). exact Hv.
      * apply (proj2 (vectorMax_spec front (second :: rest))). exact Hv.
    + rewrite Hok. eexists. reflexivity.
  - destruct (BigintValuesUsingHashTable_ctor_inv min max values nullAllowed
                Hminmax ltac:(lia) Hsmall)
      as (hashTable & inserted & flag & Hok & _).
    rewrite Hok. eexists. reflexivity.
Qed.

(** X9.  On a vector of distinct values (fewer than [2^32 / 3]) the factory
    returns a filter, whichever representation it chooses, that accepts
    exactly the values of the vector, and null exactly when [nullAllowed]. *)
Theorem createBigintValues_accepts_exactly (values : list Z)
    (nullAllowed : bool) :
  NoDup values ->
  3 * Z.of_nat (length values) < 2 ^ 32 ->
  exists r : Filter,
    createBigintValues values nullAllowed = Ok r
    /\ (forall x, testInt64 r x = true <-> x ∈ values)
    /\ testNull r = nullAllowed.
Proof.
  intros Hnd Hsmall.
  destruct (createBigintValues_returns values nullAllowed Hnd Hsmall)
    as [r Hr].
  exists r. split; [exact Hr | split].
  - apply (createBigintValues_testInt64 values nullAllowed r Hnd); [| exact Hr].
    unfold kMaxVectorSize. lia.
  - exact (createBigintValues_testNull values nullAllowed r Hr).
Qed.

(** ** Ranges in order *)

Lemma rangesApart_nil (gap : Z) : rangesApart gap [].
Proof. intros i j ri rj _ Hi. rewrite lookup_nil in Hi. discriminate. Qed.

Lemma rangesApart_cons (gap : Z) (range : BigintRange.t)
    (rest : list BigintRange.t) :
  rangesApart gap (range :: rest)
  <-> (forall later, later ∈ rest ->
                     BigintRange.upper_ range + gap
                     <= BigintRange.lower_ later)
      /\ rangesApart gap rest.
Proof.
  split.
  - intros Hall. split.
    + intros later Hin. apply list_elem_of_lookup in Hin as [j Hj].
      apply (Hall 0%nat (S j) range later); [lia | reflexivity | exact Hj].
    + intros i j ri rj Hij Hi Hj.
      apply (Hall (S i) (S j) ri rj); [lia | exact Hi | exact Hj].
  - intros [Hhead Hrest] i j ri rj Hij Hi Hj.
    destruct j as [| j]; [lia |]. cbn in Hj.
    destruct i as [| i].
    + cbn in Hi. injection Hi as <-. apply Hhead.
      apply list_elem_of_lookup. exists j. exact Hj.
    + cbn in Hi. apply (Hrest i j ri rj); [lia | exact Hi | exact Hj].
Qed.

Lemma rangesApart_app (gap : Z) (l1 l2 : list BigintRange.t) :
  rangesApart gap (l1 ++ l2)
  <-> rangesApart gap l1 /\ rangesApart gap l2
      /\ forall a b, a ∈ l1 -> b ∈ l2 ->
                     BigintRange.upper_ a + gap <= BigintRange.lower_ b.
Proof.
  induction l1 as [| range l1 IH]; cbn [app].
  - split.
    + intros H. split; [apply rangesApart_nil | split; [exact H |]].
      intros a b Ha. apply elem_of_nil in Ha. contradiction.
    + tauto.
  - rewrite !rangesApart_cons, IH. split.
    + intros [Hhead (H1 & H2 & Hcross)]. split; [split |].
      * intros later Hin. apply Hhead. apply elem_of_app. left. exact Hin.
      * exact H1.
      * split; [exact H2 |]. intros a b Ha Hb.
        apply elem_of_cons in Ha as [-> | Ha].
        -- apply Hhead. apply elem_of_app. right. exact Hb.
        -- exact (Hcross a b Ha Hb).
    + intros [[Hhead H1] [H2 Hcross]]. split.
      * intros later Hin. apply elem_of_app in Hin as [Hin | Hin].
        -- exact (Hhead later Hin).
        -- apply Hcross; [left | exact Hin].
      * split; [exact H1 | split; [exact H2 |]].
        intros a b Ha Hb. apply Hcross; [right; exact Ha | exact Hb].
Qed.

Lemma rangesApart_checkNoOverlap (ranges : list BigintRange.t) :
  rangesApart 0 ranges -> BigintMultiRange.checkNoOverlap ranges = true.
Proof.
  intros Hapart. apply checkNoOverlap_adjacent. intros i prev next Hi Hn.
  pose proof (Hapart i (S i) prev next ltac:(lia) Hi Hn). lia.
Qed.

Lemma checkNoOverlap_rangesApart (ranges : list BigintRange.t) :
  BigintMultiRange.checkNoOverlap ranges = true ->
  Forall BigintRange.wf ranges ->
  rangesApart 0 ranges.
Proof.
  intros Hcheck Hwf i j ri rj Hij Hi Hj.
  pose proof (checkNoOverlap_lookup ranges Hcheck Hwf i j ri rj Hij Hi Hj).
  lia.
Qed.

Lemma rangesApart_weaken (gap gap' : Z) (ranges : list BigintRange.t) :
  gap' <= gap -> rangesApart gap ranges -> rangesApart gap' ranges.
Proof.
  intros Hle Hapart i j ri rj Hij Hi Hj.
  pose proof (Hapart i j ri rj Hij Hi Hj). lia.
Qed.

Lemma disjointRanges_rangesApart (ranges : list BigintRange.t) :
  disjointRanges ranges <-> rangesApart 1 ranges.
Proof.
  split; intros H i j ri rj Hij Hi Hj;
    pose proof (H i j ri rj Hij Hi Hj); lia.
Qed.

(** *** BigintRange with the children of a multi-range *)

Lemma BigintRange_mergeWith_BigintRange_cases (this other : BigintRange.t) :
  (rangesMeet this other
   /\ BigintRange_mergeWith_BigintRange this other
      = OfBigintRange
          (BigintRange.mk
             (Z.max (BigintRange.lower_ this) (BigintRange.lower_ other))
             (Z.min (BigintRange.upper_ this) (BigintRange.upper_ other))
             (BigintRange.nullAllowed_ this
              && BigintRange.nullAllowed_ other)))
  \/ (~ rangesMeet this other
      /\ BigintRange_mergeWith_BigintRange this other
         = nullOrFalse (BigintRange.nullAllowed_ this
                        && BigintRange.nullAllowed_ other)).
Proof.
  unfold BigintRange_mergeWith_BigintRange, rangesMeet.
  rewrite std_max_spec, std_min_spec.
  destruct (Z.leb_spec
              (Z.max (BigintRange.lower_ this) (BigintRange.lower_ other))
              (Z.min (BigintRange.upper_ this) (BigintRange.upper_ other)));
    [left | right]; (split; [lia | reflexivity]).
Qed.

Lemma BigintRange_mergeRanges_returns (this : BigintRange.t)
    (ranges : list BigintRange.t) :
  returns (BigintRange_mergeRanges this ranges)
  <-> forall child, child ∈ ranges ->
        BigintRange.nullAllowed_ this = true ->
        BigintRange.nullAllowed_ child = true ->
        rangesMeet this child.
Proof.
  induction ranges as [| range rest IH]; cbn [BigintRange_mergeRanges].
  - split; [| intros _; eexists; reflexivity].
    intros _ child Hin. apply elem_of_nil in Hin. contradiction.
  - destruct (BigintRange_mergeWith_BigintRange_cases this range)
      as [[Hmeet ->] | [Hmiss ->]].
    + split.
      * intros [new Hnew] child Hin Hn1 Hn2.
        apply bind_Ok_inv in Hnew as (rest' & Hrest & _).
        apply elem_of_cons in Hin as [-> | Hin]; [exact Hmeet |].
        apply (proj1 IH); [eexists; exact Hrest | exact Hin | | ]; assumption.
      * intros Hall.
        destruct (proj2 IH) as [rest' Hrest].
        { intros child Hin. apply Hall. right. exact Hin. }
        rewrite Hrest. eexists. reflexivity.
    + destruct (BigintRange.nullAllowed_ this) eqn:Hn1,
        (BigintRange.nullAllowed_ range) eqn:Hn2; cbn [andb nullOrFalse].
      * split; [intros [new Hnew]; discriminate |].
        intros Hall. exfalso. apply Hmiss.
        apply (Hall range); [left | reflexivity | exact Hn2].
      * rewrite IH. split.
        -- intros Hall child Hin _ Hc.
           apply elem_of_cons in Hin as [-> | Hin]; [congruence |].
           apply Hall; [exact Hin | reflexivity | exact Hc].
        -- intros Hall child Hin. apply Hall. right. exact Hin.
      * rewrite IH. split; intros Hall child Hin Hn; discriminate.
      * rewrite IH. split; intros Hall child Hin Hn; discriminate.
Qed.

Lemma BigintRange_mergeRanges_apart (gap : Z) (this : BigintRange.t)
    (ranges : list BigintRange.t) :
  forall newRanges : list BigintRange.t,
    BigintRange_mergeRanges this ranges = Ok newRanges ->
    rangesApart gap ranges ->
    rangesApart gap newRanges
    /\ forall new, new ∈ newRanges ->
                   BigintRange.wf new
                   /\ withinRange this new
                   /\ exists child, child ∈ ranges /\ withinRange child new.
Proof.
  induction ranges as [| range rest IH]; intros newRanges;
    cbn [BigintRange_mergeRanges].
  - intros [= <-] _. split; [apply rangesApart_nil |].
    intros new Hin. apply elem_of_nil in Hin. contradiction.
  - intros Hnew Hapart. apply rangesApart_cons in Hapart as [Hhead Hapart].
    destruct (BigintRange_mergeWith_BigintRange_cases this range)
      as [[Hmeet Heq] | [Hmiss Heq]]; rewrite Heq in Hnew.
    + apply bind_Ok_inv in Hnew as (rest' & Hrest & [= <-]).
      destruct (IH rest' Hrest Hapart) as [Hapart' Hall].
      unfold rangesMeet in Hmeet. split.
      * apply rangesApart_cons. split; [| exact Hapart'].
        intros later Hin.
        destruct (Hall later Hin) as (_ & _ & child & Hchild & Hwithin).
        pose proof (Hhead child Hchild). unfold withinRange in Hwithin.
        cbn. lia.
      * intros new Hin. apply elem_of_cons in Hin as [-> | Hin].
        -- unfold BigintRange.wf, withinRange. cbn.
           split; [lia | split; [lia |]].
           exists range. split; [left | lia].
        -- destruct (Hall new Hin) as (Hwf & Hthis & child & Hchild & Hin').
           split; [exact Hwf | split; [exact Hthis |]].
           exists child. split; [right; exact Hchild | exact Hin'].
    + destruct (_ && _); cbn [nullOrFalse] in Hnew; [discriminate |].
      destruct (IH newRanges Hnew Hapart) as [Hapart' Hall].
      split; [exact Hapart' |]. intros new Hin.
      destruct (Hall new Hin) as (Hwf & Hthis & child & Hchild & Hin').
      split; [exact Hwf | split; [exact Hthis |]].
      exists child. split; [right; exact Hchild | exact Hin'].
Qed.

Lemma combineBigintRanges_returns (ranges : list BigintRange.t)
    (nullAllowed : bool) :
  rangesApart 0 ranges -> returns (combineBigintRanges ranges nullAllowed).
Proof.
  intros Hapart. unfold combineBigintRanges.
  destruct ranges as [| front [| second rest]];
    [eexists; reflexivity | eexists; reflexivity |].
  unfold BigintMultiRange.ctor.
  rewrite bool_decide_eq_false_2 by discriminate.
  destruct (Z.ltb_spec 1 (Z.of_nat (length (front :: second :: rest))))
    as [_ | Hlen]; [| cbn [length] in Hlen; lia].
  cbn [negb]. rewrite (rangesApart_checkNoOverlap _ Hapart).
  eexists. reflexivity.
Qed.

(** X6.  A [BigintRange] merged with a multi-range that its constructor
    returned (children [lo <= hi]) returns a filter unless both the range
    and one of the children that it misses accept null: on such a child the
    inner merge gives [IsNull], and the check that follows it fails. *)
Theorem BigintRange_mergeWith_multi_returns (this : BigintRange.t)
    (ranges : list BigintRange.t) (nullAllowed : bool)
    (other : BigintMultiRange.t) :
  BigintMultiRange.ctor ranges nullAllowed = Ok other ->
  Forall BigintRange.wf ranges ->
  returns (BigintRange_mergeWith kEmptyMarker M this
             (OfBigintMultiRange other))
  <-> forall child, child ∈ ranges ->
        BigintRange.nullAllowed_ this = true ->
        BigintRange.nullAllowed_ child = true ->
        rangesMeet this child.
Proof.
  intros Hctor Hwf.
  apply BigintMultiRange_ctor_Ok in Hctor as (-> & Hcheck & _).
  cbn [BigintRange_mergeWith BigintMultiRange.ranges_].
  rewrite <- BigintRange_mergeRanges_returns. split.
  - intros [r Hr]. apply bind_Ok_inv in Hr as (newRanges & Hloop & _).
    exists newRanges. exact Hloop.
  - intros [newRanges Hloop]. rewrite Hloop.
    apply combineBigintRanges_returns.
    apply (BigintRange_mergeRanges_apart 0 this ranges newRanges Hloop).
    apply checkNoOverlap_rangesApart; assumption.
Qed.

(** ** Merges keep their operands well formed *)

Lemma BigintValuesUsingHashTable_ctor_wf (min max : Z) (values : list Z)
    (nullAllowed : bool) (h : BigintValuesUsingHashTable.t) :
  NoDup values ->
  Z.of_nat (length values) <= kMaxVectorSize ->
  (forall x, x ∈ values -> min <= x <= max) ->
  BigintValuesUsingHashTable.ctor kEmptyMarker M min max values nullAllowed
  = Ok h ->
  wfHashTable kEmptyMarker M h.
Proof.
  intros Hnd Hmax Hbounds Hctor. unfold kMaxVectorSize in Hmax.
  set (n := Z.of_nat (length values)) in *.
  assert (Hpre : min < max /\ 1 < n
                 /\ BigintValuesUsingHashTable.tableExponent n < 32).
  { unfold BigintValuesUsingHashTable.ctor in Hctor. fold n in Hctor.
    destruct (Z.ltb_spec min max); [| discriminate].
    destruct (Z.ltb_spec 1 n); [| discriminate].
    destruct (Z.leb_spec 32 (BigintValuesUsingHashTable.tableExponent n));
      [discriminate |].
    auto. }
  destruct Hpre as (Hminmax & Hn & He).
  assert (Hsmall : 3 * n < 2 ^ 32).
  { unfold BigintValuesUsingHashTable.tableExponent in He.
    rewrite toUint64_id in He by lia.
    apply Z.log2_lt_pow2 in He; lia. }
  pose proof (BigintValuesUsingHashTable_ctor_NoDup min max values
                nullAllowed h Hnd Hsmall Hctor) as [_ Hstored].
  destruct (BigintValuesUsingHashTable_ctor_inv min max values nullAllowed
              Hminmax ltac:(lia) Hsmall)
    as (hashTable & inserted & flag & Hok & _ & Hinv & Hmem & _ & Hflag).
  rewrite Hok in Hctor. injection Hctor as <-.
  rewrite tableSize_pow2 in Hinv. split; [| split].
  - exists (BigintValuesUsingHashTable.tableExponent n), inserted.
    split; [split; [apply tableExponent_nonneg | exact He] |].
    split; [exact Hinv |]. intros x Hx. apply Hbounds, Hmem, Hx.
  - cbn. intros Hf. apply Hbounds, Hflag, Hf.
  - exact Hstored.
Qed.

Lemma createBigintValues_wfOperand (values : list Z) (nullAllowed : bool)
    (r : Filter) :
  NoDup values ->
  Z.of_nat (length values) <= kMaxVectorSize ->
  keptBounded values ->
  createBigintValues values nullAllowed = Ok r ->
  wfOperand kEmptyMarker M r.
Proof.
  intros Hnodup Hsize Hkept Hcreate.
  destruct values as [| front [| second rest]].
  - injection Hcreate as <-. destruct nullAllowed; exact I.
  - injection Hcreate as <-. exact I.
  - rewrite (createBigintValues_unfold front second rest nullAllowed)
      in Hcreate.
    set (values := front :: second :: rest) in *.
    set (min := vectorMin front (second :: rest)) in *.
    set (max := vectorMax front (second :: rest)) in *.
    assert (Hrange : forall v, v ∈ values -> min <= v <= max).
    { intros v Hv. split.
      - apply (proj2 (vectorMin_spec front (second :: rest))). exact Hv.
      - apply (proj2 (vectorMax_spec front (second :: rest))). exact Hv. }
    destruct (isInt64 (max - min) && (_ =? _)).
    { injection Hcreate as <-. exact I. }
    destruct (isInt64 (max - min) && _) eqn:Hdense in Hcreate.
    + apply fmap_Ok_inv in Hcreate as (b & Hctor & ->).
      assert (Hpre : min < max /\ int64 (max - min + 1)).
      { unfold BigintValuesUsingBitmask.ctor in Hctor.
        destruct (Z.ltb_spec min max); [| discriminate].
        destruct (negb (1 <? _)); [discriminate |].
        destruct (isInt64 (max - min + 1)) eqn:Hint'; [| discriminate].
        apply isInt64_spec in Hint'. auto. }
      destruct Hpre as [Hminmax Hint'].
      destruct (BigintValuesUsingBitmask_ctor_spec min max values nullAllowed
                  Hminmax ltac:(cbn [length values]; lia) Hint' Hrange)
        as (b' & Hok & Hmin & Hmax & _).
      rewrite Hok in Hctor. injection Hctor as ->.
      cbn [wfOperand]. rewrite Hmin, Hmax.
      destruct Hkept as [(lo & hi & Hclose & Hin) | Hfew].
      * pose proof (Hin min
                      (proj1 (vectorMin_spec front (second :: rest)))).
        pose proof (Hin max
                      (proj1 (vectorMax_spec front (second :: rest)))).
        lia.
      * apply andb_true_iff in Hdense as [Hint Hdense].
        apply isInt64_spec in Hint. rewrite (toInt64_id _ Hint) in Hdense.
        unfold int64, kInt64Min, kInt64Max in Hint.
        rewrite toUint64_id in Hdense by lia.
        rewrite toUint64_id in Hdense by lia.
        unfold kMaxVectorSize.
        apply orb_true_iff in Hdense as [Hd | Hd]; lia.
    + apply fmap_Ok_inv in Hcreate as (h & Hctor & ->).
      exact (BigintValuesUsingHashTable_ctor_wf min max values nullAllowed h
               Hnodup Hsize Hrange Hctor).
Qed.

Lemma clone_wfOperand (f r : Filter) (nullAllowed : option bool) :
  wfOperand kEmptyMarker M f ->
  clone f nullAllowed = Ok r ->
  wfOperand kEmptyMarker M r.
Proof.
  destruct f as [| | | | bv | range | h | b | m]; cbn [clone]; intros Hwf H;
    try (injection H as <-; exact I).
  - injection H as <-. destruct h. exact Hwf.
  - injection H as <-. destruct b. exact Hwf.
  - apply fmap_Ok_inv in H as (m' & Hctor & ->).
    apply BigintMultiRange_ctor_Ok in Hctor as (-> & _).
    destruct m as [ranges lowerBounds na]. cbn in Hwf |- *.
    destruct Hwf as (_ & Hrest). split; [reflexivity | exact Hrest].
Qed.

Lemma nullOrFalse_wfOperand (nullAllowed : bool) :
  wfOperand kEmptyMarker M (nullOrFalse nullAllowed).
Proof. destruct nullAllowed; exact I. Qed.

Lemma IsNull_mergeWith_wfOperand (other r : Filter) :
  IsNull_mergeWith other = Ok r -> wfOperand kEmptyMarker M r.
Proof.
  unfold IsNull_mergeWith. destruct (testNull other); intros [= <-]; exact I.
Qed.

Lemma BoolValue_mergeWith_wfOperand (this : BoolValue.t) (other r : Filter) :
  BoolValue_mergeWith this other = Ok r -> wfOperand kEmptyMarker M r.
Proof.
  destruct other as [| | | | bv | range | h | b | m];
    cbn [BoolValue_mergeWith AlwaysFalse_mergeWith AlwaysTrue_mergeWith
         clone];
    intros H; try discriminate; try (injection H as <-; exact I).
  - exact (IsNull_mergeWith_wfOperand _ _ H).
  - destruct (testBool (OfBoolValue bv) (BoolValue.value_ this));
      injection H as <-; [exact I | apply nullOrFalse_wfOperand].
Qed.

Lemma combineBigintRanges_wfOperand (ranges : list BigintRange.t)
    (nullAllowed : bool) (r : Filter) :
  Forall BigintRange.wf ranges ->
  rangesApart 1 ranges ->
  combineBigintRanges ranges nullAllowed = Ok r ->
  wfOperand kEmptyMarker M r.
Proof.
  intros Hwf Hapart. unfold combineBigintRanges.
  destruct ranges as [| front [| second rest]].
  - intros [= <-]. apply nullOrFalse_wfOperand.
  - intros [= <-]. exact I.
  - intros H. apply fmap_Ok_inv in H as (m & Hctor & ->).
    apply BigintMultiRange_ctor_Ok in Hctor as (-> & Hcheck & _).
    cbn. split; [reflexivity | split; [exact Hcheck | split; [exact Hwf |]]].
    apply disjointRanges_rangesApart. exact Hapart.
Qed.

Lemma BigintValuesUsingBitmask_mergeWith_range_wfOperand
    (this : BigintValuesUsingBitmask.t) (other : Filter) (min max : Z)
    (r : Filter) :
  wfOperand kEmptyMarker M (OfBigintValuesUsingBitmask this) ->
  BigintValuesUsingBitmask.min_ this <= min ->
  max <= BigintValuesUsingBitmask.max_ this ->
  BigintValuesUsingBitmask_mergeWith_range kEmptyMarker M this min max other
  = Ok r ->
  wfOperand kEmptyMarker M r.
Proof.
  intros Hwf Hmin Hmax H. unfold BigintValuesUsingBitmask_mergeWith_range in H.
  apply bind_Ok_inv in H as (kept & Hkept & Hcreate).
  pose proof (BigintValuesUsingBitmask_keep_spec _ _ _ _ _ Hkept) as [Hnd _].
  assert (Hin : forall x, x ∈ kept ->
                  BigintValuesUsingBitmask.min_ this <= x
                  <= BigintValuesUsingBitmask.max_ this).
  { intros x Hx.
    apply (BigintValuesUsingBitmask_keep_elem _ _ _ _ _ x Hkept) in Hx. lia. }
  cbn [wfOperand] in Hwf.
  refine (createBigintValues_wfOperand kept _ r Hnd _ _ Hcreate).
  - pose proof (NoDup_length_interval kept _ _ Hnd Hin).
    unfold kMaxVectorSize in *. lia.
  - left. eexists _, _. split; [exact Hwf | exact Hin].
Qed.

Lemma BigintValuesUsingBitmask_mergeWith_wfOperand
    (this : BigintValuesUsingBitmask.t) (other r : Filter) :
  wfOperand kEmptyMarker M (OfBigintValuesUsingBitmask this) ->
  wfOperand kEmptyMarker M other ->
  BigintValuesUsingBitmask_mergeWith kEmptyMarker M this other = Ok r ->
  wfOperand kEmptyMarker M r.
Proof.
  intros Hthis Hother.
  destruct other as [| | | | bv | range | h | b | m];
    cbn [BigintValuesUsingBitmask_mergeWith AlwaysFalse_mergeWith];
    intros H.
  - injection H as <-. exact I.
  - exact (clone_wfOperand _ _ _ Hthis H).
  - exact (IsNull_mergeWith_wfOperand _ _ H).
  - injection H as <-. exact Hthis.
  - discriminate.
  - refine (BigintValuesUsingBitmask_mergeWith_range_wfOperand
              this _ _ _ r Hthis _ _ H);
      rewrite ?std_max_spec, ?std_min_spec; lia.
  - refine (BigintValuesUsingBitmask_mergeWith_range_wfOperand
              this _ _ _ r Hthis _ _ H);
      rewrite ?std_max_spec, ?std_min_spec; lia.
  - refine (BigintValuesUsingBitmask_mergeWith_range_wfOperand
              this _ _ _ r Hthis _ _ H);
      rewrite ?std_max_spec, ?std_min_spec; lia.
  - apply bind_Ok_inv in H as (kept & Hkept & Hcreate).
    pose proof Hother as (_ & _ & _ & Hdis).
    destruct (BigintValuesUsingBitmask_keepRanges_spec _ _ _ Hkept Hdis)
      as [Hnd _].
    assert (Hin : forall x, x ∈ kept ->
                    BigintValuesUsingBitmask.min_ this <= x
                    <= BigintValuesUsingBitmask.max_ this).
    { intros x Hx.
      apply (BigintValuesUsingBitmask_keepRanges_elem _ _ x kept Hkept)
        in Hx as [Hx _].
      apply BigintValuesUsingBitmask_testInt64_iff in Hx. tauto. }
    cbn [wfOperand] in Hthis.
    refine (createBigintValues_wfOperand kept _ r Hnd _ _ Hcreate).
    + pose proof (NoDup_length_interval kept _ _ Hnd Hin).
      unfold kMaxVectorSize in *. lia.
    + left. eexists _, _. split; [exact Hthis | exact Hin].
Qed.

Lemma BigintValuesUsingHashTable_kept_bounded
    (this : BigintValuesUsingHashTable.t) (other : Filter) (kept : list Z) :
  wfHashTable kEmptyMarker M this ->
  NoDup kept ->
  (forall x, x ∈ kept -> x ∈ storedValues kEmptyMarker this) ->
  keptBounded
    (BigintValuesUsingHashTable_keepMarker kEmptyMarker M this other ++ kept).
Proof.
  intros Hwf Hnd Hsub. right.
  pose proof (wfHashTable_length this Hwf) as Hlen.
  assert (Hle : (length kept <= length (storedValues kEmptyMarker this))%nat).
  { apply submseteq_length, NoDup_submseteq; assumption. }
  rewrite length_app. unfold BigintValuesUsingHashTable_keepMarker.
  destruct (_ && _); cbn [length]; lia.
Qed.

Lemma BigintValuesUsingHashTable_mergeWith_range_wfOperand
    (this : BigintValuesUsingHashTable.t) (other : Filter) (min max : Z)
    (r : Filter) :
  wfHashTable kEmptyMarker M this ->
  BigintValuesUsingHashTable_mergeWith_range kEmptyMarker M this min max other
  = Ok r ->
  wfOperand kEmptyMarker M r.
Proof.
  intros Hwf. unfold BigintValuesUsingHashTable_mergeWith_range.
  destruct (max <? min); [intros [= <-]; apply nullOrFalse_wfOperand |].
  destruct (max =? min).
  { destruct (_ && _); intros [= <-];
      [exact I | apply nullOrFalse_wfOperand]. }
  intros Hcreate.
  destruct (BigintValuesUsingHashTable_keep_spec this (testInt64 other)
              (proj2 (proj2 Hwf))) as [Hnd Hnm].
  assert (Hsub : forall x,
             x ∈ BigintValuesUsingHashTable_keep kEmptyMarker this
                   (testInt64 other) ->
             x ∈ storedValues kEmptyMarker this).
  { intros x Hx. apply BigintValuesUsingHashTable_keep_elem in Hx. tauto. }
  refine (createBigintValues_wfOperand _ _ r _ _ _ Hcreate).
  - apply BigintValuesUsingHashTable_keepMarker_NoDup; [exact Hnd |].
    intros x Hx. apply (Hnm x Hx).
  - exact (BigintValuesUsingHashTable_kept_length this other _ Hwf Hnd Hsub).
  - exact (BigintValuesUsingHashTable_kept_bounded this other _ Hwf Hnd Hsub).
Qed.

Lemma BigintValuesUsingHashTable_mergeWith_wfOperand
    (this : BigintValuesUsingHashTable.t) (other r : Filter) :
  wfOperand kEmptyMarker M (OfBigintValuesUsingHashTable this) ->
  wfOperand kEmptyMarker M other ->
  BigintValuesUsingHashTable_mergeWith kEmptyMarker M this other = Ok r ->
  wfOperand kEmptyMarker M r.
Proof.
  intros Hthis Hother.
  destruct other as [| | | | bv | range | h | b | m];
    cbn [BigintValuesUsingHashTable_mergeWith AlwaysFalse_mergeWith];
    intros H.
  - injection H as <-. exact I.
  - exact (clone_wfOperand _ _ _ Hthis H).
  - exact (IsNull_mergeWith_wfOperand _ _ H).
  - injection H as <-. destruct this. exact Hthis.
  - discriminate.
  - exact (BigintValuesUsingHashTable_mergeWith_range_wfOperand
             this _ _ _ r Hthis H).
  - exact (BigintValuesUsingHashTable_mergeWith_range_wfOperand
             this _ _ _ r Hthis H).
  - exact (BigintValuesUsingBitmask_mergeWith_wfOperand b _ r Hother Hthis H).
  - pose proof Hother as (_ & _ & _ & Hdis).
    destruct (BigintValuesUsingHashTable_keepRanges_spec this _
                (proj2 (proj2 Hthis)) Hdis) as [Hnd Hnm].
    assert (Hsub : forall x,
               x ∈ BigintValuesUsingHashTable_keepRanges kEmptyMarker this
                     (BigintMultiRange.ranges_ m) ->
               x ∈ storedValues kEmptyMarker this).
    { intros x Hx.
      apply (BigintValuesUsingHashTable_keepRanges_elem this _ x Hthis) in Hx.
      tauto. }
    refine (createBigintValues_wfOperand _ _ r _ _ _ H).
    + apply BigintValuesUsingHashTable_keepMarker_NoDup; [exact Hnd |].
      intros x Hx. apply (Hnm x Hx).
    + exact (BigintValuesUsingHashTable_kept_length this _ _ Hthis Hnd Hsub).
    + exact (BigintValuesUsingHashTable_kept_bounded this _ _ Hthis Hnd Hsub).
Qed.

Lemma BigintRange_mergeWith_multi_apart (this : BigintRange.t)
    (m : BigintMultiRange.t) (r : Filter) :
  wfOperand kEmptyMarker M (OfBigintMultiRange m) ->
  BigintRange_mergeWith kEmptyMarker M this (OfBigintMultiRange m) = Ok r ->
  exists newRanges nullAllowed,
    combineBigintRanges newRanges nullAllowed = Ok r
    /\ rangesApart 1 newRanges
    /\ forall new, new ∈ newRanges ->
                   BigintRange.wf new /\ withinRange this new.
Proof.
  intros (_ & _ & _ & Hdis). cbn [BigintRange_mergeWith]. intros H.
  apply bind_Ok_inv in H as (newRanges & Hloop & Hcombine).
  apply disjointRanges_rangesApart in Hdis.
  destruct (BigintRange_mergeRanges_apart 1 _ _ _ Hloop Hdis)
    as [Hapart Hall].
  eexists newRanges, _. split; [exact Hcombine | split; [exact Hapart |]].
  intros new Hin. destruct (Hall new Hin) as (Hwf & Hthis & _). auto.
Qed.

Lemma BigintRange_mergeWith_wfOperand (this : BigintRange.t)
    (other r : Filter) :
  wfOperand kEmptyMarker M other ->
  BigintRange_mergeWith kEmptyMarker M this other = Ok r ->
  wfOperand kEmptyMarker M r.
Proof.
  intros Hother.
  destruct other as [| | | | bv | range | h | b | m];
    cbn [BigintRange_mergeWith AlwaysFalse_mergeWith]; intros H.
  - injection H as <-. exact I.
  - exact (clone_wfOperand (OfBigintRange this) _ _ I H).
  - exact (IsNull_mergeWith_wfOperand _ _ H).
  - injection H as <-. exact I.
  - discriminate.
  - injection H as <-. unfold BigintRange_mergeWith_BigintRange.
    destruct (_ <=? _); [exact I | apply nullOrFalse_wfOperand].
  - exact (BigintValuesUsingHashTable_mergeWith_wfOperand
             h (OfBigintRange this) r Hother I H).
  - exact (BigintValuesUsingBitmask_mergeWith_wfOperand
             b (OfBigintRange this) r Hother I H).
  - destruct (BigintRange_mergeWith_multi_apart this m r Hother H)
      as (newRanges & na & Hcombine & Hapart & Hall).
    refine (combineBigintRanges_wfOperand newRanges na r _ Hapart Hcombine).
    apply Forall_forall. intros new Hin. apply (Hall new Hin).
Qed.

Lemma BigintMultiRange_pushed_apart (ranges pushed : list BigintRange.t)
    (nullAllowed : bool) (merged : Filter) (this : BigintRange.t) :
  combineBigintRanges ranges nullAllowed = Ok merged ->
  match merged with
  | OfBigintRange r => Ok [r]
  | OfBigintMultiRange mergedMultiRange =>
      Ok (BigintMultiRange.ranges_ mergedMultiRange)
  | AlwaysFalse => Ok []
  | _ => Fail (CheckFailed "")
  end = Ok pushed ->
  rangesApart 1 ranges ->
  (forall new, new ∈ ranges -> BigintRange.wf new /\ withinRange this new) ->
  rangesApart 1 pushed
  /\ forall new, new ∈ pushed -> BigintRange.wf new /\ withinRange this new.
Proof.
  unfold combineBigintRanges.
  destruct ranges as [| front [| second rest]].
  - intros [= <-]. destruct nullAllowed; cbn; [discriminate |].
    intros [= <-] _ Hall. split; [apply rangesApart_nil | exact Hall].
  - intros [= <-] [= <-] _ Hall. split.
    + apply rangesApart_cons. split; [| apply rangesApart_nil].
      intros later Hin. apply elem_of_nil in Hin. contradiction.
    + intros new Hin. apply list_elem_of_singleton in Hin as ->.
      exact (Hall front ltac:(left)).
  - intros H. apply fmap_Ok_inv in H as (m & Hctor & ->).
    apply BigintMultiRange_ctor_Ok in Hctor as (-> & _).
    cbn. intros [= <-] Hapart Hall. split; assumption.
Qed.

Lemma BigintMultiRange_mergeRanges_apart (ranges : list BigintRange.t)
    (m : BigintMultiRange.t) :
  wfOperand kEmptyMarker M (OfBigintMultiRange m) ->
  forall newRanges : list BigintRange.t,
    BigintMultiRange_mergeRanges kEmptyMarker M ranges (OfBigintMultiRange m)
    = Ok newRanges ->
    rangesApart 1 ranges ->
    rangesApart 1 newRanges
    /\ forall new, new ∈ newRanges ->
                   BigintRange.wf new
                   /\ exists child, child ∈ ranges /\ withinRange child new.
Proof.
  intros Hm. induction ranges as [| range rest IH]; intros newRanges;
    cbn [BigintMultiRange_mergeRanges].
  - intros [= <-] _. split; [apply rangesApart_nil |].
    intros new Hin. apply elem_of_nil in Hin. contradiction.
  - intros H Hapart. apply rangesApart_cons in Hapart as [Hhead Hapart].
    apply bind_Ok_inv in H as (merged & Hmerged & H).
    apply bind_Ok_inv in H as (pushed & Hpushed & H).
    apply bind_Ok_inv in H as (rest' & Hrest & [= <-]).
    destruct (BigintRange_mergeWith_multi_apart range m merged Hm Hmerged)
      as (kept & na & Hcombine & Hkept & Hall).
    destruct (BigintMultiRange_pushed_apart _ _ _ _ range Hcombine Hpushed
                Hkept Hall) as [Hpa Hpall].
    destruct (IH rest' Hrest Hapart) as [Hra Hrall]. split.
    + apply rangesApart_app. split; [exact Hpa | split; [exact Hra |]].
      intros a b Ha Hb. destruct (Hpall a Ha) as [_ [_ Hupper]].
      destruct (Hrall b Hb) as (_ & child & Hchild & [Hlower _]).
      pose proof (Hhead child Hchild). lia.
    + intros new Hin. apply elem_of_app in Hin as [Hin | Hin].
      * destruct (Hpall new Hin) as [Hwf Hwithin].
        split; [exact Hwf |]. exists range. split; [left | exact Hwithin].
      * destruct (Hrall new Hin) as (Hwf & child & Hchild & Hwithin).
        split; [exact Hwf |]. exists child.
        split; [right; exact Hchild | exact Hwithin].
Qed.

Lemma BigintMultiRange_mergeWith_wfOperand (this : BigintMultiRange.t)
    (other r : Filter) :
  wfOperand kEmptyMarker M (OfBigintMultiRange this) ->
  wfOperand kEmptyMarker M other ->
  BigintMultiRange_mergeWith kEmptyMarker M this other = Ok r ->
  wfOperand kEmptyMarker M r.
Proof.
  intros Hthis Hother.
  destruct other as [| | | | bv | range | h | b | m];
    cbn [BigintMultiRange_mergeWith AlwaysFalse_mergeWith]; intros H.
  - injection H as <-. exact I.
  - exact (clone_wfOperand _ _ _ Hthis H).
  - exact (IsNull_mergeWith_wfOperand _ _ H).
  - apply fmap_Ok_inv in H as (m' & Hctor & ->).
    apply BigintMultiRange_ctor_Ok in Hctor as (-> & _).
    destruct this as [ranges lowerBounds na]. cbn in Hthis |- *.
    destruct Hthis as (_ & Hrest). split; [reflexivity | exact Hrest].
  - discriminate.
  - exact (BigintRange_mergeWith_wfOperand range _ r Hthis H).
  - exact (BigintValuesUsingHashTable_mergeWith_wfOperand h _ r Hother Hthis H).
  - exact (BigintValuesUsingBitmask_mergeWith_wfOperand b _ r Hother Hthis H).
  - apply bind_Ok_inv in H as (newRanges & Hloop & Hcombine).
    pose proof Hthis as (_ & _ & _ & Hdis).
    apply disjointRanges_rangesApart in Hdis.
    destruct (BigintMultiRange_mergeRanges_apart _ m Hother newRanges Hloop
                Hdis) as [Hapart Hall].
    refine (combineBigintRanges_wfOperand newRanges
              (BigintMultiRange.nullAllowed_ this
               && testNull (OfBigintMultiRange m)) r _ Hapart Hcombine).
    apply Forall_forall. intros new Hin. apply (Hall new Hin).
Qed.

Lemma IsNotNull_mergeWith_wfOperand (other r : Filter) :
  wfOperand kEmptyMarker M other ->
  IsNotNull_mergeWith kEmptyMarker M other = Ok r ->
  wfOperand kEmptyMarker M r.
Proof.
  intros Hother.
  destruct other as [| | | | bv | range | h | b | m];
    cbn [IsNotNull_mergeWith clone]; intros H;
    try (injection H as <-; exact I).
  - exact (BigintValuesUsingHashTable_mergeWith_wfOperand
             h IsNotNull r Hother I H).
  - exact (BigintValuesUsingBitmask_mergeWith_wfOperand
             b IsNotNull r Hother I H).
  - exact (BigintMultiRange_mergeWith_wfOperand m IsNotNull r Hother I H).
Qed.

(** X3.  A merge of two well-formed operands that returns a filter returns a
    well-formed one: a bitmask of moderate size, a hash table that satisfies
    the invariant of its constructor and stores each value once, a
    multi-range that its constructor accepts, with children [lo <= hi] that
    do not touch. The result is an operand for the next merge. *)
Theorem mergeWith_wfOperand (a b r : Filter) :
  wfOperand kEmptyMarker M a ->
  wfOperand kEmptyMarker M b ->
  mergeWith a b = Ok r ->
  wfOperand kEmptyMarker M r.
Proof.
  intros Ha Hb. destruct a as [| | | | bv | range | h | bm | m];
    unfold mergeWith; cbn beta iota; intros H.
  - injection H as <-. exact I.
  - exact (clone_wfOperand _ _ _ Hb H).
  - exact (IsNull_mergeWith_wfOperand _ _ H).
  - exact (IsNotNull_mergeWith_wfOperand _ _ Hb H).
  - exact (BoolValue_mergeWith_wfOperand _ _ _ H).
  - exact (BigintRange_mergeWith_wfOperand _ _ _ Hb H).
  - exact (BigintValuesUsingHashTable_mergeWith_wfOperand _ _ _ Ha Hb H).
  - exact (BigintValuesUsingBitmask_mergeWith_wfOperand _ _ _ Ha Hb H).
  - exact (BigintMultiRange_mergeWith_wfOperand _ _ _ Ha Hb H).
Qed.

(** ** BytesValues: the range test *)

(** X20.  The range test of a [BytesValues] whose cached bounds cover its
    values never rejects a summary that covers an accepted value. *)
Theorem BytesValues_testBytesRange_sound (f : BytesValues.t)
    (min max : option string) (hasNull : bool) (value : string) :
  BytesValues.boundsCover f ->
  shortBytes (BytesValues.lower_ f) -> shortBytes (BytesValues.upper_ f) ->
  from_option shortBytes True min -> from_option shortBytes True max ->
  summaryCovers min max value ->
  BytesValues.testBytes f value = true ->
  BytesValues.testBytesRange f min max hasNull = true.
Proof.
  intros Hcover Hlo Hhi Hmin Hmax [Hcmin Hcmax] Htest.
  assert (Hbounds : bytesLe (BytesValues.lower_ f) value
                    /\ bytesLe value (BytesValues.upper_ f)).
  { apply Hcover. unfold BytesValues.testBytes in Htest.
    apply existsb_exists in Htest as (s & Hin & Heq).
    apply String.eqb_eq in Heq as ->. apply list_elem_of_In. exact Hin. }
  destruct Hbounds as [Hlower Hupper].
  assert (Hnotbelow : forall hi, bytesLe value hi -> shortBytes hi ->
            (compareRanges hi (BytesValues.lower_ f) <? 0) = false).
  { intros hi Hle Hshort.
    destruct (compareRanges_sign hi (BytesValues.lower_ f) Hshort Hlo)
      as (-> & _ & _).
    apply bool_decide_eq_false_2.
    pose proof (bytesLe_trans _ _ _ Hlower Hle) as Hle'.
    unfold bytesLe in Hle'. rewrite String.compare_antisym in Hle'.
    destruct (String.compare hi (BytesValues.lower_ f)); cbn in Hle';
      congruence. }
  assert (Hnotabove : forall lo, bytesLe lo value -> shortBytes lo ->
            (compareRanges lo (BytesValues.upper_ f) >? 0) = false).
  { intros lo Hle Hshort.
    destruct (compareRanges_sign lo (BytesValues.upper_ f) Hshort Hhi)
      as (_ & _ & ->).
    apply bool_decide_eq_false_2. exact (bytesLe_trans _ _ _ Hle Hupper). }
  unfold BytesValues.testBytesRange.
  destruct (hasNull && BytesValues.nullAllowed_ f); [reflexivity |].
  destruct min as [lo |], max as [hi |]; cbn [BytesRange.hasValueAnd];
    cbn [from_option] in Hmin, Hmax, Hcmin, Hcmax.
  - destruct (String.eqb_spec lo hi) as [<- | _].
    + replace lo with value by (apply bytesLe_antisym; assumption).
      exact Htest.
    + rewrite (Hnotabove lo Hcmin Hmin), (Hnotbelow hi Hcmax Hmax).
      reflexivity.
  - rewrite (Hnotabove lo Hcmin Hmin). reflexivity.
  - rewrite (Hnotbelow hi Hcmax Hmax). reflexivity.
  - reflexivity.
Qed.

(** ** MultiRange: the tests on byte strings *)

Lemma MultiRangeOnBytes_anyOf_true
    (test : MultiRangeOnBytes.Child.t -> Result bool)
    (filters : list MultiRangeOnBytes.Child.t) :
  MultiRangeOnBytes.anyOf test filters = Ok true
  <-> exists (i : nat) (child : MultiRangeOnBytes.Child.t),
        filters !! i = Some child /\ test child = Ok true
        /\ forall (j : nat) (earlier : MultiRangeOnBytes.Child.t),
             (j < i)%nat -> filters !! j = Some earlier ->
             test earlier = Ok false.
Proof.
  induction filters as [| filter rest IH]; cbn [MultiRangeOnBytes.anyOf].
  - split; [discriminate |]. intros (i & child & Hi & _).
    rewrite lookup_nil in Hi. discriminate.
  - destruct (test filter) as [[|] | e] eqn:Hfilter; cbn.
    + split; [| reflexivity]. intros _. exists 0%nat, filter.
      split; [reflexivity | split; [exact Hfilter |]]. intros j earlier Hj.
      lia.
    + rewrite IH. split.
      * intros (i & child & Hi & Hchild & Hearlier). exists (S i), child.
        split; [exact Hi | split; [exact Hchild |]].
        intros [| j] earlier Hj Hlook.
        -- cbn in Hlook. injection Hlook as <-. exact Hfilter.
        -- apply (Hearlier j earlier); [lia | exact Hlook].
      * intros ([| i] & child & Hi & Hchild & Hearlier).
        -- cbn in Hi. injection Hi as <-. congruence.
        -- exists i, child. split; [exact Hi | split; [exact Hchild |]].
           intros j earlier Hj Hlook.
           apply (Hearlier (S j) earlier); [lia | exact Hlook].
    + split; [discriminate |].
      intros ([| i] & child & Hi & Hchild & Hearlier).
      * cbn in Hi. injection Hi as <-. congruence.
      * specialize (Hearlier 0%nat filter ltac:(lia) eq_refl). congruence.
Qed.

Lemma MultiRangeOnBytes_anyOf_false
    (test : MultiRangeOnBytes.Child.t -> Result bool)
    (filters : list MultiRangeOnBytes.Child.t) :
  MultiRangeOnBytes.anyOf test filters = Ok false
  <-> forall child, child ∈ filters -> test child = Ok false.
Proof.
  induction filters as [| filter rest IH]; cbn [MultiRangeOnBytes.anyOf].
  - split; [| reflexivity]. intros _ child Hin.
    apply elem_of_nil in Hin. contradiction.
  - destruct (test filter) as [[|] | e] eqn:Hfilter; cbn.
    + split; [discriminate |]. intros Hall.
      specialize (Hall filter ltac:(left)). congruence.
    + rewrite IH. split.
      * intros Hall child Hin. apply elem_of_cons in Hin as [-> | Hin];
          [exact Hfilter | exact (Hall child Hin)].
      * intros Hall child Hin. apply Hall. right. exact Hin.
    + split; [discriminate |]. intros Hall.
      specialize (Hall filter ltac:(left)). congruence.
Qed.

(** X21.  [testBytes] and [testLength] of a [MultiRange] go through the
    children in order: they return true exactly when some child returns true
    and every child before it returned false, and false exactly when every
    child returns false (so false on no children); otherwise the exception
    of a child ends the call. *)
Theorem MultiRange_testBytes_testLength_any (f : MultiRangeOnBytes.t)
    (value : string) (length : Z) :
  firstAccepting
    (fun child => MultiRangeOnBytes.Child.testBytes child value)
    (MultiRangeOnBytes.filters_ f) (MultiRangeOnBytes.testBytes f value)
  /\ firstAccepting
       (fun child => MultiRangeOnBytes.Child.testLength child length)
       (MultiRangeOnBytes.filters_ f) (MultiRangeOnBytes.testLength f length).
Proof.
  unfold firstAccepting, MultiRangeOnBytes.testBytes,
    MultiRangeOnBytes.testLength.
  split; (split;
          [apply MultiRangeOnBytes_anyOf_true
          | apply MultiRangeOnBytes_anyOf_false]).
Qed.

(** X22.  The range test of a [MultiRange] on byte strings is as sound as
    those of its children: when no child's range test throws on the summary
    and each child that accepts [value] passes the summary, a [MultiRange]
    that accepts [value] passes the summary too. *)
Theorem MultiRange_testBytesRange_sound (f : MultiRangeOnBytes.t)
    (min max : option string) (hasNull : bool) (value : string) :
  (forall child, child ∈ MultiRangeOnBytes.filters_ f ->
     returns (MultiRangeOnBytes.Child.testBytesRange child min max hasNull)) ->
  (forall child, child ∈ MultiRangeOnBytes.filters_ f ->
     MultiRangeOnBytes.Child.testBytes child value = Ok true ->
     MultiRangeOnBytes.Child.testBytesRange child min max hasNull = Ok true) ->
  MultiRangeOnBytes.testBytes f value = Ok true ->
  MultiRangeOnBytes.testBytesRange f min max hasNull = Ok true.
Proof.
  intros Hreturns Hsound Htest. unfold MultiRangeOnBytes.testBytesRange.
  destruct (hasNull && MultiRangeOnBytes.nullAllowed_ f); [reflexivity |].
  apply MultiRangeOnBytes_anyOf_true in Htest
    as (i & child & Hi & Hchild & _).
  assert (Hin : child ∈ MultiRangeOnBytes.filters_ f).
  { apply list_elem_of_lookup. exists i. exact Hi. }
  pose proof (Hsound child Hin Hchild) as Hpass. clear Hsound Hchild Hi.
  induction (MultiRangeOnBytes.filters_ f) as [| filter rest IH];
    [apply elem_of_nil in Hin; contradiction |].
  cbn [MultiRangeOnBytes.anyOf].
  destruct (Hreturns filter ltac:(left)) as [[|] Hfilter]; rewrite Hfilter;
    cbn; [reflexivity |].
  apply elem_of_cons in Hin as [-> | Hin]; [congruence |].
  apply IH; [| exact Hin]. intros c Hc. apply Hreturns. right. exact Hc.
Qed.

(** ** Filter::toString *)

(** X23.  The string that [toString] returns determines the kind and the two
    flags of the filter: no two of the fourteen kinds share a name, and the
    words for the flags do not run into each other. *)
Theorem toString_injective (kind kind' : FilterKind)
    (deterministic deterministic' nullAllowed nullAllowed' : bool) :
  toString kind deterministic nullAllowed
  = toString kind' deterministic' nullAllowed' ->
  kind = kind' /\ deterministic = deterministic'
  /\ nullAllowed = nullAllowed'.
Proof.
  intros H.
  destruct deterministic, deterministic', nullAllowed, nullAllowed',
    kind, kind';
    first [ repeat split; reflexivity
          | exfalso; vm_compute in H; discriminate H ].
Qed.

(** ** Merges with a constant filter *)

(** X5.  A merge with one of the four constant filters gives the same result
    from either side. With [IsNull] it returns [IsNull] when the other
    filter accepts null and [AlwaysFalse] when it does not; with
    [AlwaysFalse] it returns [AlwaysFalse]. *)
Theorem mergeWith_constant_comm (a c : Filter) :
  (constantFilter c = true -> mergeWith a c = mergeWith c a)
  /\ mergeWith a IsNull = Ok (if testNull a then IsNull else AlwaysFalse)
  /\ mergeWith a AlwaysFalse = Ok AlwaysFalse.
Proof.
  split; [| split].
  - intros Hc. destruct c; try discriminate; destruct a; reflexivity.
  - destruct a; cbn; unfold IsNull_mergeWith; cbn;
      try reflexivity; destruct (_ : bool); reflexivity.
  - destruct a; reflexivity.
Qed.

(** ** The merges that are not supported *)

Lemma bind_Unreachable {A B : Type} (r : Result A) (k : A -> Result B) :
  r <> Fail Unreachable ->
  (forall a, k a <> Fail Unreachable) ->
  (r ≫= k) <> Fail Unreachable.
Proof.
  intros Hr Hk. destruct r as [a | e]; cbn; [apply Hk |].
  intros [= ->]. apply Hr. reflexivity.
Qed.

Lemma fmap_Unreachable {A B : Type} (f : A -> B) (r : Result A) :
  r <> Fail Unreachable -> (f <$> r) <> Fail Unreachable.
Proof.
  intros Hr. destruct r as [a | e]; cbn; [discriminate |].
  intros [= ->]. apply Hr. reflexivity.
Qed.

Lemma setBits_Unreachable (min : Z) (values : list Z) :
  forall bitmask,
    BigintValuesUsingBitmask.setBits min values bitmask <> Fail Unreachable.
Proof.
  induction values as [| value rest IH]; intros bitmask;
    cbn [BigintValuesUsingBitmask.setBits]; [discriminate |].
  destruct (_ && _); [apply IH | discriminate].
Qed.

Lemma createBigintValues_Unreachable (values : list Z) (nullAllowed : bool) :
  createBigintValues values nullAllowed <> Fail Unreachable.
Proof.
  destruct values as [| front [| second rest]]; try discriminate.
  rewrite (createBigintValues_unfold front second rest nullAllowed).
  destruct (_ && _); [discriminate |].
  destruct (_ && _); apply fmap_Unreachable.
  - unfold BigintValuesUsingBitmask.ctor.
    destruct (negb _); [discriminate |].
    destruct (negb _); [discriminate |].
    destruct (negb _); [discriminate |].
    apply bind_Unreachable; [apply setBits_Unreachable | discriminate].
  - unfold BigintValuesUsingHashTable.ctor.
    destruct (negb _); [discriminate |].
    destruct (negb _); [discriminate |].
    destruct (_ <=? _); discriminate.
Qed.

Lemma BigintMultiRange_ctor_Unreachable (ranges : list BigintRange.t)
    (nullAllowed : bool) :
  BigintMultiRange.ctor ranges nullAllowed <> Fail Unreachable.
Proof.
  unfold BigintMultiRange.ctor.
  destruct (bool_decide _); [discriminate |].
  destruct (negb _); [discriminate |].
  destruct (BigintMultiRange.checkNoOverlap ranges); discriminate.
Qed.

Lemma clone_Unreachable (f : Filter) (nullAllowed : option bool) :
  clone f nullAllowed <> Fail Unreachable.
Proof.
  destruct f; cbn [clone]; try discriminate.
  apply fmap_Unreachable, BigintMultiRange_ctor_Unreachable.
Qed.

Lemma IsNull_mergeWith_Unreachable (other : Filter) :
  IsNull_mergeWith other <> Fail Unreachable.
Proof. unfold IsNull_mergeWith. destruct (testNull other); discriminate. Qed.

Lemma BigintValuesUsingBitmask_keep_Unreachable
    (this : BigintValuesUsingBitmask.t) (test : Z -> bool) (min max : Z) :
  BigintValuesUsingBitmask_keep this test min max <> Fail Unreachable.
Proof.
  unfold BigintValuesUsingBitmask_keep. apply bind_Unreachable;
    [| discriminate].
  unfold int64Loop. destruct (max <? min); [discriminate |].
  destruct (max =? kInt64Max); discriminate.
Qed.

Lemma BigintValuesUsingBitmask_keepRanges_Unreachable
    (this : BigintValuesUsingBitmask.t) (ranges : list BigintRange.t) :
  BigintValuesUsingBitmask_keepRanges this ranges <> Fail Unreachable.
Proof.
  induction ranges as [| range rest IH];
    cbn [BigintValuesUsingBitmask_keepRanges]; [discriminate |].
  apply bind_Unreachable;
    [apply BigintValuesUsingBitmask_keep_Unreachable |].
  intros kept. apply bind_Unreachable; [exact IH | discriminate].
Qed.

Lemma BigintValuesUsingBitmask_mergeWith_Unreachable
    (this : BigintValuesUsingBitmask.t) (other : Filter) :
  BigintValuesUsingBitmask_mergeWith kEmptyMarker M this other
  = Fail Unreachable
  <-> boolFilter other = true.
Proof.
  assert (Hrange : forall min max,
             BigintValuesUsingBitmask_mergeWith_range kEmptyMarker M this
               min max other <> Fail Unreachable).
  { intros min max. unfold BigintValuesUsingBitmask_mergeWith_range.
    apply bind_Unreachable;
      [apply BigintValuesUsingBitmask_keep_Unreachable |].
    intros kept. apply createBigintValues_Unreachable. }
  destruct other as [| | | | bv | range | h | b | m];
    cbn [BigintValuesUsingBitmask_mergeWith AlwaysFalse_mergeWith
         AlwaysTrue_mergeWith boolFilter];
    try (split; [intros _; reflexivity | reflexivity]);
    (split; [intros H; exfalso; revert H | discriminate]).
  - discriminate.
  - apply clone_Unreachable.
  - apply IsNull_mergeWith_Unreachable.
  - discriminate.
  - apply Hrange.
  - apply Hrange.
  - apply Hrange.
  - apply bind_Unreachable;
      [apply BigintValuesUsingBitmask_keepRanges_Unreachable |].
    intros kept. apply createBigintValues_Unreachable.
Qed.

Lemma BigintValuesUsingHashTable_mergeWith_Unreachable
    (this : BigintValuesUsingHashTable.t) (other : Filter) :
  BigintValuesUsingHashTable_mergeWith kEmptyMarker M this other
  = Fail Unreachable
  <-> boolFilter other = true.
Proof.
  assert (Hrange : forall min max,
             BigintValuesUsingHashTable_mergeWith_range kEmptyMarker M this
               min max other <> Fail Unreachable).
  { intros min max. unfold BigintValuesUsingHashTable_mergeWith_range.
    destruct (max <? min); [discriminate |].
    destruct (max =? min); [destruct (_ && _); discriminate |].
    apply createBigintValues_Unreachable. }
  destruct other as [| | | | bv | range | h | b | m];
    cbn [BigintValuesUsingHashTable_mergeWith AlwaysFalse_mergeWith
         AlwaysTrue_mergeWith boolFilter];
    try (split; [intros _; reflexivity | reflexivity]);
    (split; [intros H; exfalso; revert H | discriminate]).
  - discriminate.
  - apply clone_Unreachable.
  - apply IsNull_mergeWith_Unreachable.
  - discriminate.
  - apply Hrange.
  - apply Hrange.
  - intros H.
    apply (BigintValuesUsingBitmask_mergeWith_Unreachable
             b (OfBigintValuesUsingHashTable this)) in H. discriminate.
  - apply createBigintValues_Unreachable.
Qed.

Lemma BigintRange_mergeRanges_Unreachable (this : BigintRange.t)
    (ranges : list BigintRange.t) :
  BigintRange_mergeRanges this ranges <> Fail Unreachable.
Proof.
  induction ranges as [| range rest IH]; cbn [BigintRange_mergeRanges];
    [discriminate |].
  destruct (BigintRange_mergeWith_BigintRange this range);
    try discriminate; [exact IH |].
  apply bind_Unreachable; [exact IH | discriminate].
Qed.

Lemma combineBigintRanges_Unreachable (ranges : list BigintRange.t)
    (nullAllowed : bool) :
  combineBigintRanges ranges nullAllowed <> Fail Unreachable.
Proof.
  unfold combineBigintRanges. destruct ranges as [| front [| second rest]];
    try discriminate.
  apply fmap_Unreachable, BigintMultiRange_ctor_Unreachable.
Qed.

Lemma BigintRange_mergeWith_Unreachable (this : BigintRange.t)
    (other : Filter) :
  BigintRange_mergeWith kEmptyMarker M this other = Fail Unreachable
  <-> boolFilter other = true.
Proof.
  destruct other as [| | | | bv | range | h | b | m];
    cbn [BigintRange_mergeWith AlwaysFalse_mergeWith AlwaysTrue_mergeWith
         boolFilter];
    try (split; [intros _; reflexivity | reflexivity]);
    (split; [intros H; exfalso; revert H | discriminate]).
  - discriminate.
  - apply clone_Unreachable.
  - apply IsNull_mergeWith_Unreachable.
  - discriminate.
  - discriminate.
  - intros H.
    apply (BigintValuesUsingHashTable_mergeWith_Unreachable
             h (OfBigintRange this)) in H. discriminate.
  - intros H.
    apply (BigintValuesUsingBitmask_mergeWith_Unreachable
             b (OfBigintRange this)) in H. discriminate.
  - apply bind_Unreachable; [apply BigintRange_mergeRanges_Unreachable |].
    intros newRanges. apply combineBigintRanges_Unreachable.
Qed.

Lemma BigintMultiRange_mergeRanges_Unreachable
    (ranges : list BigintRange.t) (m : BigintMultiRange.t) :
  BigintMultiRange_mergeRanges kEmptyMarker M ranges (OfBigintMultiRange m)
  <> Fail Unreachable.
Proof.
  induction ranges as [| range rest IH];
    cbn [BigintMultiRange_mergeRanges]; [discriminate |].
  apply bind_Unreachable.
  - intros H.
    apply (BigintRange_mergeWith_Unreachable range (OfBigintMultiRange m))
      in H. discriminate.
  - intros merged. apply bind_Unreachable.
    + destruct merged; discriminate.
    + intros pushed. apply bind_Unreachable; [exact IH | discriminate].
Qed.

Lemma BigintMultiRange_mergeWith_Unreachable (this : BigintMultiRange.t)
    (other : Filter) :
  BigintMultiRange_mergeWith kEmptyMarker M this other = Fail Unreachable
  <-> boolFilter other = true.
Proof.
  destruct other as [| | | | bv | range | h | b | m];
    cbn [BigintMultiRange_mergeWith AlwaysFalse_mergeWith
         AlwaysTrue_mergeWith boolFilter];
    try (split; [intros _; reflexivity | reflexivity]);
    (split; [intros H; exfalso; revert H | discriminate]).
  - discriminate.
  - apply clone_Unreachable.
  - apply IsNull_mergeWith_Unreachable.
  - apply fmap_Unreachable, BigintMultiRange_ctor_Unreachable.
  - intros H.
    apply (BigintRange_mergeWith_Unreachable
             range (OfBigintMultiRange this)) in H. discriminate.
  - intros H.
    apply (BigintValuesUsingHashTable_mergeWith_Unreachable
             h (OfBigintMultiRange this)) in H. discriminate.
  - intros H.
    apply (BigintValuesUsingBitmask_mergeWith_Unreachable
             b (OfBigintMultiRange this)) in H. discriminate.
  - apply bind_Unreachable;
      [apply BigintMultiRange_mergeRanges_Unreachable |].
    intros newRanges. destruct newRanges as [| front [| second rest]];
      try discriminate.
    apply fmap_Unreachable, BigintMultiRange_ctor_Unreachable.
Qed.

Lemma BoolValue_mergeWith_Unreachable (this : BoolValue.t) (other : Filter) :
  BoolValue_mergeWith this other = Fail Unreachable
  <-> bigintFilter other = true.
Proof.
  destruct other as [| | | | bv | range | h | b | m];
    cbn [BoolValue_mergeWith AlwaysFalse_mergeWith AlwaysTrue_mergeWith
         clone bigintFilter];
    try (split; [intros _; reflexivity | reflexivity]);
    (split; [intros H; exfalso; revert H | discriminate]).
  - discriminate.
  - discriminate.
  - apply IsNull_mergeWith_Unreachable.
  - discriminate.
  - destruct (testBool _ _); discriminate.
Qed.

(** X4.  [mergeWith] ends in [VELOX_UNREACHABLE] exactly when one operand is
    a [BoolValue] and the other one of the four filters on integers;
    whatever else makes a merge of this family fail is a failed check or an
    overflow. *)
Theorem mergeWith_Unreachable_iff (a b : Filter) :
  mergeWith a b = Fail Unreachable
  <-> (boolFilter a = true /\ bigintFilter b = true)
      \/ (bigintFilter a = true /\ boolFilter b = true).
Proof.
  destruct a as [| | | | bv | range | h | bm | m]; unfold mergeWith;
    cbn [boolFilter bigintFilter AlwaysFalse_mergeWith AlwaysTrue_mergeWith].
  - split; [discriminate | intros [[H _] | [H _]]; discriminate].
  - split; [| intros [[H _] | [H _]]; discriminate].
    intros H. exfalso. exact (clone_Unreachable _ _ H).
  - split; [| intros [[H _] | [H _]]; discriminate].
    intros H. exfalso. exact (IsNull_mergeWith_Unreachable _ H).
  - split; [| intros [[H _] | [H _]]; discriminate].
    intros H. exfalso. revert H.
    destruct b as [| | | | bv | range | h | bm | m];
      cbn [IsNotNull_mergeWith clone]; try discriminate; intros H.
    apply BigintMultiRange_mergeWith_Unreachable in H. discriminate.
  - rewrite BoolValue_mergeWith_Unreachable. split; [auto |].
    intros [[_ H] | [H _]]; [exact H | discriminate].
  - rewrite BigintRange_mergeWith_Unreachable. split; [auto |].
    intros [[H _] | [_ H]]; [discriminate | exact H].
  - rewrite BigintValuesUsingHashTable_mergeWith_Unreachable. split; [auto |].
    intros [[H _] | [_ H]]; [discriminate | exact H].
  - rewrite BigintValuesUsingBitmask_mergeWith_Unreachable. split; [auto |].
    intros [[H _] | [_ H]]; [discriminate | exact H].
  - rewrite BigintMultiRange_mergeWith_Unreachable. split; [auto |].
    intros [[H _] | [_ H]]; [discriminate | exact H].
Qed.

(** ** Two multi-ranges: when the merge returns *)

Lemma BigintRange_mergeRanges_nil (this : BigintRange.t)
    (ranges : list BigintRange.t) :
  forall newRanges : list BigintRange.t,
    BigintRange_mergeRanges this ranges = Ok newRanges ->
    newRanges = []
    <-> forall child, child ∈ ranges -> ~ rangesMeet this child.
Proof.
  induction ranges as [| range rest IH]; intros newRanges;
    cbn [BigintRange_mergeRanges].
  - intros [= <-]. split; [| reflexivity]. intros _ child Hin.
    apply elem_of_nil in Hin. contradiction.
  - destruct (BigintRange_mergeWith_BigintRange_cases this range)
      as [[Hmeet ->] | [Hmiss ->]].
    + intros H. apply bind_Ok_inv in H as (rest' & _ & [= <-]).
      split; [discriminate |]. intros Hall. exfalso.
      exact (Hall range ltac:(left) Hmeet).
    + destruct (_ && _); cbn [nullOrFalse]; [discriminate |].
      intros H. rewrite (IH newRanges H). split.
      * intros Hall child Hin. apply elem_of_cons in Hin as [-> | Hin];
          [exact Hmiss | exact (Hall child Hin)].
      * intros Hall child Hin. apply Hall. right. exact Hin.
Qed.

(** What one round of the loop of [BigintMultiRange::mergeWith] needs to
    go through: the child [range] of this multi-range against the other
    multi-range [m]. *)
Lemma BigintMultiRange_mergeWith_round (range : BigintRange.t)
    (m : BigintMultiRange.t) :
  wfOperand kEmptyMarker M (OfBigintMultiRange m) ->
  (exists merged pushed,
     BigintRange_mergeWith kEmptyMarker M range (OfBigintMultiRange m)
     = Ok merged
     /\ match merged with
        | OfBigintRange r => Ok [r]
        | OfBigintMultiRange mergedMultiRange =>
            Ok (BigintMultiRange.ranges_ mergedMultiRange)
        | AlwaysFalse => Ok []
        | _ => Fail (CheckFailed "")
        end = Ok pushed)
  <-> (BigintRange.nullAllowed_ range = true ->
       (forall child, child ∈ BigintMultiRange.ranges_ m ->
          BigintRange.nullAllowed_ child = true -> rangesMeet range child)
       /\ (BigintMultiRange.nullAllowed_ m = true ->
           exists child, child ∈ BigintMultiRange.ranges_ m
                         /\ rangesMeet range child)).
Proof.
  intros Hm. pose proof Hm as (_ & _ & _ & Hdis).
  apply disjointRanges_rangesApart in Hdis.
  cbn [BigintRange_mergeWith testNull]. split.
  - intros (merged & pushed & Hmerged & Hpushed) Hnull.
    apply bind_Ok_inv in Hmerged as (newRanges & Hloop & Hcombine).
    split.
    + intros child Hin Hchild.
      apply (proj1 (BigintRange_mergeRanges_returns range
                      (BigintMultiRange.ranges_ m)));
        [eexists; exact Hloop | exact Hin | exact Hnull | exact Hchild].
    + intros Hmnull. rewrite Hnull, Hmnull in Hcombine. cbn [andb] in Hcombine.
      destruct newRanges as [| new rest].
      { injection Hcombine as <-. discriminate. }
      destruct (BigintRange_mergeRanges_apart 1 _ _ _ Hloop Hdis)
        as [_ Hall].
      destruct (Hall new ltac:(left))
        as (Hwf & [H1 H2] & child & Hchild & [H3 H4]).
      exists child. split; [exact Hchild |].
      unfold rangesMeet, BigintRange.wf in *. lia.
  - intros Hcond.
    destruct (proj2 (BigintRange_mergeRanges_returns range
                       (BigintMultiRange.ranges_ m))) as [newRanges Hloop].
    { intros child Hin Hnull Hchild.
      exact (proj1 (Hcond Hnull) child Hin Hchild). }
    rewrite Hloop. cbn.
    destruct (BigintRange_mergeRanges_apart 1 _ _ _ Hloop Hdis)
      as [Hapart _].
    destruct (combineBigintRanges_returns newRanges
                (BigintRange.nullAllowed_ range
                 && BigintMultiRange.nullAllowed_ m)
                (rangesApart_weaken 1 0 _ ltac:(lia) Hapart))
      as [merged Hmerged].
    exists merged. rewrite Hmerged.
    unfold combineBigintRanges in Hmerged.
    destruct newRanges as [| front [| second rest]].
    + injection Hmerged as <-.
      destruct (BigintRange.nullAllowed_ range) eqn:Hnull; cbn [andb];
        [| eexists; split; reflexivity].
      destruct (BigintMultiRange.nullAllowed_ m) eqn:Hmnull; cbn;
        [| eexists; split; reflexivity].
      exfalso. destruct (proj2 (Hcond eq_refl) eq_refl)
        as (child & Hchild & Hmeet).
      exact (proj1 (BigintRange_mergeRanges_nil range _ [] Hloop) eq_refl
               child Hchild Hmeet).
    + injection Hmerged as <-. eexists. split; reflexivity.
    + apply fmap_Ok_inv in Hmerged as (m' & _ & ->).
      eexists. split; reflexivity.
Qed.

Lemma BigintMultiRange_mergeRanges_returns (ranges : list BigintRange.t)
    (m : BigintMultiRange.t) :
  wfOperand kEmptyMarker M (OfBigintMultiRange m) ->
  returns (BigintMultiRange_mergeRanges kEmptyMarker M ranges
             (OfBigintMultiRange m))
  <-> forall range, range ∈ ranges ->
        BigintRange.nullAllowed_ range = true ->
        (forall child, child ∈ BigintMultiRange.ranges_ m ->
           BigintRange.nullAllowed_ child = true -> rangesMeet range child)
        /\ (BigintMultiRange.nullAllowed_ m = true ->
            exists child, child ∈ BigintMultiRange.ranges_ m
                          /\ rangesMeet range child).
Proof.
  intros Hm. induction ranges as [| range rest IH];
    cbn [BigintMultiRange_mergeRanges].
  - split; [| intros _; eexists; reflexivity].
    intros _ range Hin. apply elem_of_nil in Hin. contradiction.
  - pose proof (BigintMultiRange_mergeWith_round range m Hm) as Hround.
    split.
    + intros [newRanges H] r Hin.
      apply bind_Ok_inv in H as (merged & Hmerged & H).
      apply bind_Ok_inv in H as (pushed & Hpushed & H).
      apply bind_Ok_inv in H as (rest' & Hrest & _).
      apply elem_of_cons in Hin as [-> | Hin].
      * apply (proj1 Hround). exists merged, pushed. auto.
      * apply (proj1 IH); [eexists; exact Hrest | exact Hin].
    + intros Hall.
      destruct (proj2 Hround (Hall range ltac:(left)))
        as (merged & pushed & Hmerged & Hpushed).
      destruct (proj2 IH) as [rest' Hrest].
      { intros r Hin. apply Hall. right. exact Hin. }
      rewrite Hmerged. cbn. rewrite Hpushed. cbn. rewrite Hrest.
      eexists. reflexivity.
Qed.

(** X7.  A merge of two well-formed multi-ranges returns a filter exactly
    when every child of the first that accepts null meets each child of the
    second that accepts null and, if the second multi-range accepts null,
    meets some child of it. Otherwise an inner merge gives [IsNull], and the
    check that the result is [AlwaysFalse] fails. *)
Theorem BigintMultiRange_mergeWith_multi_returns
    (this other : BigintMultiRange.t) :
  wfOperand kEmptyMarker M (OfBigintMultiRange this) ->
  wfOperand kEmptyMarker M (OfBigintMultiRange other) ->
  returns (mergeWith (OfBigintMultiRange this) (OfBigintMultiRange other))
  <-> forall range, range ∈ BigintMultiRange.ranges_ this ->
        BigintRange.nullAllowed_ range = true ->
        (forall child, child ∈ BigintMultiRange.ranges_ other ->
           BigintRange.nullAllowed_ child = true -> rangesMeet range child)
        /\ (BigintMultiRange.nullAllowed_ other = true ->
            exists child, child ∈ BigintMultiRange.ranges_ other
                          /\ rangesMeet range child).
Proof.
  intros Hthis Hother.
  rewrite <- (BigintMultiRange_mergeRanges_returns _ other Hother).
  unfold mergeWith. cbn [BigintMultiRange_mergeWith]. split.
  - intros [r Hr]. apply bind_Ok_inv in Hr as (newRanges & Hloop & _).
    exists newRanges. exact Hloop.
  - intros [newRanges Hloop]. rewrite Hloop.
    pose proof Hthis as (_ & _ & _ & Hdis).
    apply disjointRanges_rangesApart in Hdis.
    destruct (BigintMultiRange_mergeRanges_apart _ other Hother newRanges
                Hloop Hdis) as [Hapart _].
    exact (combineBigintRanges_returns newRanges
             (BigintMultiRange.nullAllowed_ this
              && testNull (OfBigintMultiRange other))
             (rangesApart_weaken 1 0 _ ltac:(lia) Hapart)).
Qed.

(** ** The loop over a bitmask at the largest [int64_t] *)

(** X8.  A bitmask filter whose largest value is the largest [int64_t],
    merged with a range that reaches it too, does not return: the loop over
    the integers from [min] to [max] has no last round. *)
Theorem BigintValuesUsingBitmask_mergeWith_at_int64_max
    (this : BigintValuesUsingBitmask.t) (range : BigintRange.t) :
  BigintValuesUsingBitmask.max_ this = kInt64Max ->
  BigintRange.upper_ range = kInt64Max ->
  BigintValuesUsingBitmask.min_ this <= kInt64Max ->
  BigintRange.lower_ range <= kInt64Max ->
  mergeWith (OfBigintValuesUsingBitmask this) (OfBigintRange range)
  = Fail Undefined
  /\ mergeWith (OfBigintRange range) (OfBigintValuesUsingBitmask this)
     = Fail Undefined.
Proof.
  intros Hmax Hupper Hmin Hlower.
  assert (H : BigintValuesUsingBitmask_mergeWith kEmptyMarker M this
                (OfBigintRange range) = Fail Undefined).
  { cbn [BigintValuesUsingBitmask_mergeWith].
    unfold BigintValuesUsingBitmask_mergeWith_range,
      BigintValuesUsingBitmask_keep, int64Loop.
    rewrite std_max_spec, std_min_spec, Hmax, Hupper, Z.min_id.
    destruct (Z.ltb_spec kInt64Max
                (Z.max (BigintValuesUsingBitmask.min_ this)
                   (BigintRange.lower_ range))); [lia |].
    rewrite Z.eqb_refl. reflexivity. }
  split; exact H.
Qed.
End Facts.

(** ** Instances at concrete inputs *)

Lemma BigintRange_mergeWith_BigintRange_example :
  1 <= 10 /\ 5 <= 20 /\
  mergeWith sampleEmptyMarker sampleM
    (OfBigintRange (BigintRange.mk 1 10 true))
    (OfBigintRange (BigintRange.mk 5 20 false))
  = Ok (OfBigintRange (BigintRange.mk 5 10 false)).
Proof.
  split; [lia | split; [lia |]].
  apply (BigintRange_mergeWith_BigintRange_spec
           sampleEmptyMarker sampleM 1 10 5 20 true false); lia.
Defined.

Lemma createBigintValues_equal_entries_example :
  (2 <= 3)%nat
  /\ createBigintValues sampleEmptyMarker sampleM [5; 5; 5] true
     = Fail (CheckFailed "min must be less than max")
  /\ createBigintValues sampleEmptyMarker sampleM [5] true
     = Ok (OfBigintRange (BigintRange.mk 5 5 true)).
Proof.
  split; [lia |].
  apply (createBigintValues_equal_entries sampleEmptyMarker sampleM 5 true 3).
  lia.
Defined.

(** The vector [5, 5] has no overflow and a range below [32 * 64], the
    condition under which the factory is said to return a bitmask filter;
    it returns no filter. *)
Lemma createBigintValues_equal_entries_no_bitmask :
  chooseRepresentation (vectorMin 5 [5]) (vectorMax 5 [5])
    (Z.of_nat (length [5; 5])) = ChooseBitmask
  /\ ~ exists f : Filter,
         createBigintValues sampleEmptyMarker sampleM [5; 5] false = Ok f.
Proof.
  split; [reflexivity |]. intros [f Hf]. vm_compute in Hf. discriminate.
Qed.

Lemma createBigintValues_spec_example :
  3 * Z.of_nat (length [1; 3; 5; 7; 9]) < 2 ^ 32
  /\ vectorMin 1 [3; 5; 7; 9] < vectorMax 1 [3; 5; 7; 9]
  /\ exists b : BigintValuesUsingBitmask.t,
       createBigintValues sampleEmptyMarker sampleM [1; 3; 5; 7; 9] false
       = Ok (OfBigintValuesUsingBitmask b)
       /\ BigintValuesUsingBitmask.min_ b = 1
       /\ BigintValuesUsingBitmask.max_ b = 9
       /\ BigintValuesUsingBitmask.nullAllowed_ b = false.
Proof.
  assert (Hsmall : 3 * Z.of_nat (length [1; 3; 5; 7; 9]) < 2 ^ 32)
    by (vm_compute; reflexivity).
  assert (Hminmax : vectorMin 1 [3; 5; 7; 9] < vectorMax 1 [3; 5; 7; 9])
    by (vm_compute; reflexivity).
  split; [exact Hsmall | split; [exact Hminmax |]].
  exact (createBigintValues_spec sampleEmptyMarker sampleM [1; 3; 5; 7; 9]
           false Hsmall Hminmax).
Defined.

(** Two values get a table of four slots, fewer than three times two. *)
Lemma BigintValuesUsingHashTable_table_size_not_3n :
  exists h : BigintValuesUsingHashTable.t,
    BigintValuesUsingHashTable.ctor sampleEmptyMarker sampleM 1 2 [1; 2] false
    = Ok h
    /\ Z.of_nat (length (BigintValuesUsingHashTable.hashTable_ h)) = 4
    /\ ~ (3 * Z.of_nat (length [1; 2])
          <= Z.of_nat (length (BigintValuesUsingHashTable.hashTable_ h))).
Proof.
  eexists. split; [vm_compute; reflexivity |].
  split; [reflexivity |]. vm_compute. intros H. apply H. reflexivity.
Qed.

Lemma BigintValuesUsingHashTable_table_size_example :
  exists h : BigintValuesUsingHashTable.t,
    Z.of_nat (length [1; 2]) <= kMaxVectorSize
    /\ BigintValuesUsingHashTable.ctor sampleEmptyMarker sampleM 1 2 [1; 2]
         false = Ok h
    /\ Z.of_nat (length (BigintValuesUsingHashTable.hashTable_ h))
       = 2 ^ Z.log2 (3 * Z.of_nat (length [1; 2]))
    /\ Z.of_nat (length [1; 2])
       < Z.of_nat (length (BigintValuesUsingHashTable.hashTable_ h)).
Proof.
  assert (Hmax : Z.of_nat (length [1; 2]) <= kMaxVectorSize)
    by (vm_compute; discriminate).
  eexists. split; [exact Hmax |].
  assert (Hctor : BigintValuesUsingHashTable.ctor sampleEmptyMarker sampleM
                    1 2 [1; 2] false
                  = Ok (BigintValuesUsingHashTable.mk 1 2
                          [sampleEmptyMarker; 1; 2; sampleEmptyMarker]
                          false false))
    by (vm_compute; reflexivity).
  split; [exact Hctor |].
  destruct (BigintValuesUsingHashTable_table_size sampleEmptyMarker sampleM
              1 2 [1; 2] false _ Hmax Hctor) as (_ & Hsize & _ & Hlarger).
  split; [exact Hsize | exact Hlarger].
Defined.

(** The 1431655766 distinct values from 0 to 1431655765, with their true
    extremes as [min] and [max]: the size of the table would be [1u << 32],
    a shift by the width of [unsigned int], and the constructor builds no
    membership structure. *)
Lemma BigintValuesUsingHashTable_ctor_large_vector :
  NoDup sampleLargeVector
  /\ (2 <= Z.of_nat (length sampleLargeVector))
  /\ 0 < 1431655765
  /\ (forall x, x ∈ sampleLargeVector <-> 0 <= x <= 1431655765)
  /\ BigintValuesUsingHashTable.tableExponent
       (Z.of_nat (length sampleLargeVector)) = 32
  /\ BigintValuesUsingHashTable.ctor sampleEmptyMarker sampleM 0 1431655765
       sampleLargeVector false = Fail Undefined
  /\ ~ exists h : BigintValuesUsingHashTable.t,
         BigintValuesUsingHashTable.ctor sampleEmptyMarker sampleM
           0 1431655765 sampleLargeVector false = Ok h.
Proof.
  assert (Hlen : Z.of_nat (length sampleLargeVector) = 1431655766).
  { unfold sampleLargeVector. rewrite length_seqZ. apply Z2Nat.id. lia. }
  assert (Hctor : BigintValuesUsingHashTable.ctor sampleEmptyMarker sampleM
                    0 1431655765 sampleLargeVector false = Fail Undefined).
  { unfold BigintValuesUsingHashTable.ctor. rewrite Hlen. reflexivity. }
  split; [apply NoDup_seqZ |].
  split; [rewrite Hlen; lia |].
  split; [lia |].
  split; [intros x; unfold sampleLargeVector; rewrite elem_of_seqZ; lia |].
  split; [rewrite Hlen; reflexivity |].
  split; [exact Hctor |].
  intros [h Hh]. rewrite Hctor in Hh. discriminate.
Qed.

Lemma BigintValuesUsingHashTable_membership_example :
  (2 <= length sampleSparseValues)%nat
  /\ 3 * Z.of_nat (length sampleSparseValues) < 2 ^ 32
  /\ 0 < 2000000
  /\ (forall x, x ∈ sampleSparseValues -> 0 <= x <= 2000000)
  /\ exists h : BigintValuesUsingHashTable.t,
       BigintValuesUsingHashTable.ctor sampleEmptyMarker sampleM 0 2000000
         sampleSparseValues false = Ok h
       /\ forall v,
            BigintValuesUsingHashTable.testInt64 sampleEmptyMarker sampleM h v
            = true <-> v ∈ sampleSparseValues.
Proof.
  assert (Hlen : (2 <= length sampleSparseValues)%nat) by (cbn; lia).
  assert (Hsmall : 3 * Z.of_nat (length sampleSparseValues) < 2 ^ 32)
    by (vm_compute; reflexivity).
  assert (Hminmax : 0 < 2000000) by lia.
  assert (Hrange : forall x, x ∈ sampleSparseValues -> 0 <= x <= 2000000).
  { intros x Hx. unfold sampleSparseValues in Hx.
    rewrite !elem_of_cons, elem_of_nil in Hx. lia. }
  split; [exact Hlen | split; [exact Hsmall | split; [exact Hminmax |]]].
  split; [exact Hrange |].
  destruct (BigintValuesUsingHashTable_membership sampleEmptyMarker sampleM
              0 2000000 sampleSparseValues false
              Hlen Hsmall Hminmax Hrange)
    as (h & Hok & _ & _ & _ & _ & _ & Htest).
  exists h. split; [exact Hok | exact Htest].
Defined.

Lemma BigintMultiRange_testInt64_example :
  BigintMultiRange.ctor [BigintRange.mk 4 5 false; BigintRange.mk 5 7 false]
    false = Ok sampleTouchingRanges
  /\ Forall BigintRange.wf
       [BigintRange.mk 4 5 false; BigintRange.mk 5 7 false]
  /\ BigintMultiRange.testInt64 sampleTouchingRanges 6
     = BigintRange.testInt64 (BigintRange.mk 5 7 false) 6.
Proof.
  assert (Hctor : BigintMultiRange.ctor
                    [BigintRange.mk 4 5 false; BigintRange.mk 5 7 false] false
                  = Ok sampleTouchingRanges) by reflexivity.
  assert (Hwf : Forall BigintRange.wf
                  [BigintRange.mk 4 5 false; BigintRange.mk 5 7 false]).
  { repeat constructor; unfold BigintRange.wf; cbn; lia. }
  split; [exact Hctor | split; [exact Hwf |]].
  apply (proj1 (BigintMultiRange_testInt64_spec _ _ _ 6 Hctor Hwf)).
  - right. left.
  - cbn. lia.
Defined.

Lemma MultiRange_test_nan_policy_example :
  MultiRange.isnan S754_nan = true
  /\ MultiRange.testDouble
       (MultiRange.mk [sampleThrowingChild; sampleZeroChild] false true)
       S754_nan = Ok true
  /\ MultiRange.testFloat
       (MultiRange.mk [sampleThrowingChild; sampleZeroChild] false true)
       S754_nan = Ok true
  /\ MultiRange.isnan (S754_zero false) = false
  /\ Forall (fun filter =>
               returns (MultiRange.Child.testDouble filter (S754_zero false)))
            [sampleZeroChild]
  /\ exists accepted,
       MultiRange.testDouble (MultiRange.mk [sampleZeroChild] false false)
         (S754_zero false) = Ok accepted
       /\ (accepted = true <->
           Exists (fun filter =>
                     MultiRange.Child.testDouble filter (S754_zero false)
                     = Ok true)
                  [sampleZeroChild]).
Proof.
  assert (Hall : Forall (fun filter =>
                           returns (MultiRange.Child.testDouble filter
                                      (S754_zero false)))
                        [sampleZeroChild]).
  { repeat constructor. exists true. reflexivity. }
  split; [reflexivity |].
  split; [| split; [| split; [reflexivity | split; [exact Hall |]]]].
  - apply (proj1 (MultiRange_test_nan_policy
                    (MultiRange.mk [sampleThrowingChild; sampleZeroChild]
                                   false true) S754_nan)).
    reflexivity.
  - apply (proj1 (MultiRange_test_nan_policy
                    (MultiRange.mk [sampleThrowingChild; sampleZeroChild]
                                   false true) S754_nan)).
    reflexivity.
  - apply (proj1 (proj2 (MultiRange_test_nan_policy
                           (MultiRange.mk [sampleZeroChild] false false)
                           (S754_zero false)) eq_refl)).
    exact Hall.
Defined.

(** A bitmask filter over 1, 2, 3 is accepted by the constructor; merged
    with [IsNotNull] it comes back as a bitmask filter over the same
    contiguous set. *)
Lemma mergeWith_IsNotNull_keeps_contiguous_bitmask :
  BigintValuesUsingBitmask.ctor 1 3 [1; 2; 3] true
  = Ok sampleContiguousBitmask
  /\ mergeWith sampleEmptyMarker sampleM
       (OfBigintValuesUsingBitmask sampleContiguousBitmask) IsNotNull
     = Ok (OfBigintValuesUsingBitmask
             (BigintValuesUsingBitmask.mk [true; true; true] 1 3 false))
  /\ ~ normalised
         (OfBigintValuesUsingBitmask
            (BigintValuesUsingBitmask.mk [true; true; true] 1 3 false)).
Proof.
  split; [reflexivity | split; [reflexivity |]].
  intros Hnorm. apply Hnorm. exists 1, 3. intros v.
  unfold BigintValuesUsingBitmask.testInt64. cbn.
  destruct (Z.ltb_spec v 1); [cbn; split; [discriminate | lia] |].
  destruct (Z.gtb_spec v 3); [cbn; split; [discriminate | lia] |].
  cbn. assert (Hv : v = 1 \/ v = 2 \/ v = 3) by lia.
  destruct Hv as [-> | [-> | ->]]; cbn; split; (reflexivity || lia).
Qed.

Lemma sampleBitmask_normalised :
  normalisedOperand sampleEmptyMarker (OfBigintValuesUsingBitmask sampleBitmask).
Proof.
  split; [| exact I]. intros (lo & hi & Hset).
  pose proof (proj1 (Hset 1) eq_refl) as H1.
  pose proof (proj1 (Hset 4) eq_refl) as H4.
  assert (H2 : BigintValuesUsingBitmask.testInt64 sampleBitmask 2 = true)
    by (apply Hset; lia).
  vm_compute in H2. discriminate.
Defined.

Lemma mergeWith_normalised_example :
  normalisedOperand sampleEmptyMarker (OfBigintValuesUsingBitmask sampleBitmask)
  /\ normalisedOperand sampleEmptyMarker
       (OfBigintRange (BigintRange.mk 4 7 false))
  /\ mergeWith sampleEmptyMarker sampleM
       (OfBigintValuesUsingBitmask sampleBitmask)
       (OfBigintRange (BigintRange.mk 4 7 false))
     = Ok (OfBigintValuesUsingBitmask
             (BigintValuesUsingBitmask.mk [true; true; false; true] 4 7 false))
  /\ normalised
       (OfBigintValuesUsingBitmask
          (BigintValuesUsingBitmask.mk [true; true; false; true] 4 7 false)).
Proof.
  assert (Hb : normalisedOperand sampleEmptyMarker
                 (OfBigintRange (BigintRange.mk 4 7 false)))
    by (split; exact I).
  assert (Hmerge : mergeWith sampleEmptyMarker sampleM
                     (OfBigintValuesUsingBitmask sampleBitmask)
                     (OfBigintRange (BigintRange.mk 4 7 false))
                   = Ok (OfBigintValuesUsingBitmask
                           (BigintValuesUsingBitmask.mk
                              [true; true; false; true] 4 7 false)))
    by (vm_compute; reflexivity).
  split; [exact sampleBitmask_normalised | split; [exact Hb |]].
  split; [exact Hmerge |].
  exact (mergeWith_normalised sampleEmptyMarker sampleM _ _ _
           sampleBitmask_normalised Hb Hmerge).
Defined.

(** ** The scenarios of the specification *)

Example scenario_contiguous_set :
  createBigintValues sampleEmptyMarker sampleM [3; 4; 5; 6] true
  = Ok (OfBigintRange (BigintRange.mk 3 6 true))
  /\ testInt64 sampleEmptyMarker sampleM
       (OfBigintRange (BigintRange.mk 3 6 true)) <$> [2; 3; 4; 5; 6; 7]
     = [false; true; true; true; true; false].
Proof. split; reflexivity. Qed.

Example scenario_dense_set :
  exists f : Filter,
    createBigintValues sampleEmptyMarker sampleM [1; 3; 5; 7; 9] false = Ok f
    /\ kind f = kBigintValuesUsingBitmask
    /\ testInt64 sampleEmptyMarker sampleM f <$> [5; 4; 11]
       = [true; false; false]
    /\ testNull f = false.
Proof. eexists. split; [vm_compute; reflexivity |]. repeat split. Qed.

Example scenario_sparse_set :
  exists f : Filter,
    createBigintValues sampleEmptyMarker sampleM sampleSparseValues false
    = Ok f
    /\ kind f = kBigintValuesUsingHashTable
    /\ testInt64 sampleEmptyMarker sampleM f <$> [0; 1000000; 2000000; 1]
       = [true; true; true; false].
Proof.
  eexists. split; [vm_compute; reflexivity |].
  split; [reflexivity | vm_compute; reflexivity].
Qed.

Example scenario_disjoint_ranges :
  mergeWith sampleEmptyMarker sampleM
    (OfBigintRange (BigintRange.mk 1 3 false))
    (OfBigintRange (BigintRange.mk 10 20 false)) = Ok AlwaysFalse
  /\ mergeWith sampleEmptyMarker sampleM
       (OfBigintRange (BigintRange.mk 1 3 true))
       (OfBigintRange (BigintRange.mk 10 20 true)) = Ok IsNull.
Proof. split; reflexivity. Qed.

Example scenario_bytes_ordering :
  BytesRange.testBytes
    (BytesRange.mk "abc" "abd" false false false false false false) "abcd"
  = true.
Proof. reflexivity. Qed.

(** ** Further instances at concrete inputs *)

Lemma compareRanges_lexicographic_example :
  shortBytes "apple" /\ shortBytes "banana"
  /\ (compareRanges "apple" "banana" < 0
      <-> String.compare "apple" "banana" = Lt).
Proof.
  assert (Ha : shortBytes "apple") by (vm_compute; reflexivity).
  assert (Hb : shortBytes "banana") by (vm_compute; reflexivity).
  split; [exact Ha | split; [exact Hb |]].
  exact (proj1 (compareRanges_lexicographic "apple" "banana" Ha Hb)).
Defined.

Lemma BytesRange_testBytes_interval_example :
  shortBytes "banana" /\ shortBytes "apple" /\ shortBytes "mango"
  /\ BytesRange.testBytes sampleFruitRange "banana"
     = BytesRange_inBounds sampleFruitRange "banana".
Proof.
  assert (Hv : shortBytes "banana") by (vm_compute; reflexivity).
  assert (Hlo : shortBytes "apple") by (vm_compute; reflexivity).
  assert (Hhi : shortBytes "mango") by (vm_compute; reflexivity).
  split; [exact Hv | split; [exact Hlo | split; [exact Hhi |]]].
  exact (proj2 (BytesRange_testBytes_interval sampleFruitRange "banana"
                  Hv Hlo Hhi) eq_refl).
Defined.

Lemma BytesRange_testBytesRange_bounded_sound_example :
  summaryCovers (Some "b"%string) (Some "c"%string) "banana"
  /\ BytesRange.testBytes sampleFruitRange "banana" = true
  /\ BytesRange.testBytesRange sampleFruitRange (Some "b"%string)
       (Some "c"%string) false = true.
Proof.
  assert (Hcover : summaryCovers (Some "b"%string) (Some "c"%string) "banana")
    by (split; cbn; discriminate).
  assert (Htest : BytesRange.testBytes sampleFruitRange "banana" = true)
    by reflexivity.
  split; [exact Hcover | split; [exact Htest |]].
  apply (BytesRange_testBytesRange_bounded_sound sampleFruitRange
           (Some "b"%string) (Some "c"%string) false "banana");
    first [ reflexivity | discriminate | exact Hcover | exact Htest
          | vm_compute; reflexivity ].
Defined.

Lemma BytesValues_testBytesRange_sound_example :
  BytesValues.boundsCover sampleBytesValues
  /\ summaryCovers (Some "a"%string) (Some "c"%string) "b"
  /\ BytesValues.testBytes sampleBytesValues "b" = true
  /\ BytesValues.testBytesRange sampleBytesValues (Some "a"%string)
       (Some "c"%string) false = true.
Proof.
  assert (Hbounds : BytesValues.boundsCover sampleBytesValues).
  { intros value Hin. cbn in Hin.
    rewrite !elem_of_cons, elem_of_nil in Hin.
    destruct Hin as [-> | [-> | []]]; split; cbn; discriminate. }
  assert (Hcover : summaryCovers (Some "a"%string) (Some "c"%string) "b")
    by (split; cbn; discriminate).
  assert (Htest : BytesValues.testBytes sampleBytesValues "b" = true)
    by reflexivity.
  split; [exact Hbounds | split; [exact Hcover | split; [exact Htest |]]].
  apply (BytesValues_testBytesRange_sound sampleBytesValues
           (Some "a"%string) (Some "c"%string) false "b");
    first [ exact Hbounds | exact Hcover | exact Htest
          | vm_compute; reflexivity ].
Defined.

Lemma BigintValuesUsingBitmask_testInt64Range_sound_example :
  3 <= 4 <= 6
  /\ BigintValuesUsingBitmask.testInt64 sampleBitmask 4 = true
  /\ BigintValuesUsingBitmask.testInt64Range sampleBitmask 3 6 false = true.
Proof.
  assert (Hv : 3 <= 4 <= 6) by lia.
  assert (Ht : BigintValuesUsingBitmask.testInt64 sampleBitmask 4 = true)
    by reflexivity.
  split; [exact Hv | split; [exact Ht |]].
  exact (BigintValuesUsingBitmask_testInt64Range_sound sampleBitmask 3 6 4
           false Hv Ht).
Defined.

Lemma BigintValuesUsingHashTable_testInt64Range_sound_example :
  BigintValuesUsingHashTable.ctor sampleEmptyMarker sampleM 1 2 [1; 2] false
  = Ok sampleSmallTable
  /\ 0 <= 2 <= 5
  /\ BigintValuesUsingHashTable.testInt64 sampleEmptyMarker sampleM
       sampleSmallTable 2 = true
  /\ BigintValuesUsingHashTable.testInt64Range sampleEmptyMarker sampleM
       sampleSmallTable 0 5 false = true.
Proof.
  assert (Hv : 0 <= 2 <= 5) by lia.
  assert (Ht : BigintValuesUsingHashTable.testInt64 sampleEmptyMarker sampleM
                 sampleSmallTable 2 = true) by (vm_compute; reflexivity).
  split; [vm_compute; reflexivity | split; [exact Hv | split; [exact Ht |]]].
  apply (BigintValuesUsingHashTable_testInt64Range_sound sampleEmptyMarker
           sampleM sampleSmallTable 0 5 2 false); [| exact Hv | exact Ht].
  cbn. discriminate.
Defined.

Lemma BigintMultiRange_testInt64Range_sound_example :
  BigintMultiRange.ctor
    [BigintRange.mk 4 5 false; BigintRange.mk 7 9 false] false
  = Ok sampleApartRanges
  /\ 6 <= 8 <= 20
  /\ BigintMultiRange.testInt64 sampleApartRanges 8 = true
  /\ BigintMultiRange.testInt64Range sampleApartRanges 6 20 false = true.
Proof.
  assert (Hctor : BigintMultiRange.ctor
                    [BigintRange.mk 4 5 false; BigintRange.mk 7 9 false] false
                  = Ok sampleApartRanges) by reflexivity.
  assert (Hwf : Forall BigintRange.wf
                  [BigintRange.mk 4 5 false; BigintRange.mk 7 9 false]).
  { repeat constructor; unfold BigintRange.wf; cbn; lia. }
  assert (Hv : 6 <= 8 <= 20) by lia.
  assert (Ht : BigintMultiRange.testInt64 sampleApartRanges 8 = true)
    by (vm_compute; reflexivity).
  split; [exact Hctor | split; [exact Hv | split; [exact Ht |]]].
  exact (BigintMultiRange_testInt64Range_sound _ _ _ 6 20 8 false
           Hctor Hwf Hv Ht).
Defined.

Lemma BigintMultiRange_clone_returns_example :
  BigintMultiRange.ctor
    [BigintRange.mk 4 5 false; BigintRange.mk 7 9 false] false
  = Ok sampleApartRanges
  /\ clone (OfBigintMultiRange sampleApartRanges) (Some true)
     = Ok (OfBigintMultiRange
             (BigintMultiRange.mk
                [BigintRange.mk 4 5 false; BigintRange.mk 7 9 false] [4; 7]
                true)).
Proof.
  assert (Hctor : BigintMultiRange.ctor
                    [BigintRange.mk 4 5 false; BigintRange.mk 7 9 false] false
                  = Ok sampleApartRanges) by reflexivity.
  split; [exact Hctor |].
  exact (BigintMultiRange_clone_returns _ _ _ (Some true) Hctor).
Defined.

Lemma sorted_1_3_5 : sortedZ [1; 3; 5].
Proof.
  intros i j x y Hij Hi Hj.
  destruct i as [| [| [| i]]], j as [| [| [| j]]]; cbn in Hi, Hj;
    try discriminate; try lia;
    injection Hi as <-; injection Hj as <-; lia.
Defined.

Lemma binarySearch_spec_example :
  sortedZ [1; 3; 5]
  /\ binarySearch [1; 3; 5] 4 = -3
  /\ (0 <= binarySearch [1; 3; 5] 4 <-> 4 ∈ [1; 3; 5]).
Proof.
  split; [exact sorted_1_3_5 | split; [reflexivity |]].
  exact (proj1 (binarySearch_spec [1; 3; 5] 4 sorted_1_3_5)).
Defined.

Lemma createBigintValues_accepts_exactly_example :
  NoDup [1; 3; 5; 7; 9]
  /\ 3 * Z.of_nat (length [1; 3; 5; 7; 9]) < 2 ^ 32
  /\ exists r : Filter,
       createBigintValues sampleEmptyMarker sampleM [1; 3; 5; 7; 9] true
       = Ok r
       /\ (forall x, testInt64 sampleEmptyMarker sampleM r x = true
                     <-> x ∈ [1; 3; 5; 7; 9])
       /\ testNull r = true.
Proof.
  assert (Hnd : NoDup [1; 3; 5; 7; 9])
    by (apply (bool_decide_unpack (NoDup [1; 3; 5; 7; 9])); vm_compute;
        exact I).
  assert (Hsmall : 3 * Z.of_nat (length [1; 3; 5; 7; 9]) < 2 ^ 32)
    by (vm_compute; reflexivity).
  split; [exact Hnd | split; [exact Hsmall |]].
  exact (createBigintValues_accepts_exactly sampleEmptyMarker sampleM
           [1; 3; 5; 7; 9] true Hnd Hsmall).
Defined.

Lemma sampleApartRanges_wfOperand :
  wfOperand sampleEmptyMarker sampleM (OfBigintMultiRange sampleApartRanges).
Proof.
  split; [reflexivity | split; [reflexivity | split]].
  - repeat constructor; unfold BigintRange.wf; cbn; lia.
  - intros i j ri rj Hij Hi Hj.
    destruct i as [| [| i]], j as [| [| j]]; try lia; cbn in Hi, Hj;
      first [ discriminate
            | injection Hi as <-; injection Hj as <-; cbn; lia ].
Defined.

Lemma sampleBitmask_wfOperand :
  wfOperand sampleEmptyMarker sampleM (OfBigintValuesUsingBitmask sampleBitmask).
Proof. vm_compute. reflexivity. Defined.

Lemma sampleMerge :
  mergeWith sampleEmptyMarker sampleM
    (OfBigintValuesUsingBitmask sampleBitmask)
    (OfBigintMultiRange sampleApartRanges)
  = Ok (OfBigintValuesUsingBitmask
          (BigintValuesUsingBitmask.mk [true; true; false; true] 4 7 false)).
Proof. vm_compute. reflexivity. Defined.

Lemma mergeWith_testNull_example :
  mergeWith sampleEmptyMarker sampleM
    (OfBigintRange (BigintRange.mk 1 10 true))
    (OfBigintMultiRange sampleNullableRanges)
  = Ok (OfBigintMultiRange
          (BigintMultiRange.mk
             [BigintRange.mk 1 3 true; BigintRange.mk 7 9 true] [1; 7] true))
  /\ testNull
       (OfBigintMultiRange
          (BigintMultiRange.mk
             [BigintRange.mk 1 3 true; BigintRange.mk 7 9 true] [1; 7] true))
     = testNull (OfBigintRange (BigintRange.mk 1 10 true))
       && testNull (OfBigintMultiRange sampleNullableRanges).
Proof.
  assert (Hmerge : mergeWith sampleEmptyMarker sampleM
                     (OfBigintRange (BigintRange.mk 1 10 true))
                     (OfBigintMultiRange sampleNullableRanges)
                   = Ok (OfBigintMultiRange
                           (BigintMultiRange.mk
                              [BigintRange.mk 1 3 true;
                               BigintRange.mk 7 9 true] [1; 7] true)))
    by (vm_compute; reflexivity).
  split; [exact Hmerge |].
  exact (mergeWith_testNull sampleEmptyMarker sampleM _ _ _ Hmerge).
Defined.

(** The bitmask filter over 1, 4, 5 and 7 merged with the ranges [4, 5]
    and [7, 9], which are apart: the result accepts 4, 5 and 7, the
    integers both operands accept. *)
Lemma mergeWith_conjunctionOf_example :
  conjunctionOf sampleEmptyMarker sampleM
    (OfBigintValuesUsingBitmask
       (BigintValuesUsingBitmask.mk [true; true; false; true] 4 7 false))
    (OfBigintValuesUsingBitmask sampleBitmask)
    (OfBigintMultiRange sampleApartRanges).
Proof.
  exact (mergeWith_conjunctionOf sampleEmptyMarker sampleM _ _ _
           sampleBitmask_wfOperand sampleApartRanges_wfOperand sampleMerge).
Defined.

Lemma mergeWith_wfOperand_example :
  wfOperand sampleEmptyMarker sampleM
    (OfBigintValuesUsingBitmask
       (BigintValuesUsingBitmask.mk [true; true; false; true] 4 7 false)).
Proof.
  exact (mergeWith_wfOperand sampleEmptyMarker sampleM _ _ _
           sampleBitmask_wfOperand sampleApartRanges_wfOperand sampleMerge).
Defined.

(** The nullable range [4, 5] misses both nullable children [1, 3] and
    [7, 9]: the merge returns no filter. *)
Lemma BigintRange_mergeWith_multi_returns_example :
  BigintMultiRange.ctor
    [BigintRange.mk 1 3 true; BigintRange.mk 7 9 true] true
  = Ok sampleNullableRanges
  /\ ~ rangesMeet (BigintRange.mk 4 5 true) (BigintRange.mk 7 9 true)
  /\ ~ returns (BigintRange_mergeWith sampleEmptyMarker sampleM
                  (BigintRange.mk 4 5 true)
                  (OfBigintMultiRange sampleNullableRanges)).
Proof.
  assert (Hctor : BigintMultiRange.ctor
                    [BigintRange.mk 1 3 true; BigintRange.mk 7 9 true] true
                  = Ok sampleNullableRanges) by reflexivity.
  assert (Hwf : Forall BigintRange.wf
                  [BigintRange.mk 1 3 true; BigintRange.mk 7 9 true]).
  { repeat constructor; unfold BigintRange.wf; cbn; lia. }
  assert (Hmiss : ~ rangesMeet (BigintRange.mk 4 5 true)
                      (BigintRange.mk 7 9 true))
    by (unfold rangesMeet; cbn; lia).
  split; [exact Hctor | split; [exact Hmiss |]].
  intros Hreturns. apply Hmiss.
  apply (proj1 (BigintRange_mergeWith_multi_returns sampleEmptyMarker sampleM
                  (BigintRange.mk 4 5 true) _ _ _ Hctor Hwf) Hreturns);
    [right; left | reflexivity | reflexivity].
Defined.

Lemma MultiRange_testBytesRange_sound_example :
  MultiRangeOnBytes.testBytes
    (MultiRangeOnBytes.mk
       [sampleBytesChild "a" "c"; sampleBytesChild "m" "p"] false) "n"
  = Ok true
  /\ MultiRangeOnBytes.testBytesRange
       (MultiRangeOnBytes.mk
          [sampleBytesChild "a" "c"; sampleBytesChild "m" "p"] false)
       (Some "d"%string) (Some "n"%string) false
     = Ok true.
Proof.
  assert (Htest : MultiRangeOnBytes.testBytes
                    (MultiRangeOnBytes.mk
                       [sampleBytesChild "a" "c"; sampleBytesChild "m" "p"]
                       false) "n" = Ok true) by reflexivity.
  split; [exact Htest |].
  apply (MultiRange_testBytesRange_sound _ _ _ _ "n"); [| | exact Htest].
  - intros child Hin. cbn in Hin. rewrite !elem_of_cons, elem_of_nil in Hin.
    destruct Hin as [-> | [-> | []]]; eexists; reflexivity.
  - intros child Hin. cbn in Hin. rewrite !elem_of_cons, elem_of_nil in Hin.
    destruct Hin as [-> | [-> | []]]; [discriminate | reflexivity].
Defined.

Lemma toString_injective_example :
  toString kBigintRange true false
  = "Filter(BigintRange, deterministic, null not allowed)"%string
  /\ (kBigintRange = kBigintRange /\ true = true /\ false = false).
Proof.
  split; [reflexivity |].
  exact (toString_injective kBigintRange kBigintRange true true false false
           eq_refl).
Defined.

Lemma sampleNullableRanges_wfOperand :
  wfOperand sampleEmptyMarker sampleM
    (OfBigintMultiRange sampleNullableRanges).
Proof.
  split; [reflexivity | split; [reflexivity | split]].
  - repeat constructor; unfold BigintRange.wf; cbn; lia.
  - intros i j ri rj Hij Hi Hj.
    destruct i as [| [| i]], j as [| [| j]]; try lia; cbn in Hi, Hj;
      first [ discriminate
            | injection Hi as <-; injection Hj as <-; cbn; lia ].
Defined.

(** The multi-range of the nullable ranges [1, 3] and [7, 9] merged with
    itself: the child [1, 3] misses the child [7, 9], and the merge returns
    no filter. *)
Lemma BigintMultiRange_mergeWith_multi_returns_example :
  ~ rangesMeet (BigintRange.mk 1 3 true) (BigintRange.mk 7 9 true)
  /\ ~ returns (mergeWith sampleEmptyMarker sampleM
                  (OfBigintMultiRange sampleNullableRanges)
                  (OfBigintMultiRange sampleNullableRanges)).
Proof.
  assert (Hmiss : ~ rangesMeet (BigintRange.mk 1 3 true)
                      (BigintRange.mk 7 9 true))
    by (unfold rangesMeet; cbn; lia).
  split; [exact Hmiss |]. intros Hreturns. apply Hmiss.
  apply (proj1 (proj1 (BigintMultiRange_mergeWith_multi_returns
                         sampleEmptyMarker sampleM _ _
                         sampleNullableRanges_wfOperand
                         sampleNullableRanges_wfOperand) Hreturns
                  (BigintRange.mk 1 3 true) ltac:(left) eq_refl));
    [right; left | reflexivity].
Defined.

Lemma BigintValuesUsingBitmask_mergeWith_at_int64_max_example :
  BigintValuesUsingBitmask.ctor (kInt64Max - 2) kInt64Max
    [kInt64Max - 2; kInt64Max] false = Ok sampleTopBitmask
  /\ mergeWith sampleEmptyMarker sampleM
       (OfBigintValuesUsingBitmask sampleTopBitmask)
       (OfBigintRange (BigintRange.mk 0 kInt64Max false))
     = Fail Undefined.
Proof.
  split; [vm_compute; reflexivity |].
  apply (BigintValuesUsingBitmask_mergeWith_at_int64_max sampleEmptyMarker
           sampleM sampleTopBitmask (BigintRange.mk 0 kInt64Max false));
    first [ reflexivity | vm_compute; discriminate ].
Defined.
